(** * YouTube Detox content script: a shallow embedding and its properties

    The development follows [chrome/content.js].  Every class of the script
    becomes a record, every method a computation in a small state-and-
    exception monad over the object and the browser it runs in.  DOM nodes
    are kept in a store indexed by node identity, so that the two [WeakSet]s
    of [ShortsBlocker] are finite sets of identities. *)

From stdpp Require Import gmap strings list.
From Stdlib Require Import Ascii String.

Local Open Scope stdpp_scope.

(* The solvers of stdpp clear hypotheses by name. *)
#[local] Set Warnings "-clear-no-such-hyp".

(** ** JavaScript completions: a state monad with exceptions *)

Inductive exn : Type :=
  | SyntaxError (selector : string)
  | TypeError (what : string).

Inductive completion (A : Type) : Type :=
  | Normal (a : A)
  | Throw (e : exn).
Arguments Normal {A} a.
Arguments Throw {A} e.

(** A computation over a mutable state [S].  State changes made before an
    exception is raised are kept, as in JavaScript. *)
Definition js (S A : Type) : Type := S -> completion A * S.

Definition ret {S A} (a : A) : js S A := fun s => (Normal a, s).

Definition bind {S A B} (m : js S A) (k : A -> js S B) : js S B :=
  fun s => match m s with
           | (Normal a, s') => k a s'
           | (Throw e, s') => (Throw e, s')
           end.

Definition throw {S A} (e : exn) : js S A := fun s => (Throw e, s).

Definition gets {S A} (f : S -> A) : js S A := fun s => (Normal (f s), s).

Definition modify {S} (f : S -> S) : js S unit := fun s => (Normal tt, f s).

(** [try { body } catch (error) { handler }] *)
Definition try_catch {S A} (body : js S A) (handler : exn -> js S A) : js S A :=
  fun s => match body s with
           | (Normal a, s') => (Normal a, s')
           | (Throw e, s') => handler e s'
           end.

(** [try { body } finally { final }]: [final] always runs; the completion of
    [body] is kept unless [final] itself throws. *)
Definition try_finally {S A} (body : js S A) (final : js S unit) : js S A :=
  fun s => match body s with
           | (c, s') => match final s' with
                        | (Normal _, s'') => (c, s'')
                        | (Throw e, s'') => (Throw e, s'')
                        end
           end.

(** [for (const x of l) { body x }] *)
Fixpoint for_of {S A} (l : list A) (body : A -> js S unit) : js S unit :=
  match l with
  | [] => ret tt
  | x :: l' => bind (body x) (fun _ => for_of l' body)
  end.

(** Running a method of an object that is a component of a larger state. *)
Definition zoom {S T A} (get : S -> T) (set : T -> S -> S) (m : js T A) : js S A :=
  fun s => match m (get s) with (c, t) => (c, set t s) end.

Definition exec {S A} (m : js S A) (s : S) : S := snd (m s).

#[global] Instance js_ret {S} : MRet (js S) := fun A => @ret S A.
#[global] Instance js_bind {S} : MBind (js S) := fun A B k m => @bind S A B m k.

(** ** Strings and the two URL patterns *)

Fixpoint string_drop (n : nat) (s : string) : string :=
  match n, s with
  | 0, _ => s
  | S n', EmptyString => EmptyString
  | S n', String _ s' => string_drop n' s'
  end.

(** [s.includes(p)]: [p] occurs somewhere in [s]. *)
Fixpoint includes (p s : string) : bool :=
  String.prefix p s ||
  match s with
  | EmptyString => false
  | String _ s' => includes p s'
  end.

(** [URL_PATTERNS.SHORTS_PAGE]: the unanchored literal /shorts/. *)
Definition SHORTS_PAGE_test (url : string) : bool := includes "/shorts/" url.

(** Consume a literal at the head of the input. *)
Definition eat (p s : string) : option string :=
  if String.prefix p s then Some (string_drop (String.length p) s) else None.

(** Consume an optional literal [(p)?].  In the homepage pattern what follows
    an optional group never starts like the group, so the greedy choice is
    the only one that can succeed. *)
Definition eat_opt (p s : string) : string := default s (eat p s).

(** A string holds the UTF-8 encoding of the JavaScript string it stands
    for.  The line terminators of the language, which the dot of a regular
    expression does not match: LF, CR, and the line and paragraph separators
    U+2028 and U+2029, three bytes each in UTF-8. *)
Definition LineTerminators : list string :=
  [ String "010" "";
    String "013" "";
    String "226" (String "128" (String "168" ""));
    String "226" (String "128" (String "169" "")) ].

(** [.*] up to the end of the input: no line terminator starts anywhere in
    the rest. *)
Fixpoint no_line_terminator (s : string) : bool :=
  match s with
  | EmptyString => true
  | String _ s' =>
    negb (existsb (fun t => String.prefix t s) LineTerminators)
    && no_line_terminator s'
  end.

(** [URL_PATTERNS.HOMEPAGE]: anchored at both ends; scheme http or https,
    an optional www prefix, the host youtube.com, an optional slash, and an
    optional query string (a question mark followed by any characters other
    than line terminators). *)
Definition HOMEPAGE_test (url : string) : bool :=
  match eat "http" url with
  | None => false
  | Some r1 =>
    match eat "://" (eat_opt "s" r1) with
    | None => false
    | Some r2 =>
      match eat "youtube.com" (eat_opt "www." r2) with
      | None => false
      | Some r3 =>
        match eat_opt "/" r3 with
        | EmptyString => true
        | String c q => bool_decide (c = "?"%char) && no_line_terminator q
        end
      end
    end
  end.

(** ** Timers: [setTimeout] and [clearTimeout] *)

Module Timers.
Section Queue.
Context {T : Type}.

Record timer : Type := Timer { timer_id : nat; deadline : nat; callback : T }.

    (** The timer queue of the window.  Identifiers are never reused. *)
Record queue : Type := Queue { now : nat; next_timer : nat; pending : list timer }.

Definition empty : queue := Queue 0 1 [].

Definition setTimeout (cb : T) (delay : nat) (q : queue) : nat * queue :=
      (next_timer q,
       Queue (now q) (S (next_timer q))
             (pending q ++ [Timer (next_timer q) (now q + delay) cb])).

    (** [clearTimeout(undefined)] and clearing a timer that already fired do
        nothing. *)
Definition clearTimeout (id : option nat) (q : queue) : queue :=
      match id with
      | None => q
      | Some i =>
        Queue (now q) (next_timer q)
              (filter (fun t => timer_id t ≠ i) (pending q))
      end.

Definition due (t : nat) (tm : timer) : Prop := deadline tm ≤ t.

#[global] Instance due_dec t tm : Decision (due t tm).
Proof. unfold due. apply _. Defined.
End Queue.
Arguments timer : clear implicits.
Arguments queue : clear implicits.
End Timers.

(** ** The browser: document, window, console and extension runtime *)

(** An element of the page.  Identity is the key under which the node is
    stored; [toggles] records the element captured by the click handler that
    [createOverlay] installs on the toggle button of an overlay (the inner
    markup of an overlay is not represented by separate nodes). *)
Record node : Type := Node {
  className : string;
  attributes : list (string * string);
  parentNode : option nat;
  childNodes : list nat;
  display : string;
  toggles : option nat
}.

#[global] Instance node_eq_dec : EqDecision node.
Proof. solve_decision. Defined.

Inductive log_level : Type := LOG | WARN | ERROR.

Inductive log_arg : Type :=
  | NoArg
  | Str (s : string)
  | Err (e : exn).

Record log_entry : Type := Log {
  level : log_level;
  message : string;
  argument : log_arg
}.

Inductive event_target : Type := Document | Window.

(** The two bound handlers of a [ScrollPreventer], and handlers owned by the
    page itself. *)
Inductive listener_fn : Type :=
  | boundPreventWheel
  | boundPreventKeys
  | foreign (n : nat).

Record listener : Type := Listener {
  target : event_target;
  event_type : string;
  fn : listener_fn;
  capture : bool
}.

#[global] Instance event_target_eq_dec : EqDecision event_target.
Proof. solve_decision. Defined.
#[global] Instance listener_fn_eq_dec : EqDecision listener_fn.
Proof. solve_decision. Defined.
#[global] Instance listener_eq_dec : EqDecision listener.
Proof. solve_decision. Defined.

(** Callbacks handed to [setTimeout] by the controller. *)
Inductive task : Type := ProcessPage.

Record browser : Type := Browser {
  href : string;                          (* window.location.href *)
  nodes : gmap nat node;                  (* every live node, by identity *)
  body : option string;                   (* document.body.style.overflow;
                                             None when document.body is null *)
  query : string -> option (list nat);    (* matches of a selector in document
                                             order; None when the selector
                                             cannot be parsed *)
  listeners : list listener;
  console : list log_entry;
  sent : list string;                     (* chrome.runtime.sendMessage types *)
  clock : Timers.queue task
}.

Definition set_nodes (f : gmap nat node -> gmap nat node) (b : browser) : browser :=
  Browser (href b) (f (nodes b)) (body b) (query b) (listeners b) (console b)
          (sent b) (clock b).

Definition set_body (v : option string) (b : browser) : browser :=
  Browser (href b) (nodes b) v (query b) (listeners b) (console b) (sent b)
          (clock b).

Definition set_listeners (f : list listener -> list listener) (b : browser) : browser :=
  Browser (href b) (nodes b) (body b) (query b) (f (listeners b)) (console b)
          (sent b) (clock b).

Definition set_console (f : list log_entry -> list log_entry) (b : browser) : browser :=
  Browser (href b) (nodes b) (body b) (query b) (listeners b) (f (console b))
          (sent b) (clock b).

Definition set_sent (f : list string -> list string) (b : browser) : browser :=
  Browser (href b) (nodes b) (body b) (query b) (listeners b) (console b)
          (f (sent b)) (clock b).

Definition set_clock (q : Timers.queue task) (b : browser) : browser :=
  Browser (href b) (nodes b) (body b) (query b) (listeners b) (console b)
          (sent b) q.

(** Methods of an object [O] run on the pair of the object and the browser. *)
Definition page {O A} (m : js browser A) : js (O * browser) A :=
  zoom snd (fun b s => (s.1, b)) m.

Definition self {O A} (m : js O A) : js (O * browser) A :=
  zoom fst (fun o s => (o, s.2)) m.

(** *** Console *)

Definition console_log (msg : string) (a : log_arg) : js browser unit :=
  modify (set_console (fun c => c ++ [Log LOG msg a])).

Definition console_warn (msg : string) (a : log_arg) : js browser unit :=
  modify (set_console (fun c => c ++ [Log WARN msg a])).

Definition console_error (msg : string) (a : log_arg) : js browser unit :=
  modify (set_console (fun c => c ++ [Log ERROR msg a])).

(** *** DOM *)

Definition blank : node := Node "" [] None [] "" None.

(** [document.createElement]: a new, detached node with a fresh identity. *)
Definition createElement : js browser nat :=
  fun b => let n := fresh (dom (nodes b)) in
           (Normal n, set_nodes (insert n blank) b).

Definition update_node (n : nat) (f : node -> node) : js browser unit :=
  modify (set_nodes (alter f n)).

Definition set_className (v : string) (x : node) : node :=
  Node v (attributes x) (parentNode x) (childNodes x) (display x) (toggles x).

Definition setAttribute (k v : string) (x : node) : node :=
  Node (className x) ((k, v) :: filter (fun a => a.1 ≠ k) (attributes x))
       (parentNode x) (childNodes x) (display x) (toggles x).

Definition set_parentNode (p : option nat) (x : node) : node :=
  Node (className x) (attributes x) p (childNodes x) (display x) (toggles x).

Definition set_childNodes (f : list nat -> list nat) (x : node) : node :=
  Node (className x) (attributes x) (parentNode x) (f (childNodes x))
       (display x) (toggles x).

Definition set_display (v : string) (x : node) : node :=
  Node (className x) (attributes x) (parentNode x) (childNodes x) v (toggles x).

Definition set_toggles (e : nat) (x : node) : node :=
  Node (className x) (attributes x) (parentNode x) (childNodes x) (display x)
       (Some e).

(** [n.parentNode]; a node that is not in the store has none. *)
Definition parentNode_of (b : browser) (n : nat) : option nat :=
  nodes b !! n ≫= parentNode.

(** Insert [new] before the reference child; with no reference (or one that
    is not a child) the node is appended, as [insertBefore(new, null)] does. *)
Fixpoint insert_before (new : nat) (ref : option nat) (l : list nat) : list nat :=
  match l with
  | [] => [new]
  | x :: l' => if decide (ref = Some x) then new :: x :: l'
               else x :: insert_before new ref l'
  end.

(** [n.nextSibling] read off the child list of the parent. *)
Fixpoint next_in (n : nat) (l : list nat) : option nat :=
  match l with
  | [] => None
  | x :: l' => if decide (x = n) then head l' else next_in n l'
  end.

Definition nextSibling_of (b : browser) (n : nat) : option nat :=
  p ← parentNode_of b n; x ← nodes b !! p; next_in n (childNodes x).

(** [parent.insertBefore(new, ref)] for a detached [new]. *)
Definition insertBefore (parent new : nat) (ref : option nat) : js browser unit :=
  update_node parent (set_childNodes (insert_before new ref));;
  update_node new (set_parentNode (Some parent)).

(** [n.remove()] *)
Definition remove_node (n : nat) : js browser unit :=
  fun b => match parentNode_of b n with
           | None => (Normal tt, b)
           | Some p =>
             (update_node p (set_childNodes (filter (fun c => c ≠ n)));;
              update_node n (set_parentNode None)) b
           end.

(** [document.querySelectorAll(selector)].  The empty string is not a
    selector: the DOM standard makes the call raise a SyntaxError for it, as
    for any other string that does not parse. *)
Definition querySelectorAll (selector : string) : js browser (list nat) :=
  fun b => if decide (selector = "") then (Throw (SyntaxError selector), b)
           else match query b selector with
                | Some l => (Normal l, b)
                | None => (Throw (SyntaxError selector), b)
                end.

(** [addEventListener] ignores a listener that is already registered with
    the same type, callback and capture flag. *)
Definition addEventListener (l : listener) : js browser unit :=
  modify (set_listeners (fun ls => if decide (l ∈ ls) then ls else ls ++ [l])).

Definition removeEventListener (l : listener) : js browser unit :=
  modify (set_listeners (filter (fun l' => l' ≠ l))).

(** [setTimeout(cb, delay)] *)
Definition setTimeout (cb : task) (delay : nat) : js browser nat :=
  fun b => let (id, q) := Timers.setTimeout cb delay (clock b) in
           (Normal id, set_clock q b).

(** ** Constants and utility functions of the script *)

Module YOUTUBE_SELECTORS.
Definition SHORTS_CONTAINERS : list string :=
  [ "[is-shorts]";
    "ytd-shorts";
    "ytd-reel-video-renderer";
    "ytd-reel-shelf-renderer";
    "[aria-label*=Shorts]";
    "[aria-label*=shorts]";
    "ytd-rich-shelf-renderer[is-shorts]";
    "ytd-rich-item-renderer:has([aria-label*=Shorts])" ].
End YOUTUBE_SELECTORS.

Module CONFIG.
Definition OVERLAY_CLASS : string := "yt-detox-overlay".
Definition SAVED_TABS_CONTAINER_ID : string := "yt-detox-saved-tabs".
Definition DEBOUNCE_DELAY : nat := 1000.
End CONFIG.

Module MESSAGE_TYPES.
Definition GET_SAVED_TABS : string := "getSavedTabs".
End MESSAGE_TYPES.

(** [safeQuerySelectorAll(selector)] with the default context [document].
    The handler logs a warning and then evaluates
    [document.querySelectorAll('')]. *)
Definition safeQuerySelectorAll (selector : string) : js browser (list nat) :=
  try_catch (querySelectorAll selector)
    (fun _ => console_warn "[YT Detox] Invalid selector:" (Str selector);;
              querySelectorAll "").

Definition isShortsPage : js browser bool := gets (fun b => SHORTS_PAGE_test (href b)).

Definition isHomePage : js browser bool := gets (fun b => HOMEPAGE_test (href b)).

(** The double quotes that the source writes inside attribute selectors are
    left out of the literals above; the literals only serve as keys of
    [query]. *)

(** ** ShortsBlocker *)

(** [new Set(array)] followed by a spread: insertion-ordered, one entry per
    identity. *)
Definition Set_add (s : list nat) (x : nat) : list nat :=
  if decide (x ∈ s) then s else s ++ [x].

Definition new_Set (l : list nat) : list nat := foldl Set_add [] l.

Module ShortsBlocker.

Record t : Type := Make {
  hiddenShorts : gset nat;
  sessionVisible : gset nat
}.

Definition set_hiddenShorts (f : gset nat -> gset nat) (o : t) : t :=
  Make (f (hiddenShorts o)) (sessionVisible o).

Definition set_sessionVisible (f : gset nat -> gset nat) (o : t) : t :=
  Make (hiddenShorts o) (f (sessionVisible o)).

Definition constructor : t := Make ∅ ∅.

(** The loop body pushes the matches of each selector onto [allShorts]. *)
Fixpoint collect (selectors : list string) (allShorts : list nat) : js browser (list nat) :=
  match selectors with
  | [] => mret allShorts
  | selector :: rest =>
    elements ← safeQuerySelectorAll selector;
    collect rest (allShorts ++ elements)
  end.

Definition findShortsElements : js browser (list nat) :=
  allShorts ← collect YOUTUBE_SELECTORS.SHORTS_CONTAINERS [];
  mret (new_Set allShorts).

Definition createOverlay (shortsElement : nat) : js browser nat :=
  overlay ← createElement;
  update_node overlay (set_className CONFIG.OVERLAY_CLASS);;
  update_node overlay (setAttribute "data-yt-detox" "shorts-overlay");;
  update_node overlay (set_toggles shortsElement);;
  mret overlay.

Definition toggleShortVisibility (shortsElement overlay : nat) : js (t * browser) unit :=
  visible ← gets (fun s => bool_decide (shortsElement ∈ sessionVisible s.1));
  if (visible : bool) then
    page (update_node shortsElement (set_display "none"));;
    page (update_node overlay (set_display "flex"));;
    self (modify (set_sessionVisible (fun v => v ∖ {[shortsElement]})))
  else
    page (update_node shortsElement (set_display ""));;
    page (update_node overlay (set_display "none"));;
    self (modify (set_sessionVisible (fun v => {[shortsElement]} ∪ v))).

Definition hideShort (shortsElement : nat) : js (t * browser) unit :=
  processed ← gets (fun s => bool_decide (shortsElement ∈ hiddenShorts s.1));
  if (processed : bool) then mret tt else
  visible ← gets (fun s => bool_decide (shortsElement ∈ sessionVisible s.1));
  if (visible : bool) then mret tt else
  try_catch
    (overlay ← page (createOverlay shortsElement);
     parent ← gets (fun s => parentNode_of s.2 shortsElement);
     match parent with
     | Some p =>
       sibling ← gets (fun s => nextSibling_of s.2 shortsElement);
       page (insertBefore p overlay sibling);;
       page (update_node shortsElement (set_display "none"));;
       self (modify (set_hiddenShorts (fun h => {[shortsElement]} ∪ h)))
     | None => mret tt
     end)
    (fun error => page (console_error "[YT Detox] Error hiding short:" (Err error))).

Definition processShorts : js (t * browser) unit :=
  shorts ← page isShortsPage;
  if (shorts : bool) then mret tt else
  shortsElements ← page findShortsElements;
  for_of shortsElements hideShort.

Definition resetSession : js (t * browser) unit :=
  self (modify (set_sessionVisible (fun _ => ∅))).

End ShortsBlocker.

(** ** NavigationButtonRemover *)

Module NavigationButtonRemover.

Record t : Type := Make {
  removedButtons : gset nat
}.

Definition constructor : t := Make ∅.

Definition navigationSelectors : list string :=
  [ "button[aria-label*=Go to next video]";
    "button[aria-label*=Go to previous video]";
    "button[aria-label*=Next video]";
    "button[aria-label*=Previous video]";
    ".navigation-button";
    ".shorts-navigation-button";
    "[data-title-no-tooltip*=Next]";
    "[data-title-no-tooltip*=Previous]";
    "button[title*=Next]";
    "button[title*=Previous]";
    ".ytp-button.ytp-next-button";
    ".ytp-button.ytp-prev-button" ].

Definition hide_button (button : nat) : js (t * browser) unit :=
  seen ← gets (fun s => bool_decide (button ∈ removedButtons s.1));
  if (seen : bool) then mret tt else
  page (update_node button (set_display "none"));;
  self (modify (fun o => Make ({[button]} ∪ removedButtons o))).

Definition removeNavigationButtons : js (t * browser) unit :=
  shorts ← page isShortsPage;
  if negb shorts then mret tt else
  for_of navigationSelectors (fun selector =>
    buttons ← page (safeQuerySelectorAll selector);
    for_of buttons hide_button).

Definition reset : js (t * browser) unit :=
  self (modify (fun _ => Make ∅)).

End NavigationButtonRemover.

(** ** ScrollPreventer *)

Module ScrollPreventer.

Record t : Type := Make {
  isActive : bool;
  originalOverflow : string
}.

Definition constructor : t := Make false "".

(** Reading [document.body.style.overflow]; a null body makes the property
    access raise a TypeError. *)
Definition get_body_overflow : js browser string :=
  fun b => match body b with
           | Some v => (Normal v, b)
           | None => (Throw (TypeError "document.body is null"), b)
           end.

Definition set_body_overflow (v : string) : js browser unit :=
  fun b => match body b with
           | Some _ => (Normal tt, set_body (Some v) b)
           | None => (Throw (TypeError "document.body is null"), b)
           end.

Definition enable : js (t * browser) unit :=
  active ← gets (fun s => isActive s.1);
  if (active : bool) then mret tt else
  overflow ← page get_body_overflow;
  self (modify (fun o => Make (isActive o) overflow));;
  page (set_body_overflow "hidden");;
  page (addEventListener (Listener Document "wheel" boundPreventWheel true));;
  page (addEventListener (Listener Document "keydown" boundPreventKeys true));;
  page (addEventListener (Listener Window "wheel" boundPreventWheel false));;
  page (addEventListener (Listener Window "keydown" boundPreventKeys false));;
  self (modify (fun o => Make true (originalOverflow o))).

Definition disable : js (t * browser) unit :=
  active ← gets (fun s => isActive s.1);
  if negb active then mret tt else
  original ← gets (fun s => originalOverflow s.1);
  page (set_body_overflow original);;
  page (removeEventListener (Listener Document "wheel" boundPreventWheel true));;
  page (removeEventListener (Listener Document "keydown" boundPreventKeys true));;
  page (removeEventListener (Listener Window "wheel" boundPreventWheel false));;
  page (removeEventListener (Listener Window "keydown" boundPreventKeys false));;
  self (modify (fun o => Make false (originalOverflow o))).

Definition update : js (t * browser) unit :=
  shorts ← page isShortsPage;
  if (shorts : bool) then enable else disable.

End ScrollPreventer.

(** ** SavedTabsUI *)

Module SavedTabsUI.

Record t : Type := Make {
  container : option nat
}.

Definition constructor : t := Make None.

(** [refresh] is an async function: the call itself runs up to the first
    [await], that is, it posts the GET_SAVED_TABS request.  Everything after
    it, and any failure, is settled on the returned promise and never raised
    to the caller. *)
Definition refresh : js (t * browser) unit :=
  page (modify (set_sent (fun m => m ++ [MESSAGE_TYPES.GET_SAVED_TABS]))).

Definition remove : js (t * browser) unit :=
  c ← gets (fun s => container s.1);
  match c with
  | Some n =>
    page (remove_node n);;
    self (modify (fun _ => Make None))
  | None => mret tt
  end.

End SavedTabsUI.

(** ** YouTubeDetoxController *)

Module YouTubeDetoxController.

Record t : Type := Make {
  shortsBlocker : ShortsBlocker.t;
  scrollPreventer : ScrollPreventer.t;
  navigationButtonRemover : NavigationButtonRemover.t;
  savedTabsUI : SavedTabsUI.t;
  extensionEnabled : bool;
  currentUrl : string;
  isProcessing : bool
}.

Definition set_shortsBlocker (v : ShortsBlocker.t) (c : t) : t :=
  Make v (scrollPreventer c) (navigationButtonRemover c) (savedTabsUI c)
       (extensionEnabled c) (currentUrl c) (isProcessing c).

Definition set_scrollPreventer (v : ScrollPreventer.t) (c : t) : t :=
  Make (shortsBlocker c) v (navigationButtonRemover c) (savedTabsUI c)
       (extensionEnabled c) (currentUrl c) (isProcessing c).

Definition set_navigationButtonRemover (v : NavigationButtonRemover.t) (c : t) : t :=
  Make (shortsBlocker c) (scrollPreventer c) v (savedTabsUI c)
       (extensionEnabled c) (currentUrl c) (isProcessing c).

Definition set_savedTabsUI (v : SavedTabsUI.t) (c : t) : t :=
  Make (shortsBlocker c) (scrollPreventer c) (navigationButtonRemover c) v
       (extensionEnabled c) (currentUrl c) (isProcessing c).

Definition set_currentUrl (v : string) (c : t) : t :=
  Make (shortsBlocker c) (scrollPreventer c) (navigationButtonRemover c)
       (savedTabsUI c) (extensionEnabled c) v (isProcessing c).

Definition set_isProcessing (v : bool) (c : t) : t :=
  Make (shortsBlocker c) (scrollPreventer c) (navigationButtonRemover c)
       (savedTabsUI c) (extensionEnabled c) (currentUrl c) v.

(** The state of the running content script: the controller object and the
    browser. *)
Definition state : Type := t * browser.

Definition constructor (b : browser) : t :=
  Make ShortsBlocker.constructor ScrollPreventer.constructor
       NavigationButtonRemover.constructor SavedTabsUI.constructor
       true (href b) false.

(** Calling a method of one of the four services. *)
Definition on_shortsBlocker {A} (m : js (ShortsBlocker.t * browser) A) : js state A :=
  zoom (fun s => (shortsBlocker s.1, s.2))
       (fun ob s => (set_shortsBlocker ob.1 s.1, ob.2)) m.

Definition on_scrollPreventer {A} (m : js (ScrollPreventer.t * browser) A) : js state A :=
  zoom (fun s => (scrollPreventer s.1, s.2))
       (fun ob s => (set_scrollPreventer ob.1 s.1, ob.2)) m.

Definition on_navigationButtonRemover {A} (m : js (NavigationButtonRemover.t * browser) A) : js state A :=
  zoom (fun s => (navigationButtonRemover s.1, s.2))
       (fun ob s => (set_navigationButtonRemover ob.1 s.1, ob.2)) m.

Definition on_savedTabsUI {A} (m : js (SavedTabsUI.t * browser) A) : js state A :=
  zoom (fun s => (savedTabsUI s.1, s.2))
       (fun ob s => (set_savedTabsUI ob.1 s.1, ob.2)) m.

(** The four stages of a pass, in the order of the source. *)
Definition stage_scroll : js state unit :=
  on_scrollPreventer ScrollPreventer.update.

Definition stage_buttons : js state unit :=
  on_navigationButtonRemover NavigationButtonRemover.removeNavigationButtons.

Definition stage_shorts : js state unit :=
  on_shortsBlocker ShortsBlocker.processShorts.

Definition stage_savedTabs : js state unit :=
  home ← page isHomePage;
  if (home : bool) then
    page (console_log "[YT Detox] On homepage, showing saved tabs UI" NoArg);;
    on_savedTabsUI SavedTabsUI.refresh
  else
    url ← gets (fun s => href s.2);
    page (console_log "[YT Detox] Not on homepage, current URL:" (Str url)).

Definition processPage : js state unit :=
  skip ← gets (fun s => negb (extensionEnabled s.1) || isProcessing s.1);
  if (skip : bool) then mret tt else
  self (modify (set_isProcessing true));;
  try_finally
    (try_catch
       (stage_scroll;;
        stage_buttons;;
        stage_shorts;;
        stage_savedTabs)
       (fun error =>
          page (console_error "[YT Detox] Page processing error:" (Err error))))
    (self (modify (set_isProcessing false))).

Definition handleNavigation : js state unit :=
  newUrl ← gets (fun s => href s.2);
  current ← gets (fun s => currentUrl s.1);
  if decide (newUrl ≠ current) then
    self (modify (set_currentUrl newUrl));;
    on_shortsBlocker ShortsBlocker.resetSession;;
    on_navigationButtonRemover NavigationButtonRemover.reset;;
    on_savedTabsUI SavedTabsUI.remove;;
    page (setTimeout ProcessPage 100);;
    mret tt
  else mret tt.

End YouTubeDetoxController.

(** ** debounce

    [debounce(func, delay)] returns a closure over the variable [timeoutId].
    The closure, its timers and the data [func] works on form the state. *)

Module Debounce.

Record state (D : Type) : Type := Make {
  timeoutId : option nat;            (* undefined until the first call *)
  timers : Timers.queue unit;        (* timers armed by the closure *)
  app : D                            (* what [func] acts on *)
}.
Arguments Make {D}.
Arguments timeoutId {D}.
Arguments timers {D}.
Arguments app {D}.

Inductive event : Type :=
  | Call      (* the debounced function is called *)
  | Tick.     (* one millisecond passes *)

Section Closure.
Context {D : Type} (func : D -> D) (delay : nat).

Definition create (q : Timers.queue unit) (a : D) : state D := Make None q a.

(** One call of the returned function: [clearTimeout(timeoutId)], then
    [timeoutId = setTimeout(..., delay)]. *)
Definition debounced (st : state D) : state D :=
  let q := Timers.clearTimeout (timeoutId st) (timers st) in
  let (id, q') := Timers.setTimeout tt delay q in
  Make (Some id) q' (app st).

(** One millisecond passes; every timer that is due then fires, in the order
    of arming, and is dropped from the queue.  A firing timer runs
    [func]. *)
Definition tick (st : state D) : state D :=
  let q := timers st in
  let t := S (Timers.now q) in
  let fired := filter (Timers.due t) (Timers.pending q) in
  let kept := filter (fun tm => ¬ Timers.due t tm) (Timers.pending q) in
  Make (timeoutId st)
       (Timers.Queue t (Timers.next_timer q) kept)
       (foldl (fun a _ => func a) (app st) fired).

Definition step (st : state D) (e : event) : state D :=
  match e with
  | Call => debounced st
  | Tick => tick st
  end.

Definition run (es : list event) (st : state D) : state D := foldl step st es.

(** Every state the closure goes through, the first one included. *)
Fixpoint trace (es : list event) (st : state D) : list (state D) :=
  st :: match es with
        | [] => []
        | e :: es' => trace es' (step st e)
        end.

(** The armed timer, if any, is the one [timeoutId] names and fires [k]
    milliseconds from now; [func] has not run since the data was [a]. *)
Definition waiting (a : D) (k : nat) (st : state D) : Prop :=
  app st = a ∧
  ∃ id, Timers.pending (timers st) =
          [Timers.Timer id (Timers.now (timers st) + k) tt]
        ∧ timeoutId st = Some id.

(** No timer is armed and [func] has run on [a]. *)
Definition fired (a : D) (st : state D) : Prop :=
  app st = func a ∧ Timers.pending (timers st) = [].

End Closure.

(** A burst of calls: a first call, then one more call after each gap. *)
Definition burst (gaps : list nat) : list event :=
  Call :: flat_map (fun g => replicate g Tick ++ [Call]) gaps.

End Debounce.

(** ** The mutation observer callback *)

Module MutationObserver.

(** What the callback reads of an element: its id, classes, attribute names
    and chain of ancestors.  A mutation record is an immutable snapshot. *)
#[local] Unset Elimination Schemes.
Inductive element : Type :=
  Element (id : string) (classList : list string) (attributeNames : list string)
          (parentElement : option element).
#[local] Set Elimination Schemes.

Definition id (e : element) : string := let (i, _, _, _) := e in i.
Definition classList (e : element) : list string := let (_, c, _, _) := e in c.
Definition attributeNames (e : element) : list string := let (_, _, a, _) := e in a.
Definition parentElement (e : element) : option element := let (_, _, _, p) := e in p.

Inductive dom_node : Type :=
  | ElementNode (e : element)
  | TextNode
  | CommentNode.

Definition ELEMENT_NODE : nat := 1.

Definition nodeType (n : dom_node) : nat :=
  match n with
  | ElementNode _ => 1
  | TextNode => 3
  | CommentNode => 8
  end.

Record MutationRecord : Type := Mutation {
  target : element;
  addedNodes : list dom_node
}.

(** The two selectors the callback uses: an id and a class. *)
Inductive selector : Type :=
  | ById (i : string)
  | ByClass (c : string).

Definition matches (sel : selector) (e : element) : bool :=
  match sel with
  | ById i => bool_decide (id e = i)
  | ByClass c => bool_decide (c ∈ classList e)
  end.

(** [e.closest(sel)]: the nearest inclusive ancestor matching [sel]. *)
Fixpoint closest (sel : selector) (e : element) : option element :=
  if matches sel e then Some e
  else match e with
       | Element _ _ _ (Some p) => closest sel p
       | Element _ _ _ None => None
       end.

Definition hasAttribute (e : element) (name : string) : bool :=
  bool_decide (name ∈ attributeNames e).

Definition truthy {A} (o : option A) : bool :=
  match o with Some _ => true | None => false end.

(** The test applied to each added node inside the loop. *)
Definition added_by_us (n : dom_node) : bool :=
  match n with
  | ElementNode e =>
    bool_decide (nodeType n = ELEMENT_NODE) &&
    (bool_decide (id e = "yt-detox-saved-tabs")
     || bool_decide ("yt-detox-overlay" ∈ classList e)
     || hasAttribute e "data-yt-detox")
  | _ => false
  end.

(** The predicate handed to [mutations.filter]. *)
Definition relevant (mutation : MutationRecord) : bool :=
  if truthy (closest (ById "yt-detox-saved-tabs") (target mutation))
     || truthy (closest (ByClass "yt-detox-overlay") (target mutation))
     || hasAttribute (target mutation) "data-yt-detox"
  then false
  else if existsb added_by_us (addedNodes mutation) then false
  else true.

Definition relevantMutations (mutations : list MutationRecord) : list MutationRecord :=
  List.filter relevant mutations.

(** [this.debouncedProcess = debounce(() => this.processPage(),
    CONFIG.DEBOUNCE_DELAY)]: one call of the debounced function. *)
Definition debouncedProcess {D} (d : Debounce.state D) : Debounce.state D :=
  Debounce.debounced CONFIG.DEBOUNCE_DELAY d.

(** The callback; [d] is the state of [this.debouncedProcess], whose [func]
    is a call of [processPage]. *)
Definition callback {D} (extensionEnabled : bool)
    (mutations : list MutationRecord) (d : Debounce.state D) : Debounce.state D :=
  if negb extensionEnabled then d
  else if bool_decide (0 < List.length (relevantMutations mutations))
       then debouncedProcess d
       else d.

(** Inclusive ancestors of an element, nearest first. *)
Fixpoint ancestors (e : element) : list element :=
  e :: match e with
       | Element _ _ _ (Some p) => ancestors p
       | Element _ _ _ None => []
       end.

(** An element created by the pipeline: the saved-tabs container, an overlay,
    or anything carrying the [data-yt-detox] attribute. *)
Definition marked (e : element) : Prop :=
  id e = "yt-detox-saved-tabs" ∨ "yt-detox-overlay" ∈ classList e
  ∨ "data-yt-detox" ∈ attributeNames e.

(** The target lies inside one of the pipeline's containers, or carries the
    marking attribute itself. *)
Definition own_target (e : element) : Prop :=
  (∃ a, a ∈ ancestors e ∧
        (id a = "yt-detox-saved-tabs" ∨ "yt-detox-overlay" ∈ classList a))
  ∨ "data-yt-detox" ∈ attributeNames e.

End MutationObserver.

(** ** The running script as a transition system

    Between two events the script is idle; an event runs one of its entry
    points to completion. *)

Module System.
Import YouTubeDetoxController.

(** What the page's own scripts may do to the document: anything, except
    creating or altering a node that carries the toggle handler (they hold
    no reference to the handler and do not touch the overlays). *)
Definition page_change (b b' : browser) : Prop :=
  ∀ n nd, nodes b' !! n = Some nd → is_Some (toggles nd) → nodes b !! n = Some nd.

Inductive step : state -> state -> Prop :=
  | step_processPage s :
      step s (exec processPage s)
  | step_handleNavigation s :
      step s (exec handleNavigation s)
  | step_click s overlay nd e :
      (* a click on the toggle button of an overlay that is in the page *)
      nodes s.2 !! overlay = Some nd ->
      toggles nd = Some e ->
      is_Some (parentNode nd) ->
      step s (exec (on_shortsBlocker (ShortsBlocker.toggleShortVisibility e overlay)) s)
  | step_page s b' :
      page_change s.2 b' ->
      step s (s.1, b')
  | step_rendered s c :
      (* the promise of an earlier [refresh] settles and [renderTabs] stores
         the container it inserted *)
      step s (set_savedTabsUI (SavedTabsUI.Make c) s.1, s.2).

(** The script starts with both sets empty in a page without overlays. *)
Definition initial (s : state) : Prop :=
  shortsBlocker s.1 = ShortsBlocker.constructor ∧
  ∀ n nd, nodes s.2 !! n = Some nd → toggles nd = None.

Definition reachable (s : state) : Prop := ∃ s0, initial s0 ∧ rtc step s0 s.

End System.

(** ** Predicates used in the statements *)

(** [m] keeps [I], whether it returns or throws. *)
Definition preserves {S A} (I : S -> Prop) (m : js S A) : Prop :=
  ∀ s, I s → I (exec m s).

(** Running a list of statements one after the other. *)
Definition sequence {S} (ms : list (js S unit)) : js S unit :=
  for_of ms (fun m => m).

Module Pass.
Import YouTubeDetoxController.

Definition stages : list (js state unit) :=
  [stage_scroll; stage_buttons; stage_shorts; stage_savedTabs].

(** The state in which the stages start, and what the handler and the
    [finally] block leave when the exception [e] reaches them in [s]. *)
Definition entered (s : state) : state := (set_isProcessing true s.1, s.2).

Definition aborted (e : exn) (s : state) : state :=
  (set_isProcessing false s.1,
   set_console (fun c => c ++ [Log ERROR "[YT Detox] Page processing error:" (Err e)]) s.2).

End Pass.

Module Invariant.

(** Every overlay that is in the page toggles an element of [h]. *)
Definition overlays_tracked (h : gset nat) (m : gmap nat node) : Prop :=
  ∀ n nd e, m !! n = Some nd → toggles nd = Some e → is_Some (parentNode nd) → e ∈ h.

Definition tracked_in (h : gset nat) (b : browser) : Prop :=
  overlays_tracked h (nodes b).

(** Node updates that leave the handler alone and do not attach a node. *)
Definition harmless (f : node -> node) : Prop :=
  ∀ x, toggles (f x) = toggles x ∧
       (is_Some (parentNode (f x)) -> is_Some (parentNode x)).

Definition blocker (s : ShortsBlocker.t * browser) : Prop :=
  ShortsBlocker.sessionVisible s.1 ⊆ ShortsBlocker.hiddenShorts s.1 ∧
  overlays_tracked (ShortsBlocker.hiddenShorts s.1) (nodes s.2).

Definition controller (s : YouTubeDetoxController.state) : Prop :=
  blocker (YouTubeDetoxController.shortsBlocker s.1, s.2).

(** At most one timer is armed, and it is the one [timeoutId] names. *)
Definition single_timer {D} (st : Debounce.state D) : Prop :=
  Timers.pending (Debounce.timers st) = [] ∨
  ∃ id dl, Timers.pending (Debounce.timers st) = [Timers.Timer id dl tt] ∧
           Debounce.timeoutId st = Some id.

End Invariant.

(** The overlay as [createOverlay] leaves it: detached, marked, and wired to
    the element it belongs to. *)
Definition fresh_overlay (shortsElement : nat) : node :=
  Node "yt-detox-overlay" [("data-yt-detox", "shorts-overlay")] None [] ""
       (Some shortsElement).

(** [Set] semantics stated by recursion on the input: keep an entry unless
    it was seen before. *)
Fixpoint first_seen (seen l : list nat) : list nat :=
  match l with
  | [] => []
  | x :: l' => if decide (x ∈ seen) then first_seen seen l'
               else x :: first_seen (seen ++ [x]) l'
  end.

(** The matches of a selector, none when it does not parse. *)
Definition matches_of (b : browser) (selector : string) : list nat :=
  default [] (query b selector).

(** ** Example pages *)

Module Examples.

(** A feed: a container 0 with two shorts 1 and 2 as children, and an
    element 5 that is not attached to anything. *)
Definition feed_nodes : gmap nat node :=
  {[ 0 := Node "" [] None [1; 2] "" None;
     1 := Node "" [] (Some 0) [] "" None;
     2 := Node "" [] (Some 0) [] "" None;
     5 := Node "" [] None [] "" None ]}.

Definition feed_query (selector : string) : option (list nat) :=
  if decide (selector = "ytd-shorts") then Some [1; 2]
  else if decide (selector = "[is-shorts]") then Some [2]
  else Some [].

Definition feed : browser :=
  Browser "https://www.youtube.com/" feed_nodes (Some "scroll") feed_query
          [] [] [] Timers.empty.

(** The same feed in a browser whose selector engine does not know the
    [:has()] pseudo-class. *)
Definition legacy_query (selector : string) : option (list nat) :=
  if decide (selector = "ytd-rich-item-renderer:has([aria-label*=Shorts])")
  then None else feed_query selector.

Definition legacy_feed : browser :=
  Browser "https://www.youtube.com/" feed_nodes (Some "scroll") legacy_query
          [] [] [] Timers.empty.

(** A shorts page whose document has no body yet, with one navigation
    button 7. *)
Definition player_nodes : gmap nat node :=
  {[ 6 := Node "" [] None [7] "" None;
     7 := Node "navigation-button" [] (Some 6) [] "" None ]}.

Definition player_query (selector : string) : option (list nat) :=
  if decide (selector = ".navigation-button") then Some [7] else Some [].

Definition bodyless_player : browser :=
  Browser "https://www.youtube.com/shorts/abcdefghijk" player_nodes None
          player_query [] [] [] Timers.empty.

Definition start (b : browser) : YouTubeDetoxController.state :=
  (YouTubeDetoxController.constructor b, b).

(** The feed after the first pass, and after the user has then clicked the
    toggle of the overlay of short 1, which is node 7. *)
Definition suppressed : YouTubeDetoxController.state :=
  exec YouTubeDetoxController.processPage (start feed).

Definition revealed : YouTubeDetoxController.state :=
  exec (YouTubeDetoxController.on_shortsBlocker
          (ShortsBlocker.toggleShortVisibility 1 7)) suppressed.

(** The page then navigates to a watch page that keeps the same nodes. *)
Definition moved : YouTubeDetoxController.state :=
  (revealed.1,
   Browser "https://www.youtube.com/watch?v=abcdefghijk" (nodes revealed.2)
           (body revealed.2) (query revealed.2) (listeners revealed.2)
           (console revealed.2) (sent revealed.2) (clock revealed.2)).

Definition navigated : YouTubeDetoxController.state :=
  exec YouTubeDetoxController.handleNavigation moved.

Import MutationObserver.

(** Mutation records: a write inside an overlay, and the insertion of an
    overlay next to a short. *)
Definition shelf : element := Element "contents" ["shelf"] [] None.

Definition overlay : element :=
  Element "" ["yt-detox-overlay"] ["class"; "data-yt-detox"] (Some shelf).

Definition overlay_button : element :=
  Element "" ["yt-detox-toggle-btn"] ["class"; "type"] (Some overlay).

Definition inside_overlay : MutationRecord :=
  Mutation overlay_button [TextNode; ElementNode overlay].

Definition overlay_inserted : MutationRecord :=
  Mutation shelf [ElementNode overlay].

Definition page_render : MutationRecord :=
  Mutation shelf [ElementNode (Element "" ["ytd-video"] [] (Some shelf))].

End Examples.


(** ** The observer over time

    The callback of the observer and the timer of [this.debouncedProcess],
    one event after the other.  The function handed to [debounce] is
    [() => this.processPage()]; what it acts on is the controller with the
    browser. *)

Module Observation.
Import MutationObserver.

Definition script : Type := Debounce.state YouTubeDetoxController.state.

Inductive event : Type :=
  | Deliver (mutations : list MutationRecord)  (* a batch reaches the callback *)
  | Tick.                                      (* one millisecond passes *)

(** One run of the function handed to [debounce]. *)
Definition pass (s : YouTubeDetoxController.state) : YouTubeDetoxController.state :=
  exec YouTubeDetoxController.processPage s.

Definition step (st : script) (e : event) : script :=
  match e with
  | Deliver mutations =>
    callback (YouTubeDetoxController.extensionEnabled (Debounce.app st).1)
             mutations st
  | Tick => Debounce.tick pass st
  end.

Definition run (es : list event) (st : script) : script := foldl step st es.

(** Every state the script goes through, the first one included. *)
Fixpoint trace (es : list event) (st : script) : list script :=
  st :: match es with
        | [] => []
        | e :: es' => trace es' (step st e)
        end.

(** A batch qualifies when one of its mutations survives the filter. *)
Definition qualifying (mutations : list MutationRecord) : Prop :=
  ∃ mu, mu ∈ mutations ∧ relevant mu = true.

(** Batches arriving one after the other: a first batch, then each further
    batch some milliseconds after the batch before it. *)
Definition arrivals (first : list MutationRecord)
    (later : list (nat * list MutationRecord)) : list event :=
  Deliver first
  :: flat_map (fun gb => replicate gb.1 Tick ++ [Deliver gb.2]) later.

(** The calls of the debounced function that a run makes when every batch
    passes the filter. *)
Definition calls_of (es : list event) : list Debounce.event :=
  map (fun e => match e with
                | Deliver _ => Debounce.Call
                | Tick => Debounce.Tick
                end) es.

End Observation.

(** ** Further models *)

(** The four registrations made by [ScrollPreventer.enable], in the order of
    the source. *)
Definition scroll_listeners : list listener :=
  [ Listener Document "wheel" boundPreventWheel true;
    Listener Document "keydown" boundPreventKeys true;
    Listener Window "wheel" boundPreventWheel false;
    Listener Window "keydown" boundPreventKeys false ].

(** How often the debounced function is called in a run. *)
Fixpoint count_calls (es : list Debounce.event) : nat :=
  match es with
  | [] => 0
  | Debounce.Call :: es' => S (count_calls es')
  | Debounce.Tick :: es' => count_calls es'
  end.

(** A feed page that also shows the saved-tabs container 11, inserted before
    the grid 12 under the node 10. *)
Module MoreExamples.

Definition home_nodes : gmap nat node :=
  {[ 10 := Node "" [] None [11; 12] "" None;
     11 := Node "" [("id", "yt-detox-saved-tabs")] (Some 10) [] "" None;
     12 := Node "" [] (Some 10) [] "" None ]}.

Definition home : browser :=
  Browser "https://www.youtube.com/" home_nodes (Some "") Examples.feed_query
          [] [] [] Timers.empty.

(** The feed of [Examples.feed] shown under the URL of a shorts page: the
    selectors still match the elements 1 and 2. *)
Definition shorts_feed : browser :=
  Browser "https://www.youtube.com/shorts/abcdefghijk" Examples.feed_nodes
          (Some "scroll") Examples.feed_query [] [] [] Timers.empty.

(** The same feed under a home URL whose query holds the text /shorts/. *)
Definition shorts_home : browser :=
  Browser "https://www.youtube.com/?a=/shorts/" Examples.feed_nodes
          (Some "scroll") Examples.feed_query [] [] [] Timers.empty.

End MoreExamples.

(** What a stage leaves alone: the URL and the requests posted so far, and,
    for the controller, the shorts blocker. *)
Definition same_page (u : string) (v : list string) (b : browser) : Prop :=
  href b = u ∧ sent b = v.

Definition at_page (u : string) (v : list string) (k : ShortsBlocker.t)
    (s : YouTubeDetoxController.state) : Prop :=
  same_page u v s.2 ∧ YouTubeDetoxController.shortsBlocker s.1 = k.

(** ** The background script: StorageManager

    The static methods of [StorageManager] in [chrome/background.js], which
    answer the messages of the content script.  Every method is async; it is
    modelled as running to its end without another handler in between.
    [chrome.storage.local] either serves every call or rejects every call
    with an error message. *)

Module Background.

Module STORAGE_KEYS.
Definition SAVED_TABS : string := "savedTabs".
Definition EXTENSION_ENABLED : string := "extensionEnabled".
End STORAGE_KEYS.

Module CONFIG.
Definition MAX_SAVED_TABS : nat := 100.
End CONFIG.

(** The metadata of a saved tab.  [savedAt] is the time value, in
    milliseconds, of the ISO string that [extractTabMetadata] writes; the
    comparator of [saveTabs] only uses it through [new Date(...)]. *)
Record SavedTab : Type := Tab {
  tab_id : string;
  url : string;
  title : string;
  channelName : string;
  savedAt : Z
}.

#[global] Instance SavedTab_eq_dec : EqDecision SavedTab.
Proof. solve_decision. Defined.

(** The extension's storage area and the console of the service worker.  A
    key that was never written is [None] (JavaScript [undefined]). *)
Record world : Type := World {
  savedTabs : option (list SavedTab);
  extensionEnabled : option bool;
  storage_error : option string;     (* Some m: every storage call rejects
                                        with an Error whose message is m *)
  log : list (string * string)       (* console.error(label, error.message) *)
}.

Definition set_savedTabs (v : list SavedTab) (w : world) : world :=
  World (Some v) (extensionEnabled w) (storage_error w) (log w).

Definition set_extensionEnabled (v : bool) (w : world) : world :=
  World (savedTabs w) (Some v) (storage_error w) (log w).

Definition console_error (label message : string) (w : world) : world :=
  World (savedTabs w) (extensionEnabled w) (storage_error w)
        (log w ++ [(label, message)]).

(** A promise that has settled, and the world it settled in. *)
Inductive settled (A : Type) : Type :=
  | Resolved (a : A)
  | Rejected (message : string).
Arguments Resolved {A} a.
Arguments Rejected {A} message.

Definition async (A : Type) : Type := world -> settled A * world.

Definition resolve {A} (a : A) : async A := fun w => (Resolved a, w).

(** [await m] followed by the rest of the function. *)
Definition await {A B} (m : async A) (k : A -> async B) : async B :=
  fun w => match m w with
           | (Resolved a, w') => k a w'
           | (Rejected e, w') => (Rejected e, w')
           end.

(** [try { body } catch (error) { handler }] in an async function. *)
Definition try_catch {A} (body : async A) (handler : string -> async A) : async A :=
  fun w => match body w with
           | (Resolved a, w') => (Resolved a, w')
           | (Rejected e, w') => handler e w'
           end.

Definition log_error {A} (label message : string) (a : A) : async A :=
  fun w => (Resolved a, console_error label message w).

(** [chrome.storage.local.get(key)] for the two keys, and [set]. *)
Definition storage_get_savedTabs : async (option (list SavedTab)) :=
  fun w => match storage_error w with
           | Some e => (Rejected e, w)
           | None => (Resolved (savedTabs w), w)
           end.

Definition storage_get_extensionEnabled : async (option bool) :=
  fun w => match storage_error w with
           | Some e => (Rejected e, w)
           | None => (Resolved (extensionEnabled w), w)
           end.

Definition storage_set_savedTabs (v : list SavedTab) : async unit :=
  fun w => match storage_error w with
           | Some e => (Rejected e, w)
           | None => (Resolved tt, set_savedTabs v w)
           end.

Definition storage_set_extensionEnabled (v : bool) : async unit :=
  fun w => match storage_error w with
           | Some e => (Rejected e, w)
           | None => (Resolved tt, set_extensionEnabled v w)
           end.

(** [allTabs.sort((a, b) => new Date(b.savedAt) - new Date(a.savedAt))]:
    most recent first; the sort of an array is stable, so tabs saved at the
    same instant keep their order. *)
Fixpoint insert_by_date (x : SavedTab) (l : list SavedTab) : list SavedTab :=
  match l with
  | [] => [x]
  | y :: l' => if decide (savedAt x < savedAt y)%Z then y :: insert_by_date x l'
               else x :: y :: l'
  end.

Definition sort_recent_first (l : list SavedTab) : list SavedTab :=
  foldr insert_by_date [] l.

(** The results the methods hand back. *)
Inductive save_result : Type :=
  | Saved (count : nat)             (* { success: true, count } *)
  | SaveFailed (error : string).    (* { success: false, error } *)

Inductive delete_result : Type :=
  | Deleted (deleted : bool)        (* { success: true, deleted } *)
  | DeleteFailed (error : string).

Inductive clear_result : Type :=
  | Cleared                         (* { success: true } *)
  | ClearFailed (error : string).

Inductive toggle_result : Type :=
  | Toggled (enabled : bool)        (* { success: true, enabled } *)
  | ToggleFailed (error : string).

Module StorageManager.

Definition getSavedTabs : async (list SavedTab) :=
  try_catch
    (await storage_get_savedTabs (fun result => resolve (default [] result)))
    (fun error => log_error "[YT Detox] Failed to get saved tabs:" error []).

(** The loop that pushes the new tabs whose URL is not among the existing
    ones. *)
Fixpoint push_new (existingUrls : list string) (allTabs newTabs : list SavedTab)
    : list SavedTab :=
  match newTabs with
  | [] => allTabs
  | newTab :: rest =>
    if decide (url newTab ∈ existingUrls)
    then push_new existingUrls allTabs rest
    else push_new existingUrls (allTabs ++ [newTab]) rest
  end.

Definition saveTabs (newTabs : list SavedTab) : async save_result :=
  try_catch
    (await getSavedTabs (fun existingTabs =>
       let existingUrls := map url existingTabs in
       let allTabs := push_new existingUrls existingTabs newTabs in
       let limitedTabs := take CONFIG.MAX_SAVED_TABS (sort_recent_first allTabs) in
       await (storage_set_savedTabs limitedTabs) (fun _ =>
         resolve (Saved (List.length limitedTabs)))))
    (fun error =>
       log_error "[YT Detox] Failed to save tabs:" error (SaveFailed error)).

Definition deleteTab (tabId : string) : async delete_result :=
  try_catch
    (await getSavedTabs (fun savedTabs =>
       let filteredTabs := filter (fun tab => tab_id tab ≠ tabId) savedTabs in
       await (storage_set_savedTabs filteredTabs) (fun _ =>
         resolve (Deleted
           (bool_decide (0 < List.length savedTabs - List.length filteredTabs))))))
    (fun error =>
       log_error "[YT Detox] Failed to delete tab:" error (DeleteFailed error)).

Definition clearAllTabs : async clear_result :=
  try_catch
    (await (storage_set_savedTabs []) (fun _ => resolve Cleared))
    (fun error =>
       log_error "[YT Detox] Failed to clear tabs:" error (ClearFailed error)).

(** [result[EXTENSION_ENABLED] !== false]: everything but a stored false
    counts as enabled. *)
Definition getExtensionState : async bool :=
  try_catch
    (await storage_get_extensionEnabled (fun result =>
       resolve (negb (bool_decide (result = Some false)))))
    (fun error => log_error "[YT Detox] Failed to get extension state:" error true).

Definition toggleExtension : async toggle_result :=
  try_catch
    (await getExtensionState (fun currentState =>
       let newState := negb currentState in
       await (storage_set_extensionEnabled newState) (fun _ =>
         resolve (Toggled newState))))
    (fun error =>
       log_error "[YT Detox] Failed to toggle extension:" error (ToggleFailed error)).

End StorageManager.

(** Most recent first. *)
Definition recent_first (l : list SavedTab) : Prop :=
  ∀ i j a b, l !! i = Some a -> l !! j = Some b -> i ≤ j -> (savedAt b ≤ savedAt a)%Z.

Definition newer_or_same (a b : SavedTab) : Prop := (savedAt b ≤ savedAt a)%Z.

Fixpoint ordered (l : list SavedTab) : Prop :=
  match l with
  | [] => True
  | x :: l' => Forall (newer_or_same x) l' ∧ ordered l'
  end.

(** The earlier tabs followed by the new tabs that [saveTabs] admits. *)
Definition merged (w : world) (newTabs : list SavedTab) : list SavedTab :=
  let existing := default [] (savedTabs w) in
  existing ++ filter (fun t => url t ∉ map url existing) newTabs.

Definition sample_tabs : list SavedTab :=
  [ Tab "1_a" "https://www.youtube.com/watch?v=aaaaaaaaaaa" "A" "Unknown Channel" 1000;
    Tab "2_b" "https://www.youtube.com/watch?v=bbbbbbbbbbb" "B" "Unknown Channel" 3000;
    Tab "3_c" "https://www.youtube.com/watch?v=aaaaaaaaaaa" "A" "Unknown Channel" 5000 ].

Definition empty_world : world := World None None None [].

(** A tab saved at the instant [i], and a storage area that is full. *)
Definition stamped (i : nat) : SavedTab :=
  Tab (String (Ascii.ascii_of_nat i) "") (String (Ascii.ascii_of_nat i) "")
      "YouTube Video" "Unknown Channel" (Z.of_nat i).

Definition full_world : world :=
  World (Some (map stamped (seq 1 100))) (Some false) None [].

Definition broken_world : world :=
  World (Some sample_tabs) (Some false) (Some "QUOTA_BYTES quota exceeded") [].

End Background.
(** * Properties *)

(** ** The monad *)

Section Monad.
Context {S : Type}.

Lemma bind_normal {A B} (m : js S A) (k : A -> js S B) s a s' :
  m s = (Normal a, s') -> (m ≫= k) s = k a s'.
Proof. intros H. unfold mbind, js_bind, bind. by rewrite H. Qed.

Lemma bind_throw {A B} (m : js S A) (k : A -> js S B) s e s' :
  m s = (Throw e, s') -> (m ≫= k) s = (Throw e, s').
Proof. intros H. unfold mbind, js_bind, bind. by rewrite H. Qed.

Lemma exec_bind {A B} (m : js S A) (k : A -> js S B) s :
  exec (m ≫= k) s =
  match m s with
  | (Normal a, s') => exec (k a) s'
  | (Throw _, s') => s'
  end.
Proof.
  unfold exec, mbind, js_bind, bind. by destruct (m s) as [[a|e] s'].
Qed.

Lemma preserves_ret {A} (I : S -> Prop) (a : A) : preserves I (mret a : js S A).
Proof. by intros s. Qed.

Lemma preserves_gets {A} (I : S -> Prop) (f : S -> A) : preserves I (gets f).
Proof. by intros s. Qed.

Lemma preserves_bind {A B} (I : S -> Prop) (m : js S A) (k : A -> js S B) :
  preserves I m -> (∀ a, preserves I (k a)) -> preserves I (m ≫= k).
Proof.
  intros Hm Hk s Hs. rewrite exec_bind.
  specialize (Hm s Hs). unfold exec in Hm.
  destruct (m s) as [[a|e] s']; simpl in *; [by apply Hk | done].
Qed.

Lemma preserves_try_catch {A} (I : S -> Prop) (m : js S A) (h : exn -> js S A) :
  preserves I m -> (∀ e, preserves I (h e)) -> preserves I (try_catch m h).
Proof.
  intros Hm Hh s Hs. specialize (Hm s Hs). unfold exec, try_catch in *.
  destruct (m s) as [[a|e] s']; simpl in *; [done | by apply Hh].
Qed.

Lemma preserves_try_finally {A} (I : S -> Prop) (m : js S A) (f : js S unit) :
  preserves I m -> preserves I f -> preserves I (try_finally m f).
Proof.
  intros Hm Hf s Hs. specialize (Hm s Hs). unfold exec, try_finally in *.
  destruct (m s) as [c s']; simpl in *.
  specialize (Hf s' Hm). unfold exec in Hf.
  destruct (f s') as [[u|e] s'']; simpl in *; done.
Qed.

Lemma preserves_for_of {A} (I : S -> Prop) (l : list A) (body : A -> js S unit) :
  (∀ x, preserves I (body x)) -> preserves I (for_of l body).
Proof.
  intros Hb. induction l as [|x l IH]; simpl.
  - apply (preserves_ret I tt).
  - apply (preserves_bind I (body x) (fun _ => for_of l body)); auto.
Qed.

Lemma preserves_if {A} (I : S -> Prop) (c : bool) (m1 m2 : js S A) :
  preserves I m1 -> preserves I m2 -> preserves I (if c then m1 else m2).
Proof. by destruct c. Qed.

End Monad.

Lemma preserves_zoom {S T A} (I : S -> Prop) (J : T -> Prop)
    (get : S -> T) (set : T -> S -> S) (m : js T A) :
  (∀ s, I s -> J (get s)) ->
  (∀ s t, I s -> J t -> I (set t s)) ->
  preserves J m -> preserves I (zoom get set m).
Proof.
  intros Hget Hset Hm s Hs. unfold exec, zoom.
  specialize (Hm (get s) (Hget s Hs)). unfold exec in Hm.
  destruct (m (get s)) as [c t]; simpl in *. by apply Hset.
Qed.

(** ** Strings *)

Lemma prefix_app (p s : string) : String.prefix p (p +:+ s) = true.
Proof.
  induction p as [|c p IH]; simpl; [by destruct s |].
  destruct (Ascii.ascii_dec c c); [done | congruence].
Qed.

Lemma includes_prefix (p s : string) : String.prefix p s = true -> includes p s = true.
Proof. intros H. destruct s; cbn [includes]; by rewrite H. Qed.

Lemma includes_app (p pre post : string) : includes p (pre +:+ p +:+ post) = true.
Proof.
  induction pre as [|c pre IH].
  - change ("" +:+ p +:+ post) with (p +:+ post). apply includes_prefix, prefix_app.
  - change (String c pre +:+ p +:+ post) with (String c (pre +:+ p +:+ post)). cbn [includes].
    rewrite IH. apply orb_true_r.
Qed.

Lemma prefix_inv (p u : string) :
  String.prefix p u = true -> ∃ post, u = p +:+ post.
Proof.
  revert u. induction p as [|a p IH]; intros u H.
  - by exists u.
  - destruct u as [|b u]; [done |]. simpl in H.
    destruct (Ascii.ascii_dec a b) as [->|]; [|done].
    destruct (IH u H) as [post ->]. by exists post.
Qed.

Lemma includes_inv (p s : string) :
  includes p s = true -> ∃ pre post, s = pre +:+ p +:+ post.
Proof.
  induction s as [|c s IH]; cbn [includes].
  - rewrite orb_false_r. intros [post ->]%prefix_inv. by exists "", post.
  - intros [H|H]%orb_true_iff.
    + destruct (prefix_inv _ _ H) as [post ->]. by exists "", post.
    + destruct (IH H) as (pre & post & ->). by exists (String c pre), post.
Qed.

(** ** Suppressing one element *)

Lemma fresh_node_unused (m : gmap nat node) : m !! fresh (dom m) = None.
Proof. apply not_elem_of_dom, is_fresh. Qed.

Lemma createOverlay_spec (e : nat) (b : browser) :
  ShortsBlocker.createOverlay e b =
  (Normal (fresh (dom (nodes b))),
   set_nodes (insert (fresh (dom (nodes b))) (fresh_overlay e)) b).
Proof.
  unfold ShortsBlocker.createOverlay, createElement, update_node, modify,
    mbind, js_bind, bind, mret, js_ret, ret, set_nodes. simpl.
  do 2 f_equal. by rewrite !alter_insert_eq.
Qed.

Section HideShort.
Import ShortsBlocker.
Implicit Types (s : ShortsBlocker.t * browser) (e : nat).

Lemma hideShort_unseen e s :
  e ∉ hiddenShorts s.1 -> e ∉ sessionVisible s.1 ->
  hideShort e s =
  let ov := fresh (dom (nodes s.2)) in
  let b := set_nodes (insert ov (fresh_overlay e)) s.2 in
  match parentNode_of s.2 e with
  | Some p =>
    (Normal tt,
     (set_hiddenShorts (fun h => {[e]} ∪ h) s.1,
      set_nodes (fun m =>
        alter (set_display "none") e
          (alter (set_parentNode (Some p)) ov
             (alter (set_childNodes (insert_before ov (nextSibling_of b e))) p m))) b))
  | None => (Normal tt, (s.1, b))
  end.
Proof.
  intros Hh Hv. destruct s as [o b]. simpl in *.
  cbv beta iota zeta delta [hideShort mbind js_bind bind gets mret js_ret ret
    try_catch page self zoom fst snd].
  rewrite (bool_decide_eq_false_2 _ Hh), (bool_decide_eq_false_2 _ Hv).
  rewrite createOverlay_spec.
  cbv beta iota zeta delta [fst snd].
  assert (Hp : parentNode_of (set_nodes (insert (fresh (dom (nodes b))) (fresh_overlay e)) b) e
               = parentNode_of b e).
  { unfold parentNode_of. simpl.
    destruct (decide (fresh (dom (nodes b)) = e)) as [<-|Hne].
    - by rewrite lookup_insert_eq, fresh_node_unused.
    - by rewrite lookup_insert_ne. }
  rewrite Hp. destruct (parentNode_of b e) as [p|]; [|done].
  reflexivity.
Qed.

End HideShort.

Section Guards.
Import ShortsBlocker.
Implicit Types (s : ShortsBlocker.t * browser) (e : nat).

(** The two guards at the head of [hideShort]. *)
Lemma hideShort_guard e s :
  e ∈ hiddenShorts s.1 ∨ e ∈ sessionVisible s.1 ->
  hideShort e s = (Normal tt, s).
Proof.
  intros H.
  cbv beta iota zeta delta [hideShort mbind js_bind bind gets mret js_ret ret].
  destruct (decide (e ∈ hiddenShorts s.1)) as [Hh|Hh].
  - by rewrite (bool_decide_eq_true_2 _ Hh).
  - rewrite (bool_decide_eq_false_2 _ Hh).
    destruct H as [H|H]; [done |].
    by rewrite (bool_decide_eq_true_2 _ H).
Qed.

(** C7. [hideShort] on an element that is already in [hiddenShorts] or in
    [sessionVisible] returns at once: it completes normally and leaves the
    whole state as it was (no node is created or changed, so no second
    overlay, and both sets are the same). *)
Theorem hideShort_tracked_noop e s :
  e ∈ hiddenShorts s.1 ∨ e ∈ sessionVisible s.1 ->
  hideShort e s = (Normal tt, s)
  ∧ nodes (exec (hideShort e) s).2 = nodes s.2
  ∧ hiddenShorts (exec (hideShort e) s).1 = hiddenShorts s.1
  ∧ sessionVisible (exec (hideShort e) s).1 = sessionVisible s.1.
Proof.
  intros H. unfold exec. by rewrite (hideShort_guard e s H).
Qed.

(** C9, as the code has it.  When the element has no parent node, [hideShort]
    completes normally; the only change is the creation of a detached
    overlay under a fresh identity.  Both sets, every node that existed
    (hence the display style of the element and all child lists) and the
    console are unchanged: nothing is logged.  The loop of [processShorts]
    goes on with the remaining elements. *)
Theorem hideShort_missing_parent e s (rest : list nat) :
  e ∉ hiddenShorts s.1 -> e ∉ sessionVisible s.1 ->
  parentNode_of s.2 e = None ->
  let ov := fresh (dom (nodes s.2)) in
  hideShort e s = (Normal tt, (s.1, set_nodes (insert ov (fresh_overlay e)) s.2))
  ∧ nodes s.2 !! ov = None
  ∧ (∀ n, n ≠ ov -> nodes (exec (hideShort e) s).2 !! n = nodes s.2 !! n)
  ∧ console (exec (hideShort e) s).2 = console s.2
  ∧ for_of (e :: rest) hideShort s = for_of rest hideShort (exec (hideShort e) s).
Proof.
  intros Hh Hv Hp ov.
  pose proof (hideShort_unseen e s Hh Hv) as E. rewrite Hp in E. simpl in E.
  fold ov in E. split_and!.
  - exact E.
  - apply fresh_node_unused.
  - intros n Hn. unfold exec. rewrite E. simpl. by rewrite lookup_insert_ne.
  - unfold exec. by rewrite E.
  - cbn [for_of]. unfold exec, bind. by rewrite E.
Qed.

Lemma hideShort_missing_parent_witness :
  hideShort 5 (ShortsBlocker.constructor, Examples.feed) =
  (Normal tt,
   (ShortsBlocker.constructor,
    set_nodes (insert (fresh (dom (nodes Examples.feed))) (fresh_overlay 5))
              Examples.feed)).
Proof.
  refine (proj1 (hideShort_missing_parent 5 (ShortsBlocker.constructor, Examples.feed)
                   [] _ _ _)).
  - vm_compute. discriminate.
  - vm_compute. discriminate.
  - vm_compute. reflexivity.
Defined.

Lemma hideShort_tracked_noop_witness :
  hideShort 1 (YouTubeDetoxController.shortsBlocker Examples.suppressed.1,
               Examples.suppressed.2)
  = (Normal tt, (YouTubeDetoxController.shortsBlocker Examples.suppressed.1,
                 Examples.suppressed.2)).
Proof.
  refine (proj1 (hideShort_tracked_noop 1 _ _)). left. vm_compute. reflexivity.
Defined.

(** C9 as written has the missing parent logged.  It is not: the guard skips
    the element silently.  Element 5 of the feed has no parent; after
    [hideShort] it is not marked and the console is still empty. *)
Lemma hideShort_missing_parent_not_logged :
  let s := (ShortsBlocker.constructor, Examples.feed) in
  (parentNode_of s.2 5 = None
   ∧ (5 ∉ hiddenShorts (exec (hideShort 5) s).1)
   ∧ console (exec (hideShort 5) s).2 = []).
Proof. vm_compute. split_and!; [reflexivity | discriminate | reflexivity]. Qed.

(** On a URL that contains /shorts/ [processShorts] returns before it
    looks for anything: it completes normally and the state (nodes, both
    sets, console) is unchanged.  The same holds for the stage of
    [processPage] that calls it. *)
Lemma processShorts_returns_on_shorts_page s (pre post : string) :
  href s.2 = pre +:+ "/shorts/" +:+ post ->
  processShorts s = (Normal tt, s)
  ∧ (∀ c : YouTubeDetoxController.t,
       YouTubeDetoxController.shortsBlocker c = s.1 ->
       YouTubeDetoxController.stage_shorts (c, s.2) = (Normal tt, (c, s.2))).
Proof.
  destruct s as [o b]. cbn [fst snd]. intros Hurl.
  assert (E : processShorts (o, b) = (Normal tt, (o, b))).
  { cbv beta iota zeta delta [processShorts mbind js_bind bind gets mret js_ret
      ret page zoom isShortsPage fst snd SHORTS_PAGE_test].
    by rewrite Hurl, includes_app. }
  split; [exact E |].
  intros c Hc. unfold YouTubeDetoxController.stage_shorts,
    YouTubeDetoxController.on_shortsBlocker, zoom. cbn [fst snd].
  rewrite Hc, E. cbn [fst snd]. subst o. by destruct c.
Qed.

End Guards.

(** ** ScrollPreventer *)

Section Scroll.
Import ScrollPreventer.
Implicit Types (s : ScrollPreventer.t * browser).

Lemma enable_active s : isActive s.1 = true -> enable s = (Normal tt, s).
Proof.
  intros H.
  cbv beta iota zeta delta [enable mbind js_bind bind gets mret js_ret ret].
  by rewrite H.
Qed.

Lemma disable_inactive s : isActive s.1 = false -> disable s = (Normal tt, s).
Proof.
  intros H.
  cbv beta iota zeta delta [disable mbind js_bind bind gets mret js_ret ret].
  by rewrite H.
Qed.

(** What [enable] does to an inactive preventer in a document with a body. *)
Lemma enable_inactive s (v : string) :
  isActive s.1 = false -> body s.2 = Some v ->
  ∃ ls, enable s =
        (Normal tt,
         (Make true v,
          Browser (href s.2) (nodes s.2) (Some "hidden") (query s.2) ls
                  (console s.2) (sent s.2) (clock s.2))).
Proof.
  destruct s as [[a o] [h n bd q ls c m k]].
  cbn [fst snd isActive body]. intros -> ->.
  cbv beta iota zeta delta [enable mbind js_bind bind gets mret js_ret ret page
    self zoom get_body_overflow set_body_overflow addEventListener modify
    set_body set_listeners fst snd isActive originalOverflow
    body href nodes query listeners console sent clock].
  eexists. reflexivity.
Qed.

(** With no body the first statement of [enable] throws and nothing has
    changed. *)
Lemma enable_no_body s :
  isActive s.1 = false -> body s.2 = None ->
  enable s = (Throw (TypeError "document.body is null"), s).
Proof.
  destruct s as [[a o] b]. cbn [fst snd isActive]. intros -> Hb.
  cbv beta iota zeta delta [enable mbind js_bind bind gets mret js_ret ret page
    zoom get_body_overflow fst snd isActive].
  by rewrite Hb.
Qed.

Lemma disable_active s (v : string) :
  isActive s.1 = true -> body s.2 = Some v ->
  ∃ ls, disable s =
        (Normal tt,
         (Make false (originalOverflow s.1),
          Browser (href s.2) (nodes s.2) (Some (originalOverflow s.1)) (query s.2)
                  ls (console s.2) (sent s.2) (clock s.2))).
Proof.
  destruct s as [[a o] [h n bd q ls c m k]].
  cbn [fst snd isActive body]. intros -> ->.
  cbv beta iota zeta delta [disable mbind js_bind bind gets mret js_ret ret page
    self zoom set_body_overflow removeEventListener modify negb
    set_body set_listeners fst snd isActive originalOverflow
    body href nodes query listeners console sent clock].
  eexists. reflexivity.
Qed.

Lemma disable_no_body s :
  isActive s.1 = true -> body s.2 = None ->
  disable s = (Throw (TypeError "document.body is null"), s).
Proof.
  destruct s as [[a o] b]. cbn [fst snd isActive]. intros -> Hb.
  cbv beta iota zeta delta [disable mbind js_bind bind gets mret js_ret ret page
    zoom set_body_overflow fst snd isActive originalOverflow negb].
  by rewrite Hb.
Qed.

Lemma enable_idempotent s : exec enable (exec enable s) = exec enable s.
Proof.
  destruct (isActive s.1) eqn:Ha.
  - unfold exec. rewrite (enable_active s Ha). cbn [snd]. by rewrite (enable_active s Ha).
  - destruct (body s.2) as [v|] eqn:Hb.
    + destruct (enable_inactive s v Ha Hb) as [ls E].
      unfold exec. rewrite E. cbn [snd]. by rewrite enable_active.
    + unfold exec. rewrite (enable_no_body s Ha Hb). cbn [snd]. by rewrite (enable_no_body s Ha Hb).
Qed.

Lemma disable_idempotent s : exec disable (exec disable s) = exec disable s.
Proof.
  destruct (isActive s.1) eqn:Ha.
  - destruct (body s.2) as [v|] eqn:Hb.
    + destruct (disable_active s v Ha Hb) as [ls E].
      unfold exec. rewrite E. cbn [snd]. by rewrite disable_inactive.
    + unfold exec. rewrite (disable_no_body s Ha Hb). cbn [snd]. by rewrite (disable_no_body s Ha Hb).
  - unfold exec. rewrite (disable_inactive s Ha). cbn [snd]. by rewrite (disable_inactive s Ha).
Qed.

(** C5. Starting from an inactive preventer and a body whose overflow style is
    any [v], [enable] followed by [disable] leaves the overflow style [v];
    both calls return normally, and a second [enable] keeps [v] as the
    captured style.  For every state a second consecutive [enable], and a
    second consecutive [disable], changes nothing. *)
Theorem enable_disable_reversible_idempotent :
  (∀ s (v : string),
     isActive s.1 = false -> body s.2 = Some v ->
     (enable s).1 = Normal tt
     ∧ body (exec enable s).2 = Some "hidden"
     ∧ (disable (exec enable s)).1 = Normal tt
     ∧ body (exec disable (exec enable s)).2 = Some v
     ∧ originalOverflow (exec enable (exec enable s)).1 = v)
  ∧ (∀ s, exec enable (exec enable s) = exec enable s)
  ∧ (∀ s, exec disable (exec disable s) = exec disable s).
Proof.
  split; [|split; [apply enable_idempotent | apply disable_idempotent]].
  intros s v Ha Hb.
  destruct (enable_inactive s v Ha Hb) as [ls E].
  rewrite enable_idempotent. unfold exec. rewrite E. cbn [fst snd body].
  match goal with |- context [disable ?x] =>
    destruct (disable_active x "hidden" eq_refl eq_refl) as [ls' E']
  end.
  rewrite E'. done.
Qed.

Lemma enable_disable_reversible_idempotent_witness :
  body (exec disable (exec enable (ScrollPreventer.constructor, Examples.feed))).2
  = Some "scroll".
Proof.
  refine (proj1 (proj2 (proj2 (proj2
    (proj1 enable_disable_reversible_idempotent
       (ScrollPreventer.constructor, Examples.feed) "scroll" _ _))))).
  - reflexivity.
  - reflexivity.
Defined.

End Scroll.

(** ** Finding the shorts *)

Lemma Set_add_first_seen (seen l : list nat) :
  foldl Set_add seen l = seen ++ first_seen seen l.
Proof.
  revert seen. induction l as [|x l IH]; intros seen; simpl.
  - by rewrite app_nil_r.
  - rewrite IH. unfold Set_add. destruct (decide (x ∈ seen)); [done |].
    by rewrite <- app_assoc.
Qed.

Lemma new_Set_first_seen (l : list nat) : new_Set l = first_seen [] l.
Proof. unfold new_Set. by rewrite Set_add_first_seen. Qed.

Lemma elem_of_first_seen (seen l : list nat) (x : nat) :
  x ∈ first_seen seen l ↔ x ∈ l ∧ x ∉ seen.
Proof.
  revert seen. induction l as [|y l IH]; intros seen; simpl.
  - rewrite elem_of_nil. tauto.
  - destruct (decide (y ∈ seen)).
    + rewrite IH, elem_of_cons. naive_solver.
    + rewrite !elem_of_cons, IH, elem_of_app, list_elem_of_singleton.
      destruct (decide (x = y)); naive_solver.
Qed.

Lemma NoDup_first_seen (seen l : list nat) : NoDup (first_seen seen l).
Proof.
  revert seen. induction l as [|y l IH]; intros seen; simpl.
  - constructor.
  - destruct (decide (y ∈ seen)); [apply IH |].
    constructor; [|apply IH].
    rewrite elem_of_first_seen, elem_of_app, list_elem_of_singleton. tauto.
Qed.

(** The spread of the set has no duplicates and exactly the entries of the
    array. *)
Lemma new_Set_NoDup (l : list nat) : NoDup (new_Set l).
Proof. rewrite new_Set_first_seen. apply NoDup_first_seen. Qed.

Lemma elem_of_new_Set (l : list nat) (x : nat) : x ∈ new_Set l ↔ x ∈ l.
Proof.
  rewrite new_Set_first_seen, elem_of_first_seen, elem_of_nil. tauto.
Qed.

Lemma safeQuerySelectorAll_parsed (b : browser) (selector : string) (l : list nat) :
  selector ≠ "" -> query b selector = Some l ->
  safeQuerySelectorAll selector b = (Normal l, b).
Proof.
  intros Hne Hq. unfold safeQuerySelectorAll, try_catch, querySelectorAll.
  rewrite decide_False by done. by rewrite Hq.
Qed.

(** A selector that does not parse: the handler runs, logs the warning, and
    its own [querySelectorAll('')] raises in turn. *)
Lemma safeQuerySelectorAll_unparsed (b : browser) (selector : string) :
  query b selector = None ->
  safeQuerySelectorAll selector b =
  (Throw (SyntaxError ""),
   set_console (fun c => c ++ [Log WARN "[YT Detox] Invalid selector:" (Str selector)]) b).
Proof.
  intros Hq.
  cbv beta iota zeta delta [safeQuerySelectorAll try_catch querySelectorAll
    mbind js_bind bind console_warn modify].
  destruct (decide (selector = "")); rewrite ?Hq; reflexivity.
Qed.

Section Collect.
Import ShortsBlocker.

Lemma SHORTS_CONTAINERS_nonempty (sel : string) :
  sel ∈ YOUTUBE_SELECTORS.SHORTS_CONTAINERS -> sel ≠ "".
Proof.
  unfold YOUTUBE_SELECTORS.SHORTS_CONTAINERS.
  rewrite !elem_of_cons, elem_of_nil. naive_solver.
Qed.

(** All selectors parse: the matches are appended in the order of the list
    and the browser is not touched. *)
Lemma collect_parsed (b : browser) (selectors : list string) (acc : list nat) :
  Forall (fun sel => sel ≠ "" ∧ is_Some (query b sel)) selectors ->
  collect selectors acc b =
  (Normal (acc ++ flat_map (matches_of b) selectors), b).
Proof.
  intros H. revert acc. induction H as [|sel sels [Hne [l Hl]] _ IH]; intros acc.
  - cbn. by rewrite app_nil_r.
  - cbn [collect flat_map]. unfold matches_of at 1. rewrite Hl.
    erewrite bind_normal by (by apply safeQuerySelectorAll_parsed).
    rewrite IH. cbn [default]. by rewrite app_assoc.
Qed.

(** The first selector that does not parse ends the loop with an
    exception. *)
Lemma collect_unparsed (b : browser) (pre post : list string) (sel : string)
    (acc : list nat) :
  Forall (fun sel => sel ≠ "" ∧ is_Some (query b sel)) pre ->
  query b sel = None ->
  collect (pre ++ sel :: post) acc b =
  (Throw (SyntaxError ""),
   set_console (fun c => c ++ [Log WARN "[YT Detox] Invalid selector:" (Str sel)]) b).
Proof.
  intros H Hq. revert acc. induction H as [|s0 sels [Hne [l Hl]] _ IH]; intros acc.
  - cbn [app collect].
    by erewrite bind_throw by (by apply safeQuerySelectorAll_unparsed).
  - cbn [app collect].
    erewrite bind_normal by (by apply safeQuerySelectorAll_parsed).
    apply IH.
Qed.

Lemma findShortsElements_parsed (b : browser) :
  Forall (fun sel => is_Some (query b sel)) YOUTUBE_SELECTORS.SHORTS_CONTAINERS ->
  findShortsElements b =
  (Normal (new_Set (flat_map (matches_of b) YOUTUBE_SELECTORS.SHORTS_CONTAINERS)), b).
Proof.
  intros H. unfold findShortsElements.
  erewrite bind_normal; [reflexivity |].
  rewrite collect_parsed; [done |].
  rewrite Forall_forall in H. apply Forall_forall. intros sel Hin.
  split; [by apply SHORTS_CONTAINERS_nonempty | by apply H].
Qed.

Lemma findShortsElements_unparsed (b : browser) (pre post : list string) (sel : string) :
  YOUTUBE_SELECTORS.SHORTS_CONTAINERS = pre ++ sel :: post ->
  Forall (fun sel => is_Some (query b sel)) pre ->
  query b sel = None ->
  findShortsElements b =
  (Throw (SyntaxError ""),
   set_console (fun c => c ++ [Log WARN "[YT Detox] Invalid selector:" (Str sel)]) b).
Proof.
  intros E H Hq. unfold findShortsElements. rewrite E.
  erewrite bind_throw; [reflexivity |].
  apply collect_unparsed; [|done].
  rewrite Forall_forall in H. apply Forall_forall. intros s0 Hin.
  split; [|by apply H].
  apply SHORTS_CONTAINERS_nonempty. rewrite E, elem_of_app. by left.
Qed.

(** C8, at a page the code can meet.  In a browser that cannot parse the last
    selector of the list, every other selector parses and two of them match
    the shorts 1 and 2.  The handler of [safeQuerySelectorAll] logs the
    warning and then raises itself, so [findShortsElements] ends with an
    exception instead of the list [2; 1], and [processShorts] hides
    nothing. *)
Theorem findShortsElements_unparsable_selector_aborts :
  (findShortsElements Examples.feed).1 = Normal [2; 1]
  ∧ (findShortsElements Examples.legacy_feed).1 = Throw (SyntaxError "")
  ∧ console (exec findShortsElements Examples.legacy_feed) =
      [Log WARN "[YT Detox] Invalid selector:"
           (Str "ytd-rich-item-renderer:has([aria-label*=Shorts])")]
  ∧ hiddenShorts (exec processShorts (constructor, Examples.legacy_feed)).1 = ∅
  ∧ nodes (exec processShorts (constructor, Examples.legacy_feed)).2
    = nodes Examples.legacy_feed.
Proof. vm_compute. split_and!; reflexivity. Qed.

End Collect.

(** ** One pass of processPage *)

Section Sequence.
Context {S : Type}.
Implicit Types (ms : list (js S unit)) (m : js S unit).

Lemma sequence_cons m ms s :
  sequence (m :: ms) s =
  match m s with
  | (Normal _, s') => sequence ms s'
  | (Throw e, s') => (Throw e, s')
  end.
Proof. reflexivity. Qed.

(** Once a statement throws, the statements after it have no part in the
    result. *)
Lemma sequence_throw ms m post s0 s1 e s2 :
  sequence ms s0 = (Normal tt, s1) -> m s1 = (Throw e, s2) ->
  sequence (ms ++ m :: post) s0 = (Throw e, s2).
Proof.
  revert s0. induction ms as [|m0 ms IH]; intros s0 H Hm.
  - cbn in H. injection H as ->. cbn [app]. by rewrite sequence_cons, Hm.
  - cbn [app]. rewrite sequence_cons in *.
    destruct (m0 s0) as [[[]|e0] s']; [by apply IH | done].
Qed.

End Sequence.

Section ProcessPage.
Import YouTubeDetoxController Pass.
Implicit Types (s : state).

Lemma stages_body s :
  (stage_scroll;; stage_buttons;; stage_shorts;; stage_savedTabs) s
  = sequence stages s.
Proof.
  unfold stages, sequence. cbn [for_of].
  cbv beta iota zeta delta [mbind js_bind bind ret].
  destruct (stage_scroll s) as [[[]|?] s1]; [|done].
  destruct (stage_buttons s1) as [[[]|?] s2]; [|done].
  destruct (stage_shorts s2) as [[[]|?] s3]; [|done].
  by destruct (stage_savedTabs s3) as [[[]|?] s4].
Qed.

Lemma processPage_entered s :
  extensionEnabled s.1 = true -> isProcessing s.1 = false ->
  processPage s =
  match sequence stages (entered s) with
  | (Normal _, s') => (Normal tt, (set_isProcessing false s'.1, s'.2))
  | (Throw e, s') => (Normal tt, aborted e s')
  end.
Proof.
  intros He Hp. unfold processPage.
  erewrite bind_normal by (unfold gets; reflexivity).
  rewrite He, Hp. cbn [negb orb].
  erewrite (bind_normal _ _ s tt (entered s)) by reflexivity.
  unfold try_finally, try_catch. rewrite stages_body.
  by destruct (sequence stages (entered s)) as [[[]|e] [c b]].
Qed.

(** C3, as the code has it.  A pass that is entered always returns normally
    and leaves the gate open again.  When a stage throws, the exception is
    caught by the one handler around all stages and logged, and the pass
    ends there: the result is determined by the state at the throw alone,
    whatever the stages after the failing one are. *)
Theorem processPage_isolation_per_pass s :
  extensionEnabled s.1 = true -> isProcessing s.1 = false ->
  (∃ s', processPage s = (Normal tt, s') ∧ isProcessing s'.1 = false)
  ∧ (∀ pre stage post e s1 s2,
       stages = pre ++ stage :: post ->
       sequence pre (entered s) = (Normal tt, s1) ->
       stage s1 = (Throw e, s2) ->
       processPage s = (Normal tt, aborted e s2)).
Proof.
  intros He Hp. rewrite (processPage_entered s He Hp). split.
  - destruct (sequence stages (entered s)) as [[[]|e] [c b]]; eauto.
  - intros pre stage post e s1 s2 E Hpre Hst.
    by rewrite E, (sequence_throw pre stage post _ s1 e s2).
Qed.

Lemma processPage_isolation_per_pass_witness :
  processPage (Examples.start Examples.bodyless_player) =
  (Normal tt,
   aborted (TypeError "document.body is null")
           (entered (Examples.start Examples.bodyless_player))).
Proof.
  refine (proj2 (processPage_isolation_per_pass
                   (Examples.start Examples.bodyless_player) _ _)
            [] stage_scroll [stage_buttons; stage_shorts; stage_savedTabs]
            _ _ _ _ _ _).
  - reflexivity.
  - reflexivity.
  - reflexivity.
  - reflexivity.
  - vm_compute. reflexivity.
Defined.

(** The isolation is not per stage.  On a shorts page whose document has no
    body the first stage throws; the second stage, run on its own, would hide
    the navigation button 7, but after the pass the button is still shown
    and nothing was recorded as removed: the later stages did not run. *)
Lemma processPage_failure_skips_later_stages :
  let s := Examples.start Examples.bodyless_player in
  ((stage_scroll (entered s)).1 = Throw (TypeError "document.body is null")
   ∧ display <$> nodes (exec stage_buttons s).2 !! 7 = Some "none"
   ∧ display <$> nodes (exec processPage s).2 !! 7 = Some ""
   ∧ NavigationButtonRemover.removedButtons
       (navigationButtonRemover (exec processPage s).1) = ∅
   ∧ console (exec processPage s).2 =
       [Log ERROR "[YT Detox] Page processing error:"
            (Err (TypeError "document.body is null"))]).
Proof. vm_compute. split_and!; reflexivity. Qed.

End ProcessPage.

(** ** Navigation *)

Section Navigation.
Import YouTubeDetoxController.
Implicit Types (s : state).

Lemma set_shortsBlocker_id (c : t) : set_shortsBlocker (shortsBlocker c) c = c.
Proof. by destruct c. Qed.

(** A guarded [hideShort], called through the controller. *)
Lemma on_shortsBlocker_hideShort_noop s (e : nat) :
  e ∈ ShortsBlocker.hiddenShorts (shortsBlocker s.1)
  ∨ e ∈ ShortsBlocker.sessionVisible (shortsBlocker s.1) ->
  on_shortsBlocker (ShortsBlocker.hideShort e) s = (Normal tt, s).
Proof.
  intros H. unfold on_shortsBlocker, zoom.
  rewrite hideShort_guard by exact H.
  cbn [fst snd]. rewrite set_shortsBlocker_id. by destruct s.
Qed.

Lemma set_nodes_same (b : browser) : set_nodes (fun _ => nodes b) b = b.
Proof. by destruct b. Qed.

(** [remove] only rewrites nodes; without a container it does nothing. *)
Lemma SavedTabsUI_remove_spec (o : SavedTabsUI.t) (b : browser) :
  ∃ m', SavedTabsUI.remove (o, b) =
          (Normal tt, (SavedTabsUI.Make None, set_nodes (fun _ => m') b))
        ∧ (SavedTabsUI.container o = None -> m' = nodes b).
Proof.
  destruct o as [[n|]].
  - cbv beta iota zeta delta [SavedTabsUI.remove mbind js_bind bind gets mret
      js_ret ret page self zoom modify fst snd SavedTabsUI.container remove_node].
    destruct (parentNode_of b n); cbv beta iota zeta delta [update_node modify
      mbind js_bind bind].
    + eexists. split; [unfold set_nodes; cbn; reflexivity | done].
    + exists (nodes b). by rewrite set_nodes_same.
  - exists (nodes b). by rewrite set_nodes_same.
Qed.

Lemma handleNavigation_same_url s :
  href s.2 = currentUrl s.1 -> handleNavigation s = (Normal tt, s).
Proof.
  intros E. unfold handleNavigation.
  cbv beta iota zeta delta [mbind js_bind bind gets mret js_ret ret].
  by rewrite decide_False by (by intros []).
Qed.

Lemma handleNavigation_changed s :
  href s.2 ≠ currentUrl s.1 ->
  ∃ m',
    handleNavigation s =
    (Normal tt,
     (Make (ShortsBlocker.set_sessionVisible (fun _ => ∅) (shortsBlocker s.1))
           (scrollPreventer s.1)
           (NavigationButtonRemover.Make ∅)
           (SavedTabsUI.Make None)
           (extensionEnabled s.1) (href s.2) (isProcessing s.1),
      set_clock (Timers.setTimeout ProcessPage 100 (clock s.2)).2
                (set_nodes (fun _ => m') s.2)))
    ∧ (SavedTabsUI.container (savedTabsUI s.1) = None -> m' = nodes s.2).
Proof.
  intros Hne. destruct s as [c b]. cbn [fst snd] in *.
  destruct (SavedTabsUI_remove_spec (savedTabsUI c) b) as (m' & E & Hm).
  exists m'. split; [|done].
  unfold handleNavigation.
  cbv beta iota zeta delta [mbind js_bind bind gets mret js_ret ret fst snd].
  rewrite decide_True by done.
  cbv beta iota zeta delta [self page zoom modify on_shortsBlocker
    on_navigationButtonRemover on_savedTabsUI ShortsBlocker.resetSession
    NavigationButtonRemover.reset fst snd].
  cbn [savedTabsUI set_currentUrl set_shortsBlocker set_navigationButtonRemover
       shortsBlocker navigationButtonRemover].
  rewrite E. cbn [fst snd].
  unfold setTimeout. cbn [clock set_nodes].
  by destruct (Timers.setTimeout ProcessPage 100 (clock b)) as [id q].
Qed.

(** When the URL has changed, [handleNavigation] returns normally, records
    the new URL, empties [sessionVisible] and the seen-set of the button
    remover, and keeps [hiddenShorts] as it was.  An element that was
    suppressed before, revealed or not, is therefore still tracked, and a
    later [hideShort] on it changes nothing.  Existing nodes are not touched
    unless a saved-tabs container has to be removed. *)
Lemma handleNavigation_resets_session_only s :
  href s.2 ≠ currentUrl s.1 ->
  (handleNavigation s).1 = Normal tt
  ∧ currentUrl (exec handleNavigation s).1 = href s.2
  ∧ ShortsBlocker.sessionVisible (shortsBlocker (exec handleNavigation s).1) = ∅
  ∧ ShortsBlocker.hiddenShorts (shortsBlocker (exec handleNavigation s).1)
    = ShortsBlocker.hiddenShorts (shortsBlocker s.1)
  ∧ NavigationButtonRemover.removedButtons
      (navigationButtonRemover (exec handleNavigation s).1) = ∅
  ∧ (SavedTabsUI.container (savedTabsUI s.1) = None ->
     nodes (exec handleNavigation s).2 = nodes s.2)
  ∧ (∀ e, e ∈ ShortsBlocker.hiddenShorts (shortsBlocker s.1) ->
          on_shortsBlocker (ShortsBlocker.hideShort e) (exec handleNavigation s)
          = (Normal tt, exec handleNavigation s)).
Proof.
  intros Hne. destruct (handleNavigation_changed s Hne) as (m' & E & Hm).
  unfold exec. rewrite E. cbn [fst snd]. split_and!; try done.
  intros e He. apply on_shortsBlocker_hideShort_noop. by left.
Qed.

(** C2, on a feed whose nodes outlive the navigation.  Short 1 was suppressed
    and then revealed by the user; the URL changes.  [handleNavigation]
    empties [sessionVisible] but the element is still in [hiddenShorts], so
    the next [hideShort] returns at its first guard: the short is not hidden
    again, it stays displayed, and no overlay is inserted (the child list of
    its parent is the same).  The pass that the navigation schedules leaves
    it displayed as well. *)
Theorem handleNavigation_keeps_hiddenShorts :
  let after := exec (on_shortsBlocker (ShortsBlocker.hideShort 1)) Examples.navigated in
  ((1 ∈ ShortsBlocker.sessionVisible (shortsBlocker Examples.moved.1))
   ∧ href Examples.moved.2 ≠ currentUrl Examples.moved.1
   ∧ (1 ∈ ShortsBlocker.hiddenShorts (shortsBlocker Examples.navigated.1))
   ∧ (1 ∉ ShortsBlocker.sessionVisible (shortsBlocker Examples.navigated.1))
   ∧ nodes after.2 = nodes Examples.navigated.2
   ∧ display <$> nodes after.2 !! 1 = Some ""
   ∧ childNodes <$> nodes after.2 !! 0 = Some [1; 7; 2; 6]
   ∧ childNodes <$> nodes Examples.moved.2 !! 0 = Some [1; 7; 2; 6]
   ∧ display <$> nodes (exec processPage Examples.navigated).2 !! 1 = Some "").
Proof.
  vm_compute. split_and!; try reflexivity; discriminate.
Qed.

End Navigation.

(** ** The two sets of ShortsBlocker *)

Section Tracking.
Import Invariant.
Implicit Types (h : gset nat) (m : gmap nat node) (f : node -> node).

Lemma harmless_set_display v : harmless (set_display v).
Proof. by intros []. Qed.

Lemma harmless_set_childNodes g : harmless (set_childNodes g).
Proof. by intros []. Qed.

Lemma harmless_detach : harmless (set_parentNode None).
Proof. intros []. split; [done |]. by intros [? [=]]. Qed.

Lemma lookup_alter_inv f m (k n : nat) (nd : node) :
  alter f k m !! n = Some nd ->
  ∃ nd0, m !! n = Some nd0 ∧ (nd = nd0 ∨ (n = k ∧ nd = f nd0)).
Proof.
  destruct (decide (k = n)) as [->|Hne].
  - rewrite lookup_alter_eq. destruct (m !! n) as [nd0|]; [|done].
    intros [= <-]. eauto.
  - rewrite lookup_alter_ne by done. eauto.
Qed.

Lemma overlays_tracked_mono h h' m :
  h ⊆ h' -> overlays_tracked h m -> overlays_tracked h' m.
Proof. intros Hs H n nd e Hn Ht Hp. apply Hs. eauto. Qed.

Lemma overlays_tracked_alter h m f (k : nat) :
  harmless f -> overlays_tracked h m -> overlays_tracked h (alter f k m).
Proof.
  intros Hf H n nd e Hn Ht Hp.
  destruct (lookup_alter_inv _ _ _ _ _ Hn) as (nd0 & Hn0 & [->|[-> ->]]).
  - eauto.
  - destruct (Hf nd0) as [Et Ep]. rewrite Et in Ht. eauto.
Qed.

Lemma overlays_tracked_insert h m (k : nat) (nd : node) :
  parentNode nd = None -> overlays_tracked h m -> overlays_tracked h (<[k:=nd]> m).
Proof.
  intros Hd H n nd' e Hn Ht Hp.
  destruct (decide (k = n)) as [->|Hne].
  - rewrite lookup_insert_eq in Hn. injection Hn as <-.
    rewrite Hd in Hp. by destruct Hp.
  - rewrite lookup_insert_ne in Hn by done. eauto.
Qed.

Lemma overlays_tracked_attach h m (k : nat) (q : option nat) :
  (∀ nd e, m !! k = Some nd -> toggles nd = Some e -> e ∈ h) ->
  overlays_tracked h m -> overlays_tracked h (alter (set_parentNode q) k m).
Proof.
  intros Hk H n nd e Hn Ht Hp.
  destruct (lookup_alter_inv _ _ _ _ _ Hn) as (nd0 & Hn0 & [->|[-> ->]]).
  - eauto.
  - destruct nd0; cbn in *. eauto.
Qed.

(** [hideShort] keeps the revealed set inside the suppressed set, and every
    attached overlay pointing into the suppressed set. *)
Lemma hideShort_blocker (e : nat) : preserves blocker (ShortsBlocker.hideShort e).
Proof.
  intros [o b] [Hsub Hov]. cbn [fst snd] in *. unfold exec.
  destruct (decide (e ∈ ShortsBlocker.hiddenShorts o)) as [Hh|Hh].
  { rewrite hideShort_guard by (by left). by split. }
  destruct (decide (e ∈ ShortsBlocker.sessionVisible o)) as [Hv|Hv].
  { rewrite hideShort_guard by (by right). by split. }
  rewrite (hideShort_unseen e (o, b) Hh Hv). cbn [fst snd].
  destruct (parentNode_of b e) as [p|]; cbn [fst snd]; split; cbn.
  - apply union_subseteq_r', Hsub.
  - apply overlays_tracked_alter; [apply harmless_set_display |].
    apply overlays_tracked_attach.
    + intros nd e' Hn Ht.
      destruct (lookup_alter_inv _ _ _ _ _ Hn) as (nd0 & Hn0 & Hcase).
      rewrite lookup_insert_eq in Hn0. injection Hn0 as <-.
      assert (toggles nd = Some e) as Ht'
        by (destruct Hcase as [->|[_ ->]]; reflexivity).
      rewrite Ht in Ht'. injection Ht' as ->.
      apply elem_of_union_l, elem_of_singleton. reflexivity.
    + apply overlays_tracked_alter; [apply harmless_set_childNodes |].
      apply overlays_tracked_insert; [done |].
      eapply overlays_tracked_mono; [|exact Hov]. apply union_subseteq_r.
  - exact Hsub.
  - by apply overlays_tracked_insert.
Qed.

(** A toggle through the handler of an overlay that is in the page. *)
Lemma toggleShortVisibility_blocker (e overlay : nat) (s : ShortsBlocker.t * browser) :
  e ∈ ShortsBlocker.hiddenShorts s.1 -> blocker s ->
  blocker (exec (ShortsBlocker.toggleShortVisibility e overlay) s).
Proof.
  destruct s as [o b]. cbn [fst snd]. intros He [Hsub Hov].
  unfold exec.
  cbv beta iota zeta delta [ShortsBlocker.toggleShortVisibility mbind js_bind
    bind gets mret js_ret ret page self zoom modify update_node fst snd].
  destruct (bool_decide (e ∈ ShortsBlocker.sessionVisible o));
    (split; cbn;
     [| by do 2 (apply overlays_tracked_alter; [apply harmless_set_display |])]).
  - intros x [Hx _]%elem_of_difference. by apply Hsub.
  - intros x [->%elem_of_singleton|Hx]%elem_of_union; [done | by apply Hsub].
Qed.

Lemma toggleShortVisibility_hiddenShorts (e overlay : nat) (s : ShortsBlocker.t * browser) :
  ShortsBlocker.hiddenShorts (exec (ShortsBlocker.toggleShortVisibility e overlay) s).1
  = ShortsBlocker.hiddenShorts s.1.
Proof.
  destruct s as [o b]. unfold exec.
  cbv beta iota zeta delta [ShortsBlocker.toggleShortVisibility mbind js_bind
    bind gets mret js_ret ret page self zoom modify update_node fst snd].
  by destruct (bool_decide (e ∈ ShortsBlocker.sessionVisible o)).
Qed.

(** Clearing [sessionVisible] alone does not re-arm [hideShort]: since the
    revealed set lies inside the suppressed set, the second guard never
    decides, and a call after [resetSession] does to the nodes and to
    [hiddenShorts] exactly what it would have done without the reset. *)
Lemma resetSession_does_not_rearm (e : nat) (s : ShortsBlocker.t * browser) :
  ShortsBlocker.sessionVisible s.1 ⊆ ShortsBlocker.hiddenShorts s.1 ->
  nodes (exec (ShortsBlocker.hideShort e) (exec ShortsBlocker.resetSession s)).2
  = nodes (exec (ShortsBlocker.hideShort e) s).2
  ∧ ShortsBlocker.hiddenShorts
      (exec (ShortsBlocker.hideShort e) (exec ShortsBlocker.resetSession s)).1
    = ShortsBlocker.hiddenShorts (exec (ShortsBlocker.hideShort e) s).1.
Proof.
  destruct s as [o b]. cbn [fst snd]. intros Hsub.
  change (exec ShortsBlocker.resetSession (o, b))
    with (ShortsBlocker.set_sessionVisible (fun _ => ∅) o, b).
  unfold exec.
  destruct (decide (e ∈ ShortsBlocker.hiddenShorts o)) as [Hh|Hh].
  - rewrite !hideShort_guard by (by left). done.
  - assert (Hv : e ∉ ShortsBlocker.sessionVisible o) by (intros Hv; by apply Hh, Hsub).
    rewrite (hideShort_unseen e (o, b) Hh Hv).
    rewrite (hideShort_unseen e (ShortsBlocker.set_sessionVisible (fun _ => ∅) o, b));
      [|exact Hh |apply not_elem_of_empty].
    cbn [fst snd]. by destruct (parentNode_of b e).
Qed.

End Tracking.

(** ** Everything else leaves the overlays alone *)

Create HintDb keeps discriminated.

Section Keeps.
Import Invariant.
Implicit Types (h : gset nat).

Lemma keeps_same_nodes {A} h (m : js browser A) :
  (∀ b, nodes (exec m b) = nodes b) -> preserves (tracked_in h) m.
Proof. intros E b Hb. unfold tracked_in. by rewrite E. Qed.

Lemma keeps_update_node h (n : nat) (f : node -> node) :
  harmless f -> preserves (tracked_in h) (update_node n f).
Proof. intros Hf b Hb. by apply overlays_tracked_alter. Qed.

Lemma keeps_console_log h msg a : preserves (tracked_in h) (console_log msg a).
Proof. by apply keeps_same_nodes. Qed.

Lemma keeps_console_warn h msg a : preserves (tracked_in h) (console_warn msg a).
Proof. by apply keeps_same_nodes. Qed.

Lemma keeps_console_error h msg a : preserves (tracked_in h) (console_error msg a).
Proof. by apply keeps_same_nodes. Qed.

Lemma keeps_querySelectorAll h sel : preserves (tracked_in h) (querySelectorAll sel).
Proof.
  apply keeps_same_nodes. intros b. unfold exec, querySelectorAll.
  destruct (decide (sel = "")); [done |]. by destruct (query b sel).
Qed.

Lemma keeps_get_body_overflow h :
  preserves (tracked_in h) ScrollPreventer.get_body_overflow.
Proof.
  apply keeps_same_nodes. intros b. unfold exec, ScrollPreventer.get_body_overflow.
  by destruct (body b).
Qed.

Lemma keeps_set_body_overflow h v :
  preserves (tracked_in h) (ScrollPreventer.set_body_overflow v).
Proof.
  apply keeps_same_nodes. intros b. unfold exec, ScrollPreventer.set_body_overflow.
  by destruct (body b).
Qed.

Lemma keeps_addEventListener h l : preserves (tracked_in h) (addEventListener l).
Proof. by apply keeps_same_nodes. Qed.

Lemma keeps_removeEventListener h l : preserves (tracked_in h) (removeEventListener l).
Proof. by apply keeps_same_nodes. Qed.

Lemma keeps_setTimeout h cb d : preserves (tracked_in h) (setTimeout cb d).
Proof. by apply keeps_same_nodes. Qed.

Lemma keeps_set_sent h g : preserves (tracked_in h) (modify (set_sent g)).
Proof. by apply keeps_same_nodes. Qed.

(** Lifting to the methods of a service. *)
Lemma keeps_page {O A} h (m : js browser A) :
  preserves (tracked_in h) m ->
  preserves (fun s : O * browser => tracked_in h s.2) (page m).
Proof.
  intros Hm. apply (preserves_zoom _ (tracked_in h)); [done | done | exact Hm].
Qed.

Lemma keeps_self {O A} h (m : js O A) :
  preserves (fun s : O * browser => tracked_in h s.2) (self m).
Proof.
  apply (preserves_zoom _ (fun _ => True)); [done | done | done].
Qed.

End Keeps.

#[global] Hint Resolve keeps_console_log keeps_console_warn keeps_console_error
  keeps_querySelectorAll keeps_get_body_overflow keeps_set_body_overflow
  keeps_addEventListener keeps_removeEventListener keeps_setTimeout
  keeps_set_sent keeps_update_node harmless_set_display harmless_set_childNodes
  harmless_detach keeps_self : keeps.

(** Walk through a method, statement by statement. *)
Ltac keeps :=
  repeat first
    [ apply preserves_bind; [|intros ?]
    | apply preserves_ret
    | apply preserves_gets
    | apply preserves_if
    | apply preserves_for_of; intros ?
    | apply preserves_try_catch; [|intros ?]
    | apply preserves_try_finally
    | apply keeps_page
    | solve [eauto with keeps] ].

Section KeepsMethods.
Import Invariant.
Implicit Types (h : gset nat).

Lemma keeps_safeQuerySelectorAll h sel : preserves (tracked_in h) (safeQuerySelectorAll sel).
Proof. unfold safeQuerySelectorAll. keeps. Qed.

Lemma keeps_collect h sels acc : preserves (tracked_in h) (ShortsBlocker.collect sels acc).
Proof.
  revert acc. induction sels as [|sel sels IH]; intros acc; cbn [ShortsBlocker.collect].
  - keeps.
  - apply preserves_bind; [apply keeps_safeQuerySelectorAll | intros ?; apply IH].
Qed.

Lemma keeps_findShortsElements h : preserves (tracked_in h) ShortsBlocker.findShortsElements.
Proof.
  unfold ShortsBlocker.findShortsElements.
  apply preserves_bind; [apply keeps_collect | intros ?; keeps].
Qed.

Lemma keeps_remove_node h n : preserves (tracked_in h) (remove_node n).
Proof.
  intros b Hb. unfold exec, remove_node.
  destruct (parentNode_of b n) as [p|]; [|done].
  change (tracked_in h (exec (update_node p (set_childNodes (filter (λ c, c ≠ n)));;
                              update_node n (set_parentNode None)) b)).
  revert b Hb. change (preserves (tracked_in h)
    (update_node p (set_childNodes (filter (λ c, c ≠ n)));;
     update_node n (set_parentNode None))).
  keeps.
Qed.

Lemma keeps_removeNavigationButtons h :
  preserves (fun s => tracked_in h s.2)
            NavigationButtonRemover.removeNavigationButtons.
Proof.
  unfold NavigationButtonRemover.removeNavigationButtons,
    NavigationButtonRemover.hide_button, isShortsPage.
  keeps.
Qed.

Lemma keeps_NavigationButtonRemover_reset h :
  preserves (fun s => tracked_in h s.2) NavigationButtonRemover.reset.
Proof. unfold NavigationButtonRemover.reset. keeps. Qed.

Lemma keeps_ScrollPreventer_update h :
  preserves (fun s => tracked_in h s.2) ScrollPreventer.update.
Proof.
  unfold ScrollPreventer.update, ScrollPreventer.enable, ScrollPreventer.disable,
    isShortsPage.
  keeps.
Qed.

Lemma keeps_SavedTabsUI_refresh h :
  preserves (fun s => tracked_in h s.2) SavedTabsUI.refresh.
Proof. unfold SavedTabsUI.refresh. keeps. Qed.

Lemma keeps_SavedTabsUI_remove h :
  preserves (fun s => tracked_in h s.2) SavedTabsUI.remove.
Proof.
  unfold SavedTabsUI.remove.
  apply preserves_bind; [keeps |]. intros [n|]; keeps. apply keeps_remove_node.
Qed.

End KeepsMethods.

Section SystemInvariant.
Import YouTubeDetoxController Invariant System.
Implicit Types (s : state).

Lemma blocker_page {A} (m : js browser A) :
  (∀ h, preserves (tracked_in h) m) ->
  preserves blocker (page m : js (ShortsBlocker.t * browser) A).
Proof.
  intros Hm [o b] [Hsub Hov]. unfold exec, page, zoom. cbn [fst snd].
  specialize (Hm _ b Hov). unfold exec in Hm.
  destruct (m b) as [c b']. by split.
Qed.

Lemma processShorts_blocker : preserves blocker ShortsBlocker.processShorts.
Proof.
  unfold ShortsBlocker.processShorts.
  apply preserves_bind; [apply blocker_page; intros h; apply preserves_gets |].
  intros shorts. apply preserves_if; [apply preserves_ret |].
  apply preserves_bind;
    [apply blocker_page; intros h; apply keeps_findShortsElements |].
  intros l. apply preserves_for_of. apply hideShort_blocker.
Qed.

Lemma resetSession_blocker : preserves blocker ShortsBlocker.resetSession.
Proof.
  intros [o b] [Hsub Hov]. split; [|done].
  cbn. apply empty_subseteq.
Qed.

Lemma controller_on_shortsBlocker {A} (m : js (ShortsBlocker.t * browser) A) :
  preserves blocker m -> preserves controller (on_shortsBlocker m).
Proof.
  intros Hm. unfold on_shortsBlocker.
  apply (preserves_zoom _ blocker); [done | | exact Hm].
  intros [c b] [o b'] _ H. by destruct c.
Qed.

Lemma controller_on_scrollPreventer {A} (m : js (ScrollPreventer.t * browser) A) :
  (∀ h, preserves (fun x => tracked_in h x.2) m) ->
  preserves controller (on_scrollPreventer m).
Proof.
  intros Hm [c b] [Hsub Hov]. unfold exec, on_scrollPreventer, zoom. cbn [fst snd] in *.
  specialize (Hm _ (scrollPreventer c, b) Hov). unfold exec in Hm.
  destruct (m (scrollPreventer c, b)) as [r [o b']]. by split.
Qed.

Lemma controller_on_navigationButtonRemover {A}
    (m : js (NavigationButtonRemover.t * browser) A) :
  (∀ h, preserves (fun x => tracked_in h x.2) m) ->
  preserves controller (on_navigationButtonRemover m).
Proof.
  intros Hm [c b] [Hsub Hov].
  unfold exec, on_navigationButtonRemover, zoom. cbn [fst snd] in *.
  specialize (Hm _ (navigationButtonRemover c, b) Hov). unfold exec in Hm.
  destruct (m (navigationButtonRemover c, b)) as [r [o b']]. by split.
Qed.

Lemma controller_on_savedTabsUI {A} (m : js (SavedTabsUI.t * browser) A) :
  (∀ h, preserves (fun x => tracked_in h x.2) m) ->
  preserves controller (on_savedTabsUI m).
Proof.
  intros Hm [c b] [Hsub Hov]. unfold exec, on_savedTabsUI, zoom. cbn [fst snd] in *.
  specialize (Hm _ (savedTabsUI c, b) Hov). unfold exec in Hm.
  destruct (m (savedTabsUI c, b)) as [r [o b']]. by split.
Qed.

Lemma controller_page {A} (m : js browser A) :
  (∀ h, preserves (tracked_in h) m) -> preserves controller (page m).
Proof.
  intros Hm [c b] [Hsub Hov]. unfold exec, page, zoom. cbn [fst snd] in *.
  specialize (Hm _ b Hov). unfold exec in Hm.
  destruct (m b) as [r b']. by split.
Qed.

Lemma controller_self (f : t -> t) :
  (∀ c, shortsBlocker (f c) = shortsBlocker c) ->
  preserves controller (self (modify f)).
Proof.
  intros Hf [c b] H. unfold controller in *. cbn in *. by rewrite Hf.
Qed.

Lemma processPage_controller : preserves controller processPage.
Proof.
  unfold processPage. apply preserves_bind; [apply preserves_gets |].
  intros skip. apply preserves_if; [apply preserves_ret |].
  apply preserves_bind; [by apply controller_self |]. intros _.
  apply preserves_try_finally; [|by apply controller_self].
  apply preserves_try_catch.
  - apply preserves_bind;
      [apply controller_on_scrollPreventer, keeps_ScrollPreventer_update |].
    intros _. apply preserves_bind;
      [apply controller_on_navigationButtonRemover, keeps_removeNavigationButtons |].
    intros _. apply preserves_bind;
      [apply controller_on_shortsBlocker, processShorts_blocker |].
    intros _. unfold stage_savedTabs.
    apply preserves_bind; [apply controller_page; intros h; apply preserves_gets |].
    intros home. apply preserves_if.
    + apply preserves_bind; [apply controller_page; intros h; keeps |].
      intros _. apply controller_on_savedTabsUI, keeps_SavedTabsUI_refresh.
    + apply preserves_bind; [apply preserves_gets |].
      intros url. apply controller_page. intros h. keeps.
  - intros e. apply controller_page. intros h. keeps.
Qed.

Lemma handleNavigation_controller : preserves controller handleNavigation.
Proof.
  unfold handleNavigation. apply preserves_bind; [apply preserves_gets |].
  intros newUrl. apply preserves_bind; [apply preserves_gets |].
  intros current. destruct (decide (newUrl ≠ current)); [|apply preserves_ret].
  apply preserves_bind; [by apply controller_self |]. intros _.
  apply preserves_bind;
    [apply controller_on_shortsBlocker, resetSession_blocker |]. intros _.
  apply preserves_bind;
    [apply controller_on_navigationButtonRemover, keeps_NavigationButtonRemover_reset |].
  intros _.
  apply preserves_bind;
    [apply controller_on_savedTabsUI, keeps_SavedTabsUI_remove |]. intros _.
  apply preserves_bind; [apply controller_page; intros h; keeps |].
  intros _. apply preserves_ret.
Qed.

Lemma step_controller s s' : step s s' -> controller s -> controller s'.
Proof.
  intros Hstep H. destruct Hstep as [s|s|s ov nd e Hn Ht Hp|s b' Hb|s c].
  - by apply processPage_controller.
  - by apply handleNavigation_controller.
  - assert (He : e ∈ ShortsBlocker.hiddenShorts (shortsBlocker s.1))
      by (destruct H as [_ Hov]; exact (Hov ov nd e Hn Ht Hp)).
    revert s H He Hn. clear. intros [c b] H He _.
    unfold controller, exec, on_shortsBlocker, zoom. cbn [fst snd] in *.
    pose proof (toggleShortVisibility_blocker e ov (shortsBlocker c, b) He H) as H'.
    unfold exec in H'.
    destruct (ShortsBlocker.toggleShortVisibility e ov (shortsBlocker c, b)) as [r [o b']].
    by destruct c.
  - destruct H as [Hsub Hov]. split; [done |].
    intros n nd e Hn Ht Hp. apply (Hov n nd e); [|done..].
    apply Hb; [done |]. rewrite Ht. eauto.
  - destruct s as [c0 b]. destruct H as [Hsub Hov]. by split.
Qed.

Lemma initial_controller s : initial s -> controller s.
Proof.
  intros [E Hn]. split; rewrite E; cbn.
  - done.
  - intros n nd e Hl Ht. rewrite (Hn n nd Hl) in Ht. done.
Qed.

Lemma reachable_controller s : reachable s -> controller s.
Proof.
  intros (s0 & H0 & Hrtc). apply initial_controller in H0.
  induction Hrtc as [|x y z Hxy _ IH]; [done |].
  apply IH. by apply (step_controller x y).
Qed.

(** C1, as the code has it.  The two sets are nested, not disjoint: in every
    state the script can reach, every element of [sessionVisible] is also in
    [hiddenShorts].  A toggle, in either direction, changes [sessionVisible]
    only and leaves [hiddenShorts] as it is. *)
Theorem sessionVisible_within_hiddenShorts s :
  reachable s ->
  ShortsBlocker.sessionVisible (shortsBlocker s.1)
    ⊆ ShortsBlocker.hiddenShorts (shortsBlocker s.1)
  ∧ (∀ e overlay,
       ShortsBlocker.hiddenShorts
         (shortsBlocker
            (exec (on_shortsBlocker (ShortsBlocker.toggleShortVisibility e overlay)) s).1)
       = ShortsBlocker.hiddenShorts (shortsBlocker s.1)).
Proof.
  intros H. split; [apply (reachable_controller s H) |].
  intros e ov. destruct s as [c b]. unfold exec, on_shortsBlocker, zoom.
  cbn [fst snd].
  pose proof (toggleShortVisibility_hiddenShorts e ov (shortsBlocker c, b)) as E.
  unfold exec in E.
  by destruct (ShortsBlocker.toggleShortVisibility e ov (shortsBlocker c, b))
    as [r [o b']].
Qed.

Lemma revealed_reachable : reachable Examples.revealed.
Proof.
  exists (Examples.start Examples.feed). split.
  - split; [reflexivity |].
    assert (H : map_Forall (fun _ nd => toggles nd = None) (nodes Examples.feed))
      by compute_done.
    intros n nd Hn. exact (H n nd Hn).
  - eapply rtc_l; [apply step_processPage |].
    eapply rtc_l; [|apply rtc_refl].
    apply (step_click _ 7 (Node "yt-detox-overlay"
             [("data-yt-detox", "shorts-overlay")] (Some 0) [] "" (Some 1)) 1).
    + vm_compute. reflexivity.
    + reflexivity.
    + by eexists.
Qed.

Lemma sessionVisible_within_hiddenShorts_witness :
  ShortsBlocker.sessionVisible (shortsBlocker Examples.revealed.1)
    ⊆ ShortsBlocker.hiddenShorts (shortsBlocker Examples.revealed.1).
Proof.
  exact (proj1 (sessionVisible_within_hiddenShorts Examples.revealed
                  revealed_reachable)).
Defined.

(** The two sets are not disjoint.  After the first pass over the feed and a
    click on the toggle of the overlay of short 1, a state the script
    reaches, short 1 is in [hiddenShorts] and in [sessionVisible] at the same
    time. *)
Lemma revealed_in_both_sets :
  reachable Examples.revealed
  ∧ (1 ∈ ShortsBlocker.hiddenShorts (shortsBlocker Examples.revealed.1))
  ∧ (1 ∈ ShortsBlocker.sessionVisible (shortsBlocker Examples.revealed.1))
  ∧ ¬ (ShortsBlocker.hiddenShorts (shortsBlocker Examples.revealed.1)
       ## ShortsBlocker.sessionVisible (shortsBlocker Examples.revealed.1)).
Proof.
  assert (H1 : 1 ∈ ShortsBlocker.hiddenShorts (shortsBlocker Examples.revealed.1))
    by (vm_compute; reflexivity).
  assert (H2 : 1 ∈ ShortsBlocker.sessionVisible (shortsBlocker Examples.revealed.1))
    by (vm_compute; reflexivity).
  split_and!; [apply revealed_reachable | exact H1 | exact H2 |].
  intros Hd. exact (Hd 1 H1 H2).
Qed.

End SystemInvariant.

(** ** The mutation filter *)

Section Observer.
Import MutationObserver.

Lemma element_rect_chain (P : element -> Prop) :
  (∀ i c a, P (Element i c a None)) ->
  (∀ i c a p, P p -> P (Element i c a (Some p))) ->
  ∀ e, P e.
Proof.
  intros Hroot Hchild. fix IH 1.
  intros [i c a [p|]]; [apply Hchild, IH | apply Hroot].
Qed.

Lemma closest_Some (sel : selector) (e : element) :
  truthy (closest sel e) = true ↔ ∃ a, a ∈ ancestors e ∧ matches sel a = true.
Proof.
  induction e as [i c a|i c a p IH] using element_rect_chain.
  - cbn [closest ancestors].
    destruct (matches sel (Element i c a None)) eqn:E.
    + split; [|done]. intros _. eexists. split; [apply list_elem_of_here | done].
    + split; [done |]. intros (x & ->%list_elem_of_singleton & Hx). congruence.
  - cbn [closest ancestors].
    destruct (matches sel (Element i c a (Some p))) eqn:E.
    + split; [|done]. intros _. eexists. split; [apply list_elem_of_here | done].
    + rewrite IH. split.
      * intros (x & Hx & Hm). exists x. split; [by apply list_elem_of_further | done].
      * intros (x & [->|Hx]%elem_of_cons & Hm); [congruence | eauto].
Qed.

Lemma own_target_spec (e : element) :
  own_target e ↔
  truthy (closest (ById "yt-detox-saved-tabs") e)
  || truthy (closest (ByClass "yt-detox-overlay") e)
  || hasAttribute e "data-yt-detox" = true.
Proof.
  rewrite !orb_true_iff, !closest_Some. unfold own_target, hasAttribute.
  rewrite bool_decide_eq_true. cbn [matches]. split.
  - intros [(a & Ha & [Hi|Hc])|Hattr]; [| |by right].
    + left. left. exists a. by rewrite bool_decide_eq_true.
    + left. right. exists a. by rewrite bool_decide_eq_true.
  - intros [[(a & Ha & Hm)|(a & Ha & Hm)]|Hattr]; [| |by right];
      apply bool_decide_eq_true in Hm; left; exists a; eauto.
Qed.

Lemma added_by_us_spec (n : dom_node) :
  added_by_us n = true ↔ ∃ e, n = ElementNode e ∧ marked e.
Proof.
  destruct n as [e| |]; cbn [added_by_us nodeType].
  - unfold marked, hasAttribute, ELEMENT_NODE.
    rewrite andb_true_iff, !orb_true_iff, !bool_decide_eq_true. split.
    + intros [_ H]. exists e. split; [done | tauto].
    + intros (e' & [= <-] & H). split; [done | tauto].
  - split; [done | by intros (e & [=] & _)].
  - split; [done | by intros (e & [=] & _)].
Qed.

(** A mutation passes the filter exactly when its target is not the
    pipeline's own and none of the added element nodes is marked. *)
Lemma relevant_spec (mu : MutationRecord) :
  relevant mu = true ↔
  ¬ own_target (target mu) ∧ ¬ (∃ e, ElementNode e ∈ addedNodes mu ∧ marked e).
Proof.
  unfold relevant. rewrite own_target_spec.
  destruct (truthy _ || truthy _ || hasAttribute _ _) eqn:E1.
  { split; [done | by intros [[] _]]. }
  destruct (existsb added_by_us (addedNodes mu)) eqn:E2.
  - split; [done |]. intros [_ []].
    apply existsb_exists in E2 as (n & Hin & Hn).
    apply added_by_us_spec in Hn as (e & -> & Hm).
    exists e. split; [by apply list_elem_of_In | done].
  - split; [|done]. intros _. split; [done |].
    intros (e & Hin & Hm).
    assert (existsb added_by_us (addedNodes mu) = true); [|congruence].
    apply existsb_exists. exists (ElementNode e).
    split; [by apply list_elem_of_In |]. apply added_by_us_spec. eauto.
Qed.

(** The write that [hideShort] makes, an overlay inserted under an unmarked
    parent, is filtered out as well. *)
Lemma marked_insertion_not_relevant (mu : MutationRecord) (e : element) :
  ElementNode e ∈ addedNodes mu -> marked e -> relevant mu = false.
Proof.
  intros Hin Hm. apply not_true_is_false. rewrite relevant_spec.
  intros [_ []]. eauto.
Qed.

(** C4. When every mutation of a batch is one the pipeline made itself, the
    filter keeps no mutation and the callback leaves the debounce state as
    it is: no timer is armed, so no run of [processPage] is scheduled.  A
    mutation counts as the pipeline's own when its target lies inside one of
    the pipeline's containers or carries the marking attribute, or when one
    of the element nodes it adds is marked.  The second case is the write of
    [hideShort], which inserts an overlay under a parent that belongs to the
    page; a batch whose targets are all the pipeline's own and whose added
    element nodes are all marked falls under the first. *)
Theorem own_mutations_schedule_nothing {D : Type} (extensionEnabled : bool)
    (mutations : list MutationRecord) (d : Debounce.state D) :
  Forall (fun mu => own_target (target mu) ∨
                    ∃ e, ElementNode e ∈ addedNodes mu ∧ marked e) mutations ->
  relevantMutations mutations = []
  ∧ callback extensionEnabled mutations d = d.
Proof.
  intros H.
  assert (E : relevantMutations mutations = []).
  { unfold relevantMutations. induction H as [|mu mus Hmu _ IH]; [done |].
    cbn [List.filter]. destruct (relevant mu) eqn:Er; [|exact IH].
    apply relevant_spec in Er as [Hn Ha]. by destruct Hmu. }
  split; [exact E |]. unfold callback. rewrite E. cbn.
  by destruct extensionEnabled.
Qed.

Lemma own_mutations_schedule_nothing_witness :
  ¬ own_target (target Examples.overlay_inserted)
  ∧ relevantMutations [Examples.overlay_inserted; Examples.inside_overlay] = []
  ∧ callback true [Examples.overlay_inserted; Examples.inside_overlay]
      (Debounce.create Timers.empty 0)
    = Debounce.create Timers.empty 0.
Proof.
  split; [rewrite own_target_spec; vm_compute; discriminate |].
  apply own_mutations_schedule_nothing.
  constructor; [|constructor; [|constructor]].
  - (* the overlay inserted under the shelf, which belongs to the page *)
    right. exists Examples.overlay. split.
    + apply list_elem_of_here.
    + right. left. apply list_elem_of_here.
  - (* the label of the toggle button rewritten inside the overlay *)
    left. left. exists Examples.overlay. split.
    + apply list_elem_of_further, list_elem_of_here.
    + right. apply list_elem_of_here.
Defined.

(** A mutation made by the page itself, in the same batch as the insertion of
    an overlay, does arm the timer. *)
Example page_mutation_arms_timer :
  relevantMutations [Examples.overlay_inserted; Examples.page_render]
  = [Examples.page_render]
  ∧ Timers.pending
      (Debounce.timers
         (callback true [Examples.overlay_inserted; Examples.page_render]
                   (Debounce.create Timers.empty 0)))
    = [Timers.Timer 1 1000 tt].
Proof. vm_compute. split; reflexivity. Qed.

End Observer.

(** ** debounce *)

Section DebounceFacts.
Import Debounce Invariant.
Context {D : Type} (func : D -> D) (delay : nat).
Implicit Types (st : Debounce.state D) (a : D).

Lemma run_app (es1 es2 : list event) st :
  Debounce.run func delay (es1 ++ es2) st
  = Debounce.run func delay es2 (Debounce.run func delay es1 st).
Proof. apply foldl_app. Qed.

Lemma trace_app (es1 es2 : list event) st :
  Debounce.trace func delay (es1 ++ es2) st
  = Debounce.trace func delay es1 st
    ++ tail (Debounce.trace func delay es2 (Debounce.run func delay es1 st)).
Proof.
  revert st. induction es1 as [|e es1 IH]; intros st.
  - cbn. by destruct es2.
  - change ((e :: es1) ++ es2) with (e :: (es1 ++ es2)).
    cbn [Debounce.trace]. rewrite IH. reflexivity.
Qed.

(** A call replaces whatever timer was armed by a new one. *)
Lemma debounced_waiting st :
  single_timer st -> Debounce.waiting (app st) delay (Debounce.debounced delay st).
Proof.
  intros Hs. split; [reflexivity |].
  exists (Timers.next_timer (timers st)).
  unfold Debounce.debounced.
  destruct Hs as [Hp|(id & dl & Hp & Hid)].
  - destruct (timeoutId st); cbn; rewrite Hp; done.
  - rewrite Hid. cbn. rewrite Hp. cbn.
    rewrite decide_False by (by intros []). done.
Qed.

Lemma waiting_single_timer a k st : Debounce.waiting a k st -> single_timer st.
Proof. intros [_ (id & Hp & Hid)]. right. eauto. Qed.

Lemma fired_single_timer a st : Debounce.fired func a st -> single_timer st.
Proof. intros [_ Hp]. by left. Qed.

(** One millisecond before the deadline is reached. *)
Lemma tick_waiting a k st :
  Debounce.waiting a (S (S k)) st ->
  Debounce.waiting a (S k) (Debounce.tick func st).
Proof.
  intros [Ha (id & Hp & Hid)]. split; [|exists id; split; [|done]].
  - unfold Debounce.tick. cbn. rewrite Hp. cbn.
    unfold Timers.due. cbn. rewrite decide_False by lia. by cbn.
  - unfold Debounce.tick. cbn. rewrite Hp. cbn.
    unfold Timers.due. cbn. rewrite decide_True by lia.
    do 2 f_equal. lia.
Qed.

(** The millisecond in which the deadline is reached: [func] runs once. *)
Lemma tick_fires a k st :
  k ≤ 1 -> Debounce.waiting a k st ->
  Debounce.fired func a (Debounce.tick func st).
Proof.
  intros Hk [Ha (id & Hp & Hid)]. split.
  - unfold Debounce.tick. cbn. rewrite Hp. cbn.
    unfold Timers.due. cbn. rewrite decide_True by lia. cbn. by rewrite Ha.
  - unfold Debounce.tick. cbn. rewrite Hp. cbn.
    unfold Timers.due. cbn. rewrite decide_False by lia. done.
Qed.

Lemma tick_fired a st :
  Debounce.fired func a st -> Debounce.fired func a (Debounce.tick func st).
Proof.
  intros [Ha Hp]. split; unfold Debounce.tick; cbn; rewrite Hp; done.
Qed.

Lemma ticks_fired a (d : nat) st :
  Debounce.fired func a st ->
  Debounce.fired func a (Debounce.run func delay (replicate d Tick) st).
Proof.
  revert st. induction d as [|d IH]; intros st H; [done |].
  cbn. apply IH. by apply tick_fired.
Qed.

(** Fewer ticks than the remaining time: the timer is still armed and every
    state on the way has the old data. *)
Lemma ticks_waiting a (g k : nat) st :
  g < k -> Debounce.waiting a k st ->
  Debounce.waiting a (k - g) (Debounce.run func delay (replicate g Tick) st)
  ∧ Forall (fun x => app x = a ∧ List.length (Timers.pending (timers x)) ≤ 1)
           (Debounce.trace func delay (replicate g Tick) st).
Proof.
  revert k st. induction g as [|g IH]; intros k st Hg H.
  - cbn. rewrite Nat.sub_0_r. split; [done |].
    constructor; [|constructor]. destruct H as [Ha (id & Hp & _)].
    rewrite Hp. cbn. split; [done | lia].
  - destruct k as [|[|k]]; [lia | lia |].
    cbn [replicate Debounce.run foldl Debounce.trace Debounce.step].
    destruct (IH (S k) (Debounce.tick func st)) as [H1 H2];
      [lia | by apply tick_waiting |].
    split; [exact H1 |].
    constructor; [|exact H2]. destruct H as [Ha (id & Hp & _)].
    rewrite Hp. cbn. split; [done | lia].
Qed.

(** At least as many ticks as the remaining time: the timer has fired. *)
Lemma ticks_fire a (d k : nat) st :
  k ≤ d -> 0 < d -> Debounce.waiting a k st ->
  Debounce.fired func a (Debounce.run func delay (replicate d Tick) st).
Proof.
  revert k st. induction d as [|d IH]; intros k st Hk Hd H; [lia |].
  cbn [replicate Debounce.run foldl Debounce.step].
  destruct k as [|[|k]].
  - apply (ticks_fired a d). by apply (tick_fires a 0); [lia |].
  - apply (ticks_fired a d). by apply (tick_fires a 1); [lia |].
  - apply (IH (S k)); [lia | lia | by apply tick_waiting].
Qed.

(** Every event keeps the queue at one timer at most. *)
Lemma step_single_timer st (e : event) :
  single_timer st -> single_timer (Debounce.step func delay st e).
Proof.
  intros H. destruct e; cbn [Debounce.step].
  - eapply waiting_single_timer, debounced_waiting, H.
  - destruct H as [Hp|(id & dl & Hp & Hid)].
    + left. unfold Debounce.tick. cbn. by rewrite Hp.
    + unfold Debounce.tick, single_timer. cbn. rewrite Hp. cbn.
      unfold Timers.due. cbn.
      destruct (decide (¬ dl ≤ S (Timers.now (timers st)))); [|by left].
      right. eauto.
Qed.

Lemma trace_single_timer (es : list event) st :
  single_timer st ->
  Forall (fun x => List.length (Timers.pending (timers x)) ≤ 1)
         (Debounce.trace func delay es st).
Proof.
  revert st. induction es as [|e es IH]; intros st H; cbn [Debounce.trace];
    (constructor; [destruct H as [->|(id & dl & -> & _)]; cbn; lia |]).
  - constructor.
  - apply IH. by apply step_single_timer.
Qed.

(** The calls after the first, each arriving before the timer of the call
    before it elapses. *)
Lemma later_calls_waiting a (gaps : list nat) st :
  Forall (fun g => g < delay) gaps -> Debounce.waiting a delay st ->
  let es := flat_map (fun g => replicate g Tick ++ [Call]) gaps in
  Debounce.waiting a delay (Debounce.run func delay es st)
  ∧ Forall (fun x => app x = a ∧ List.length (Timers.pending (timers x)) ≤ 1)
           (Debounce.trace func delay es st).
Proof.
  intros Hg. revert st. induction Hg as [|g gaps Hlt _ IH]; intros st H; cbn zeta.
  - cbn. split; [done |]. constructor; [|constructor].
    destruct H as [Ha (id & Hp & _)]. rewrite Hp. cbn. split; [done | lia].
  - cbn [flat_map]. rewrite <- app_assoc, run_app, trace_app.
    destruct (ticks_waiting a g delay st Hlt H) as [H1 H2].
    assert (H3 : Debounce.waiting a delay
                   (Debounce.debounced delay
                      (Debounce.run func delay (replicate g Tick) st))).
    { destruct H1 as [Ha ?].
      rewrite <- Ha at 1. eapply debounced_waiting, waiting_single_timer.
      split; [exact Ha | done]. }
    destruct (IH _ H3) as [H4 H5].
    split; [exact H4 |].
    apply Forall_app. split; [exact H2 |]. exact H5.
Qed.

(** Take a closure with no timer armed and call it N times, N at least 1,
    each call after the first fewer than [delay] milliseconds after the call
    before it.  During the burst [func] does not run and at most one timer is
    armed; once [delay] milliseconds have passed after the last call, [func]
    has run exactly once, on the data the burst started with, and no timer is
    left.  At most one timer is armed at every moment of the whole run. *)
Lemma burst_coalesces (gaps : list nat) (d : nat) st :
  Timers.pending (timers st) = [] ->
  Forall (fun g => g < delay) gaps ->
  delay ≤ d -> 0 < d ->
  Forall (fun x => app x = app st ∧ List.length (Timers.pending (timers x)) ≤ 1)
         (Debounce.trace func delay (burst gaps) st)
  ∧ Forall (fun x => List.length (Timers.pending (timers x)) ≤ 1)
           (Debounce.trace func delay (burst gaps ++ replicate d Tick) st)
  ∧ app (Debounce.run func delay (burst gaps ++ replicate d Tick) st) = func (app st)
  ∧ Timers.pending
      (timers (Debounce.run func delay (burst gaps ++ replicate d Tick) st)) = [].
Proof.
  intros Hp Hg Hd Hpos.
  assert (Hs : single_timer st) by (by left).
  pose proof (debounced_waiting st Hs) as Hw.
  destruct (later_calls_waiting (app st) gaps (Debounce.debounced delay st) Hg Hw)
    as [H1 H2].
  cbn zeta in *.
  assert (Hf : Debounce.fired func (app st)
                 (Debounce.run func delay (burst gaps ++ replicate d Tick) st)).
  { rewrite run_app. unfold burst. cbn [Debounce.run foldl Debounce.step].
    by apply (ticks_fire (app st) d delay). }
  split_and!.
  - unfold burst. cbn [Debounce.trace Debounce.step].
    constructor; [|exact H2]. rewrite Hp. cbn. split; [done | lia].
  - by apply trace_single_timer.
  - apply Hf.
  - apply Hf.
Qed.

End DebounceFacts.

Example burst_of_four :
  Debounce.app
    (Debounce.run S CONFIG.DEBOUNCE_DELAY
       (Debounce.burst [300; 999; 0] ++ replicate 1000 Debounce.Tick)
       (Debounce.create Timers.empty 0))
  = 1.
Proof.
  refine (proj1 (proj2 (proj2
    (burst_coalesces S CONFIG.DEBOUNCE_DELAY [300; 999; 0] 1000
       (Debounce.create Timers.empty 0) _ _ _ _)))).
  - reflexivity.
  - repeat constructor; unfold CONFIG.DEBOUNCE_DELAY; lia.
  - unfold CONFIG.DEBOUNCE_DELAY. lia.
  - lia.
Qed.

(** ** Mutation batches and the passes they cause *)

Section ObservedBatches.
Import MutationObserver Observation.
Implicit Types (st : script) (es : list event).

Lemma observed_run_app es1 es2 st :
  Observation.run (es1 ++ es2) st = Observation.run es2 (Observation.run es1 st).
Proof. apply foldl_app. Qed.

Lemma observed_trace_app es1 es2 st :
  Observation.trace (es1 ++ es2) st
  = Observation.trace es1 st
    ++ tail (Observation.trace es2 (Observation.run es1 st)).
Proof.
  revert st. induction es1 as [|e es1 IH]; intros st.
  - cbn. by destruct es2.
  - change ((e :: es1) ++ es2) with (e :: (es1 ++ es2)).
    cbn [Observation.trace]. rewrite IH. reflexivity.
Qed.

(** A qualifying batch makes the enabled callback call the debounced
    function. *)
Lemma deliver_qualifying (mutations : list MutationRecord) st :
  YouTubeDetoxController.extensionEnabled (Debounce.app st).1 = true ->
  qualifying mutations ->
  Observation.step st (Deliver mutations)
  = Debounce.debounced CONFIG.DEBOUNCE_DELAY st.
Proof.
  intros He (mu & Hin & Hr). cbn [Observation.step]. unfold callback.
  rewrite He. cbn [negb].
  rewrite bool_decide_eq_true_2; [reflexivity |].
  unfold relevantMutations.
  assert (Hf : mu ∈ List.filter relevant mutations).
  { apply list_elem_of_In, filter_In. split; [by apply list_elem_of_In | done]. }
  destruct (List.filter relevant mutations); [by apply elem_of_nil in Hf | cbn; lia].
Qed.

(** While the extension is enabled, a run in which every batch qualifies is
    the run of the closure on the calls it makes. *)
Lemma observed_as_calls es st :
  Forall (fun e => match e with Deliver b => qualifying b | Tick => True end) es ->
  Forall (fun x => YouTubeDetoxController.extensionEnabled (Debounce.app x).1 = true)
         (Debounce.trace pass CONFIG.DEBOUNCE_DELAY (calls_of es) st) ->
  Observation.trace es st = Debounce.trace pass CONFIG.DEBOUNCE_DELAY (calls_of es) st
  ∧ Observation.run es st = Debounce.run pass CONFIG.DEBOUNCE_DELAY (calls_of es) st.
Proof.
  intros Hq. revert st. induction Hq as [|e es He _ IH]; intros st Hen; [done |].
  cbn [calls_of map Debounce.trace] in Hen. apply Forall_cons in Hen as [Hst Hen].
  assert (E : Observation.step st e
              = Debounce.step pass CONFIG.DEBOUNCE_DELAY st
                  (match e with Deliver _ => Debounce.Call | Tick => Debounce.Tick end)).
  { destruct e as [b|]; [by apply deliver_qualifying | reflexivity]. }
  cbn [Observation.trace Observation.run foldl calls_of map Debounce.trace
       Debounce.run].
  rewrite E. fold (calls_of es).
  destruct (IH _ Hen) as [-> H2]. split; [reflexivity |]. exact H2.
Qed.

Lemma observed_ticks (d : nat) st :
  Observation.trace (replicate d Tick) st
  = Debounce.trace pass CONFIG.DEBOUNCE_DELAY (replicate d Debounce.Tick) st
  ∧ Observation.run (replicate d Tick) st
    = Debounce.run pass CONFIG.DEBOUNCE_DELAY (replicate d Debounce.Tick) st.
Proof.
  revert st. induction d as [|d IH]; intros st; [done |].
  cbn [replicate Observation.trace Observation.run foldl Debounce.trace
       Debounce.run Observation.step Debounce.step].
  destruct (IH (Debounce.tick pass st)) as [-> H2]. split; [reflexivity | exact H2].
Qed.

Lemma calls_of_arrivals first later :
  calls_of (arrivals first later) = Debounce.burst (map fst later).
Proof.
  unfold arrivals, Debounce.burst, calls_of. cbn [map]. f_equal.
  induction later as [|[g b] later IH]; [done |].
  cbn [flat_map map fst snd]. rewrite !map_app, IH. f_equal.
  cbn [map]. f_equal. induction g as [|g IHg]; [done |]. cbn. by f_equal.
Qed.

Lemma arrivals_deliver_qualifying first later :
  qualifying first -> Forall (fun gb => qualifying gb.2) later ->
  Forall (fun e => match e with Deliver b => qualifying b | Tick => True end)
         (arrivals first later).
Proof.
  intros H1 H2. constructor; [done |].
  induction H2 as [|[g b] later Hb _ IH]; [constructor |].
  cbn [flat_map]. rewrite !Forall_app. split_and!; [|by repeat constructor | exact IH].
  apply Forall_forall. intros e He. apply elem_of_replicate in He as [-> _]. done.
Qed.

(** A burst leaves the timer of its last call armed for the full delay. *)
Lemma burst_waiting {D : Type} (func : D -> D) (delay : nat) (gaps : list nat)
    (st : Debounce.state D) :
  Timers.pending (Debounce.timers st) = [] ->
  Forall (fun g => g < delay) gaps ->
  Debounce.waiting (Debounce.app st) delay
    (Debounce.run func delay (Debounce.burst gaps) st).
Proof.
  intros Hp Hg.
  assert (Hs : Invariant.single_timer st) by (by left).
  pose proof (debounced_waiting delay st Hs) as Hw.
  exact (proj1 (later_calls_waiting func delay (Debounce.app st) gaps
                  (Debounce.debounced delay st) Hg Hw)).
Qed.

(** C6. With the extension enabled and no timer armed, let N qualifying
    batches reach the callback, N at least 1, each one after the first fewer
    than [DEBOUNCE_DELAY] milliseconds after the batch before it.  While they
    arrive no pass runs and at most one timer is armed; after each batch the
    one timer is due a full delay later, so the batch has restarted it; once
    the delay has passed after the last batch, [processPage] has run exactly
    once, on the state the first batch found, and no timer is left.  At most
    one timer is armed at every moment of the whole run. *)
Theorem qualifying_batches_one_pass (first : list MutationRecord)
    (later : list (nat * list MutationRecord)) (d : nat) st :
  YouTubeDetoxController.extensionEnabled (Debounce.app st).1 = true ->
  Timers.pending (Debounce.timers st) = [] ->
  qualifying first ->
  Forall (fun gb => gb.1 < CONFIG.DEBOUNCE_DELAY ∧ qualifying gb.2) later ->
  CONFIG.DEBOUNCE_DELAY ≤ d ->
  let es := arrivals first later ++ replicate d Tick in
  Forall (fun x => Debounce.app x = Debounce.app st
                   ∧ List.length (Timers.pending (Debounce.timers x)) ≤ 1)
         (Observation.trace (arrivals first later) st)
  ∧ (∀ k, Debounce.waiting (Debounce.app st) CONFIG.DEBOUNCE_DELAY
            (Observation.run (arrivals first (take k later)) st))
  ∧ Forall (fun x => List.length (Timers.pending (Debounce.timers x)) ≤ 1)
           (Observation.trace es st)
  ∧ Debounce.app (Observation.run es st) = pass (Debounce.app st)
  ∧ Timers.pending (Debounce.timers (Observation.run es st)) = [].
Proof.
  intros Hen Hp Hq1 Hl Hd. cbv zeta.
  assert (Hpos : 0 < d) by (unfold CONFIG.DEBOUNCE_DELAY in Hd; lia).
  assert (Hsame : ∀ l, Forall (fun gb => gb.1 < CONFIG.DEBOUNCE_DELAY ∧ qualifying gb.2) l ->
            Forall (fun x => Debounce.app x = Debounce.app st
                             ∧ List.length (Timers.pending (Debounce.timers x)) ≤ 1)
                   (Debounce.trace pass CONFIG.DEBOUNCE_DELAY
                      (Debounce.burst (map fst l)) st)
            ∧ Observation.trace (arrivals first l) st
              = Debounce.trace pass CONFIG.DEBOUNCE_DELAY (Debounce.burst (map fst l)) st
            ∧ Observation.run (arrivals first l) st
              = Debounce.run pass CONFIG.DEBOUNCE_DELAY (Debounce.burst (map fst l)) st).
  { intros l Hl'.
    assert (Hg : Forall (fun g => g < CONFIG.DEBOUNCE_DELAY) (map fst l)).
    { apply Forall_fmap. eapply Forall_impl; [exact Hl' |]. by intros ? [? _]. }
    pose proof (proj1 (burst_coalesces pass CONFIG.DEBOUNCE_DELAY (map fst l) d st
                         Hp Hg Hd Hpos)) as Hb.
    split; [exact Hb |].
    rewrite <- (calls_of_arrivals first l). apply observed_as_calls.
    - apply arrivals_deliver_qualifying; [done |].
      eapply Forall_impl; [exact Hl' |]. by intros ? [_ ?].
    - rewrite calls_of_arrivals. eapply Forall_impl; [exact Hb |].
      intros x [Hx _].
      exact (eq_ind_r (fun a => YouTubeDetoxController.extensionEnabled a.1 = true)
                      Hen Hx). }
  destruct (Hsame later Hl) as (Hb & Et & Er).
  assert (Hg : Forall (fun g => g < CONFIG.DEBOUNCE_DELAY) (map fst later)).
  { apply Forall_fmap. eapply Forall_impl; [exact Hl |]. by intros ? [? _]. }
  destruct (burst_coalesces pass CONFIG.DEBOUNCE_DELAY (map fst later) d st
              Hp Hg Hd Hpos) as (_ & H2 & H3 & H4).
  assert (Ert : Observation.run (arrivals first later ++ replicate d Tick) st
                = Debounce.run pass CONFIG.DEBOUNCE_DELAY
                    (Debounce.burst (map fst later) ++ replicate d Debounce.Tick) st).
  { rewrite observed_run_app, run_app, Er. apply observed_ticks. }
  split_and!.
  - by rewrite Et.
  - intros k.
    destruct (Hsame (take k later) (Forall_take _ _ _ Hl)) as (_ & _ & ->).
    apply burst_waiting; [done |].
    apply Forall_fmap. eapply Forall_impl; [exact (Forall_take _ _ _ Hl) |].
    by intros ? [? _].
  - rewrite observed_trace_app, Et, Er, (proj1 (observed_ticks d _)).
    refine (eq_ind _ (Forall _) H2 _ _).
    apply (trace_app pass CONFIG.DEBOUNCE_DELAY).
  - by rewrite Ert.
  - by rewrite Ert.
Qed.

Lemma qualifying_batches_one_pass_witness :
  Debounce.app
    (Observation.run
       (arrivals [Examples.overlay_inserted; Examples.page_render]
                 [(300, [Examples.page_render]); (999, [Examples.page_render])]
        ++ replicate 1000 Tick)
       (Debounce.create Timers.empty (Examples.start Examples.feed)))
  = Examples.suppressed.
Proof.
  refine (proj1 (proj2 (proj2 (proj2
    (qualifying_batches_one_pass
       [Examples.overlay_inserted; Examples.page_render]
       [(300, [Examples.page_render]); (999, [Examples.page_render])] 1000
       (Debounce.create Timers.empty (Examples.start Examples.feed)) _ _ _ _ _))))).
  - reflexivity.
  - reflexivity.
  - exists Examples.page_render. split; [set_solver | reflexivity].
  - repeat constructor; cbn; try (unfold CONFIG.DEBOUNCE_DELAY; lia);
      (exists Examples.page_render; split; [set_solver | reflexivity]).
  - unfold CONFIG.DEBOUNCE_DELAY. lia.
Defined.

End ObservedBatches.

(** ** A pass on a shorts page *)

Create HintDb stays discriminated.

Section Stays.
Implicit Types (u : string) (v : list string).

Lemma stays_same {A} u v (m : js browser A) :
  (∀ b, href (exec m b) = href b ∧ sent (exec m b) = sent b) ->
  preserves (same_page u v) m.
Proof. intros E b [H1 H2]. destruct (E b) as [E1 E2]. split; congruence. Qed.

Lemma stays_console_log u v msg a : preserves (same_page u v) (console_log msg a).
Proof. by apply stays_same. Qed.

Lemma stays_console_warn u v msg a : preserves (same_page u v) (console_warn msg a).
Proof. by apply stays_same. Qed.

Lemma stays_update_node u v n f : preserves (same_page u v) (update_node n f).
Proof. by apply stays_same. Qed.

Lemma stays_querySelectorAll u v sel : preserves (same_page u v) (querySelectorAll sel).
Proof.
  apply stays_same. intros b. unfold exec, querySelectorAll.
  destruct (decide (sel = "")); [done |]. by destruct (query b sel).
Qed.

Lemma stays_get_body_overflow u v :
  preserves (same_page u v) ScrollPreventer.get_body_overflow.
Proof.
  apply stays_same. intros b. unfold exec, ScrollPreventer.get_body_overflow.
  by destruct (body b).
Qed.

Lemma stays_set_body_overflow u v x :
  preserves (same_page u v) (ScrollPreventer.set_body_overflow x).
Proof.
  apply stays_same. intros b. unfold exec, ScrollPreventer.set_body_overflow.
  by destruct (body b).
Qed.

Lemma stays_addEventListener u v l : preserves (same_page u v) (addEventListener l).
Proof. by apply stays_same. Qed.

Lemma stays_removeEventListener u v l :
  preserves (same_page u v) (removeEventListener l).
Proof. by apply stays_same. Qed.

Lemma stays_page {O A} u v (m : js browser A) :
  preserves (same_page u v) m ->
  preserves (fun s : O * browser => same_page u v s.2) (page m).
Proof.
  intros Hm. apply (preserves_zoom _ (same_page u v)); [done | done | exact Hm].
Qed.

Lemma stays_self {O A} u v (m : js O A) :
  preserves (fun s : O * browser => same_page u v s.2) (self m).
Proof.
  apply (preserves_zoom _ (fun _ => True)); [done | done | done].
Qed.

End Stays.

#[global] Hint Resolve stays_console_log stays_console_warn stays_update_node
  stays_querySelectorAll stays_get_body_overflow stays_set_body_overflow
  stays_addEventListener stays_removeEventListener stays_self : stays.

Ltac stays :=
  repeat first
    [ apply preserves_bind; [|intros ?]
    | apply preserves_ret
    | apply preserves_gets
    | apply preserves_if
    | apply preserves_for_of; intros ?
    | apply preserves_try_catch; [|intros ?]
    | apply stays_page
    | solve [eauto with stays] ].

Section ShortsPagePass.
Import YouTubeDetoxController Pass.
Implicit Types (s : state) (u : string) (v : list string).

Lemma stays_update u v :
  preserves (fun t : ScrollPreventer.t * browser => same_page u v t.2)
            ScrollPreventer.update.
Proof.
  unfold ScrollPreventer.update, ScrollPreventer.enable, ScrollPreventer.disable,
    isShortsPage.
  stays.
Qed.

Lemma stays_removeNavigationButtons u v :
  preserves (fun t : NavigationButtonRemover.t * browser => same_page u v t.2)
            NavigationButtonRemover.removeNavigationButtons.
Proof.
  unfold NavigationButtonRemover.removeNavigationButtons,
    NavigationButtonRemover.hide_button, isShortsPage, safeQuerySelectorAll.
  stays.
Qed.

Lemma at_page_stage_scroll u v k : preserves (at_page u v k) stage_scroll.
Proof.
  apply (preserves_zoom _ (fun t => same_page u v t.2)).
  - by intros s [H _].
  - intros s t [_ Hk] Ht. split; [exact Ht | by destruct s as [[] ?]].
  - apply stays_update.
Qed.

Lemma at_page_stage_buttons u v k : preserves (at_page u v k) stage_buttons.
Proof.
  apply (preserves_zoom _ (fun t => same_page u v t.2)).
  - by intros s [H _].
  - intros s t [_ Hk] Ht. split; [exact Ht | by destruct s as [[] ?]].
  - apply stays_removeNavigationButtons.
Qed.

Lemma stage_shorts_on_shorts_page s :
  SHORTS_PAGE_test (href s.2) = true -> stage_shorts s = (Normal tt, s).
Proof.
  intros H. destruct (includes_inv _ _ H) as (pre & post & E).
  destruct s as [c b].
  exact (proj2 (processShorts_returns_on_shorts_page (shortsBlocker c, b) pre post E)
               c eq_refl).
Qed.

(** The last stage, by the home-page test. *)
Lemma stage_savedTabs_spec s :
  stage_savedTabs s =
  (Normal tt,
   (s.1,
    if HOMEPAGE_test (href s.2)
    then set_sent (fun m => m ++ [MESSAGE_TYPES.GET_SAVED_TABS])
           (set_console
              (fun c => c ++ [Log LOG "[YT Detox] On homepage, showing saved tabs UI" NoArg])
              s.2)
    else set_console
           (fun c => c ++ [Log LOG "[YT Detox] Not on homepage, current URL:"
                               (Str (href s.2))])
           s.2)).
Proof.
  destruct s as [c b].
  cbv beta iota zeta delta [stage_savedTabs mbind js_bind bind gets mret js_ret
    ret page zoom isHomePage fst snd].
  destruct (HOMEPAGE_test (href b)); [|reflexivity].
  cbv beta iota zeta delta [console_log modify on_savedTabsUI zoom
    SavedTabsUI.refresh page fst snd savedTabsUI set_savedTabsUI].
  by destruct c as [? ? ? []].
Qed.

(** The stages of a pass on a shorts page are the three other stages. *)
Lemma stages_on_shorts_page s :
  SHORTS_PAGE_test (href s.2) = true ->
  sequence stages s = sequence [stage_scroll; stage_buttons; stage_savedTabs] s.
Proof.
  intros H. unfold stages.
  rewrite (sequence_cons stage_scroll), (sequence_cons stage_scroll _ s).
  pose proof (at_page_stage_scroll _ _ _ s (conj (conj eq_refl eq_refl) eq_refl)) as H1.
  unfold exec in H1. destruct (stage_scroll s) as [[[]|e1] s1]; [|done].
  cbn [snd] in H1.
  rewrite (sequence_cons stage_buttons), (sequence_cons stage_buttons _ s1).
  pose proof (at_page_stage_buttons _ _ _ s1 H1) as H2.
  unfold exec in H2. destruct (stage_buttons s1) as [[[]|e2] s2]; [|done].
  cbn [snd] in H2. destruct H2 as [[Hu _] _].
  rewrite (sequence_cons stage_shorts).
  rewrite stage_shorts_on_shorts_page by (by rewrite Hu). reflexivity.
Qed.

(** C10, as the code has it.  On a URL that contains /shorts/
    [processShorts] returns before it looks for anything, whatever the page
    holds: it completes normally and the state (nodes, both sets, console)
    is unchanged.  A pass of [processPage] on such a URL is the pass made of
    the three other stages, scroll prevention, navigation-button removal and
    the home-page stage, and it leaves both tracking sets as they were.
    When the first two stages return, the home-page stage posts the request
    for the saved tabs exactly when the URL also matches the home pattern,
    which a URL with /shorts/ in its query can do. *)
Theorem shorts_page_pass s :
  SHORTS_PAGE_test (href s.2) = true ->
  extensionEnabled s.1 = true -> isProcessing s.1 = false ->
  (∀ o, ShortsBlocker.processShorts (o, s.2) = (Normal tt, (o, s.2)))
  ∧ processPage s =
      match sequence [stage_scroll; stage_buttons; stage_savedTabs] (entered s) with
      | (Normal _, s') => (Normal tt, (set_isProcessing false s'.1, s'.2))
      | (Throw e, s') => (Normal tt, aborted e s')
      end
  ∧ shortsBlocker (exec processPage s).1 = shortsBlocker s.1
  ∧ (∀ s2, sequence [stage_scroll; stage_buttons] (entered s) = (Normal tt, s2) ->
       sent (exec processPage s).2
       = sent s.2 ++ (if HOMEPAGE_test (href s.2)
                      then [MESSAGE_TYPES.GET_SAVED_TABS] else [])).
Proof.
  intros H He Hp.
  assert (E : processPage s =
      match sequence [stage_scroll; stage_buttons; stage_savedTabs] (entered s) with
      | (Normal _, s') => (Normal tt, (set_isProcessing false s'.1, s'.2))
      | (Throw e, s') => (Normal tt, aborted e s')
      end).
  { rewrite (processPage_entered s He Hp).
    by rewrite (stages_on_shorts_page (entered s)) by exact H. }
  assert (I0 : at_page (href s.2) (sent s.2) (shortsBlocker s.1) (entered s)).
  { split; [by split | by destruct s as [[] ?]]. }
  pose proof (at_page_stage_scroll _ _ _ _ I0) as I1.
  split_and!.
  - intros o. destruct (includes_inv _ _ H) as (pre & post & Eu).
    exact (proj1 (processShorts_returns_on_shorts_page (o, s.2) pre post Eu)).
  - exact E.
  - unfold exec at 1. rewrite E. rewrite (sequence_cons stage_scroll).
    unfold exec in I1. destruct (stage_scroll (entered s)) as [[[]|e1] s1]; cbn [snd] in I1.
    + rewrite (sequence_cons stage_buttons).
      pose proof (at_page_stage_buttons _ _ _ _ I1) as I2. unfold exec in I2.
      destruct (stage_buttons s1) as [[[]|e2] s2]; cbn [snd] in I2.
      * rewrite (sequence_cons stage_savedTabs), stage_savedTabs_spec.
        destruct I2 as [_ Hk]. cbn. by destruct s2 as [[] ?].
      * destruct I2 as [_ Hk]. cbn. by destruct s2 as [[] ?].
    + destruct I1 as [_ Hk]. cbn. by destruct s1 as [[] ?].
  - intros s2 Hs2. unfold exec at 1. rewrite E.
    rewrite (sequence_cons stage_scroll) in Hs2 |- *.
    unfold exec in I1. destruct (stage_scroll (entered s)) as [[[]|e1] s1];
      cbn [snd] in I1; [|done].
    rewrite (sequence_cons stage_buttons) in Hs2 |- *.
    pose proof (at_page_stage_buttons _ _ _ _ I1) as I2. unfold exec in I2.
    destruct (stage_buttons s1) as [[[]|e2] s2']; cbn [snd] in I2; [|done].
    rewrite (sequence_cons stage_savedTabs), stage_savedTabs_spec.
    destruct I2 as [[Hu Hv] _].
    rewrite Hu. cbn. destruct (HOMEPAGE_test (href s.2)); cbn.
    + by rewrite Hv.
    + by rewrite Hv, app_nil_r.
Qed.

Lemma shorts_page_pass_witness :
  (ShortsBlocker.findShortsElements MoreExamples.shorts_feed).1 = Normal [2; 1]
  ∧ ShortsBlocker.processShorts (ShortsBlocker.constructor, MoreExamples.shorts_feed)
    = (Normal tt, (ShortsBlocker.constructor, MoreExamples.shorts_feed))
  ∧ shortsBlocker (exec processPage (Examples.start MoreExamples.shorts_feed)).1
    = ShortsBlocker.constructor.
Proof.
  pose proof (shorts_page_pass (Examples.start MoreExamples.shorts_feed)
                eq_refl eq_refl eq_refl) as (H1 & _ & H3 & _).
  split_and!; [vm_compute; reflexivity | exact (H1 ShortsBlocker.constructor) | exact H3].
Defined.

(** The text /shorts/ may also sit in the query of a home URL.  The pass then
    prevents scrolling as on a shorts page and posts the request for the
    saved tabs as on the home page. *)
Lemma shorts_page_refreshes_saved_tabs :
  let s := Examples.start MoreExamples.shorts_home in
  SHORTS_PAGE_test (href s.2) = true
  ∧ HOMEPAGE_test (href s.2) = true
  ∧ body (exec processPage s).2 = Some "hidden"
  ∧ sent (exec processPage s).2 = [MESSAGE_TYPES.GET_SAVED_TABS].
Proof. vm_compute. split_and!; reflexivity. Qed.

End ShortsPagePass.

(** * Further properties of the content script *)

(** ** The URL patterns *)

Lemma string_drop_app (p s : string) : string_drop (String.length p) (p +:+ s) = s.
Proof. induction p as [|c p IH]; [done | exact IH]. Qed.

Lemma eat_Some (p s r : string) : eat p s = Some r -> s = p +:+ r.
Proof.
  unfold eat. destruct (String.prefix p s) eqn:E; [|done].
  apply prefix_inv in E as [post ->]. rewrite string_drop_app. by intros [= ->].
Qed.

Lemma eat_app (p r : string) : eat p (p +:+ r) = Some r.
Proof. unfold eat. by rewrite prefix_app, string_drop_app. Qed.

Lemma eat_opt_choice (p s : string) :
  ∃ o, (o = "" ∨ o = p) ∧ s = o +:+ eat_opt p s.
Proof.
  unfold eat_opt. destruct (eat p s) as [r|] eqn:E.
  - exists p. split; [by right | by apply eat_Some].
  - exists "". split; [by left | done].
Qed.

(** X1. [isShortsPage] holds exactly for the URLs in which the text /shorts/
    occurs somewhere, whatever comes before and after it. *)
Theorem SHORTS_PAGE_test_iff (url : string) :
  SHORTS_PAGE_test url = true ↔ ∃ pre post, url = pre +:+ "/shorts/" +:+ post.
Proof.
  split.
  - apply includes_inv.
  - intros (pre & post & ->). apply includes_app.
Qed.

Lemma includes_step (t : string) (c : ascii) (s : string) :
  includes t (String c s) = String.prefix t (String c s) || includes t s.
Proof. reflexivity. Qed.

(** [no_line_terminator] says that none of the four terminators occurs. *)
Lemma no_line_terminator_spec (s : string) :
  no_line_terminator s = true ↔
  ∀ t, t ∈ LineTerminators -> includes t s = false.
Proof.
  unfold LineTerminators. induction s as [|c s IH].
  - split; [|done]. intros _ t Ht.
    rewrite !elem_of_cons, elem_of_nil in Ht.
    destruct Ht as [->|[->|[->|[->|[]]]]]; reflexivity.
  - cbn [no_line_terminator existsb LineTerminators].
    rewrite andb_true_iff, negb_true_iff, !orb_false_iff, IH. split.
    + intros [(H1 & H2 & H3 & H4 & _) H] t Ht.
      rewrite includes_step, (H t Ht), orb_false_r.
      rewrite !elem_of_cons, elem_of_nil in Ht.
      destruct Ht as [->|[->|[->|[->|[]]]]]; assumption.
    + intros H.
      assert (G : ∀ t, t ∈ LineTerminators ->
                       String.prefix t (String c s) = false ∧ includes t s = false).
      { intros t Ht. apply orb_false_iff. rewrite <- includes_step. by apply H. }
      unfold LineTerminators in G. split.
      * split_and!; [| | | |done]; apply G; set_solver.
      * intros t Ht. by apply G.
Qed.

(** X2. [isHomePage] holds exactly for the URLs made of the scheme http or
    https, an optional www. prefix, the host youtube.com, an optional slash
    and an optional query: a question mark followed by anything in which no
    line terminator occurs.  So a port, another host, or a path or fragment
    right after the host makes it false, while everything is accepted after
    the question mark, slashes and a fragment included. *)
Theorem HOMEPAGE_test_iff (url : string) :
  HOMEPAGE_test url = true ↔
  ∃ scheme www slash q,
    (scheme = "http" ∨ scheme = "https") ∧ (www = "" ∨ www = "www.")
    ∧ (slash = "" ∨ slash = "/")
    ∧ (q = "" ∨ ∃ r, q = String "?" r
                     ∧ ∀ t, t ∈ LineTerminators -> includes t r = false)
    ∧ url = scheme +:+ "://" +:+ www +:+ "youtube.com" +:+ slash +:+ q.
Proof.
  setoid_rewrite <- no_line_terminator_spec.
  split.
  - unfold HOMEPAGE_test.
    destruct (eat "http" url) as [r1|] eqn:E1; [|done].
    destruct (eat "://" (eat_opt "s" r1)) as [r2|] eqn:E2; [|done].
    destruct (eat "youtube.com" (eat_opt "www." r2)) as [r3|] eqn:E3; [|done].
    intros H.
    apply eat_Some in E1, E2, E3.
    assert (Hq : eat_opt "/" r3 = "" ∨
                 ∃ r, eat_opt "/" r3 = String "?" r ∧ no_line_terminator r = true).
    { destruct (eat_opt "/" r3) as [|c q]; [by left |]. right.
      apply andb_true_iff in H as [Hc Hr]. apply bool_decide_eq_true in Hc.
      subst c. eauto. }
    destruct (eat_opt_choice "s" r1) as (o1 & Ho1 & C1).
    destruct (eat_opt_choice "www." r2) as (o2 & Ho2 & C2).
    destruct (eat_opt_choice "/" r3) as (o3 & Ho3 & C3).
    remember (eat_opt "/" r3) as q eqn:Eq. clear Eq.
    rewrite E2 in C1. rewrite E3 in C2. subst url r1 r2 r3.
    exists ("http" +:+ o1), o2, o3, q.
    split_and!; [|exact Ho2 | exact Ho3 | exact Hq |].
    + destruct Ho1 as [-> | ->]; auto.
    + destruct Ho1 as [-> | ->]; reflexivity.
  - intros (scheme & www & slash & q & Hs & Hw & Hsl & Hq & ->).
    destruct Hs as [-> | ->], Hw as [-> | ->], Hsl as [-> | ->],
             Hq as [-> | (r & -> & Hr)];
      first [ reflexivity
            | change (true && no_line_terminator r = true); exact Hr ].
Qed.

(** ** Revealing and suppressing one element *)

Section Toggle.
Import ShortsBlocker.
Implicit Types (s : ShortsBlocker.t * browser) (e overlay : nat).

(** One toggle, by the state the element is in. *)
Lemma toggleShortVisibility_spec e overlay s :
  toggleShortVisibility e overlay s =
  (Normal tt,
   if bool_decide (e ∈ sessionVisible s.1) then
     (set_sessionVisible (fun v => v ∖ {[e]}) s.1,
      set_nodes (fun m => alter (set_display "flex") overlay
                            (alter (set_display "none") e m)) s.2)
   else
     (set_sessionVisible (fun v => {[e]} ∪ v) s.1,
      set_nodes (fun m => alter (set_display "none") overlay
                            (alter (set_display "") e m)) s.2)).
Proof.
  destruct s as [o b].
  cbv beta iota zeta delta [toggleShortVisibility mbind js_bind bind gets mret
    js_ret ret page self zoom modify update_node fst snd].
  by destruct (bool_decide (e ∈ sessionVisible o)).
Qed.

Lemma display_after_alter (m : gmap nat node) (n k : nat) (v : string) :
  display <$> alter (set_display v) k m !! n
  = if decide (k = n) then (fun _ => v) <$> m !! n else display <$> m !! n.
Proof.
  rewrite lookup_alter. destruct (decide (k = n)) as [->|]; [|done].
  destruct (m !! n) as [x|]; [|done]. by destruct x.
Qed.

Lemma const_lookup (m : gmap nat node) (n : nat) (v : string) :
  is_Some (m !! n) -> (fun _ : node => v) <$> m !! n = Some v.
Proof. by intros [x ->]. Qed.

(** X3. Two clicks on the toggle of an overlay bring the element back to
    where it was: [sessionVisible] is the same set, [hiddenShorts] was never
    touched, and the element is displayed exactly when it was revealed
    before, the overlay exactly when it was not.  After one click the
    membership in [sessionVisible] is flipped. *)
Theorem toggleShortVisibility_twice e overlay s :
  e ≠ overlay ->
  is_Some (nodes s.2 !! e) -> is_Some (nodes s.2 !! overlay) ->
  let once := exec (toggleShortVisibility e overlay) s in
  let twice := exec (toggleShortVisibility e overlay) once in
  (e ∈ sessionVisible once.1 ↔ e ∉ sessionVisible s.1)
  ∧ sessionVisible twice.1 = sessionVisible s.1
  ∧ hiddenShorts twice.1 = hiddenShorts s.1
  ∧ display <$> nodes twice.2 !! e
    = Some (if bool_decide (e ∈ sessionVisible s.1) then "" else "none")
  ∧ display <$> nodes twice.2 !! overlay
    = Some (if bool_decide (e ∈ sessionVisible s.1) then "none" else "flex")
  ∧ (∀ n, n ≠ e -> n ≠ overlay -> nodes twice.2 !! n = nodes s.2 !! n).
Proof.
  destruct s as [o b]. cbn [fst snd].
  intros Hne [nd He] [ond Hov]. cbv zeta.
  unfold exec. rewrite !toggleShortVisibility_spec. cbn [fst snd].
  destruct (decide (e ∈ sessionVisible o)) as [Hv|Hv].
  - rewrite (bool_decide_eq_true_2 _ Hv). cbn [fst snd set_sessionVisible sessionVisible].
    rewrite bool_decide_eq_false_2 by set_solver.
    cbn [fst snd set_sessionVisible sessionVisible hiddenShorts set_nodes nodes].
    split_and!.
    + set_solver.
    + apply set_eq. intros x. rewrite elem_of_union, elem_of_difference,
        elem_of_singleton. destruct (decide (x = e)) as [->|]; naive_solver.
    + done.
    + rewrite !display_after_alter.
      rewrite (decide_False (P:=overlay = e)) by done.
      rewrite decide_True by done.
      apply const_lookup. rewrite !lookup_alter_is_Some. eauto.
    + rewrite !display_after_alter. rewrite decide_True by done.
      apply const_lookup. rewrite !lookup_alter_is_Some. eauto.
    + intros n H1 H2. by rewrite !lookup_alter_ne by done.
  - rewrite (bool_decide_eq_false_2 _ Hv). cbn [fst snd set_sessionVisible sessionVisible].
    rewrite bool_decide_eq_true_2 by set_solver.
    cbn [fst snd set_sessionVisible sessionVisible hiddenShorts set_nodes nodes].
    split_and!.
    + set_solver.
    + apply set_eq. intros x. rewrite elem_of_difference, elem_of_union,
        elem_of_singleton. destruct (decide (x = e)) as [->|]; naive_solver.
    + done.
    + rewrite !display_after_alter.
      rewrite (decide_False (P:=overlay = e)) by done.
      rewrite decide_True by done.
      apply const_lookup. rewrite !lookup_alter_is_Some. eauto.
    + rewrite !display_after_alter. rewrite decide_True by done.
      apply const_lookup. rewrite !lookup_alter_is_Some. eauto.
    + intros n H1 H2. by rewrite !lookup_alter_ne by done.
Qed.

Lemma toggleShortVisibility_twice_witness :
  sessionVisible
    (exec (toggleShortVisibility 1 7)
       (exec (toggleShortVisibility 1 7)
          (YouTubeDetoxController.shortsBlocker Examples.suppressed.1,
           Examples.suppressed.2))).1
  = sessionVisible (YouTubeDetoxController.shortsBlocker Examples.suppressed.1).
Proof.
  refine (proj1 (proj2 (toggleShortVisibility_twice 1 7
     (YouTubeDetoxController.shortsBlocker Examples.suppressed.1,
      Examples.suppressed.2) _ _ _))).
  - discriminate.
  - vm_compute. eauto.
  - vm_compute. eauto.
Defined.

End Toggle.

Section Suppress.
Import ShortsBlocker.
Implicit Types (s : ShortsBlocker.t * browser) (e p : nat).

Lemma next_in_app (e : nat) (l1 l2 : list nat) :
  e ∉ l1 -> next_in e (l1 ++ e :: l2) = head l2.
Proof.
  induction l1 as [|x l1 IH]; intros Hn; cbn.
  - by rewrite decide_True.
  - rewrite decide_False by (intros ->; apply Hn; left).
    apply IH. intros H. apply Hn. by right.
Qed.

Lemma insert_before_skip (new : nat) (ref : option nat) (l1 l2 : list nat) :
  (∀ x, x ∈ l1 -> ref ≠ Some x) ->
  insert_before new ref (l1 ++ l2) = l1 ++ insert_before new ref l2.
Proof.
  induction l1 as [|x l1 IH]; intros Hn; cbn; [done |].
  rewrite decide_False by (apply Hn; left).
  f_equal. apply IH. intros y Hy. apply Hn. by right.
Qed.

(** Inserting before the next sibling puts the new node right after the
    element. *)
Lemma insert_before_next_in (new e : nat) (l1 l2 : list nat) :
  NoDup (l1 ++ e :: l2) ->
  insert_before new (next_in e (l1 ++ e :: l2)) (l1 ++ e :: l2)
  = l1 ++ e :: new :: l2.
Proof.
  intros Hnd. apply NoDup_app in Hnd as (_ & Hdisj & Hnd2).
  apply NoDup_cons in Hnd2 as [He2 _].
  rewrite next_in_app by (intros H; apply (Hdisj e H); left).
  change (l1 ++ e :: l2) with (l1 ++ [e] ++ l2). rewrite app_assoc.
  rewrite insert_before_skip.
  - rewrite <- app_assoc. cbn. destruct l2 as [|x l2]; cbn; [done |].
    by rewrite decide_True.
  - intros x Hx Hh. destruct l2 as [|y l2]; [done |]. cbn in Hh.
    injection Hh as ->. apply elem_of_app in Hx as [Hx|Hx%list_elem_of_singleton].
    + apply (Hdisj x Hx). right. left.
    + subst. apply He2. left.
Qed.

(** X4. Suppressing an element that is in neither set and sits in the child
    list of its parent: the call returns normally, the element is added to
    [hiddenShorts] and gets display none, and a new overlay, carrying the
    overlay class, the marking attribute and the toggle handler for this
    element, becomes the child that directly follows it.  No other node
    changes, [sessionVisible] stays the same and nothing is logged. *)
Theorem hideShort_suppresses s e p (nd pn : node) (l1 l2 : list nat) :
  e ∉ hiddenShorts s.1 -> e ∉ sessionVisible s.1 ->
  nodes s.2 !! e = Some nd -> parentNode nd = Some p -> p ≠ e ->
  nodes s.2 !! p = Some pn -> childNodes pn = l1 ++ e :: l2 ->
  NoDup (childNodes pn) ->
  let ov := fresh (dom (nodes s.2)) in
  let s' := exec (hideShort e) s in
  (hideShort e s).1 = Normal tt
  ∧ hiddenShorts s'.1 = {[e]} ∪ hiddenShorts s.1
  ∧ sessionVisible s'.1 = sessionVisible s.1
  ∧ nodes s'.2 !! e = Some (set_display "none" nd)
  ∧ nodes s'.2 !! ov = Some (set_parentNode (Some p) (fresh_overlay e))
  ∧ nodes s'.2 !! p = Some (set_childNodes (fun _ => l1 ++ e :: ov :: l2) pn)
  ∧ (∀ n, n ≠ e -> n ≠ ov -> n ≠ p -> nodes s'.2 !! n = nodes s.2 !! n)
  ∧ console s'.2 = console s.2.
Proof.
  destruct s as [o b]. cbn [fst snd]. intros Hh Hv He Hp Hpe Hpn Hl Hnd. cbv zeta.
  pose proof (fresh_node_unused (nodes b)) as Hfresh.
  set (ov := fresh (dom (nodes b))) in *.
  assert (Hoe : ov ≠ e) by (intros E; rewrite E in Hfresh; congruence).
  assert (Hop : ov ≠ p) by (intros E; rewrite E in Hfresh; congruence).
  pose proof (hideShort_unseen e (o, b) Hh Hv) as E. cbn [fst snd] in E.
  fold ov in E.
  assert (Hpar : parentNode_of b e = Some p)
    by (unfold parentNode_of; rewrite He; exact Hp).
  rewrite Hpar in E. cbv zeta in E.
  assert (Hsib : nextSibling_of (set_nodes (insert ov (fresh_overlay e)) b) e
                 = next_in e (l1 ++ e :: l2)).
  { unfold nextSibling_of, parentNode_of. cbn [set_nodes nodes].
    rewrite lookup_insert_ne by done. rewrite He. cbn. rewrite Hp. cbn.
    rewrite lookup_insert_ne by done. rewrite Hpn. cbn. by rewrite Hl. }
  rewrite Hsib in E. unfold exec. rewrite E. cbn [fst snd set_nodes nodes
    set_hiddenShorts hiddenShorts sessionVisible console].
  split_and!; try done.
  - rewrite lookup_alter_eq, lookup_alter_ne, lookup_alter_ne,
      lookup_insert_ne, He by done. done.
  - rewrite lookup_alter_ne, lookup_alter_eq, lookup_alter_ne,
      lookup_insert_eq by done. done.
  - rewrite lookup_alter_ne, lookup_alter_ne, lookup_alter_eq,
      lookup_insert_ne, Hpn by done. cbn.
    rewrite Hl in Hnd. unfold set_childNodes. rewrite Hl.
    by rewrite insert_before_next_in.
  - intros n H1 H2 H3.
    by rewrite !lookup_alter_ne, lookup_insert_ne by done.
Qed.

Lemma hideShort_suppresses_witness :
  nodes (exec (hideShort 1) (constructor, Examples.feed)).2 !! 0
  = Some (Node "" [] None [1; fresh (dom (nodes Examples.feed)); 2] "" None).
Proof.
  refine (proj1 (proj2 (proj2 (proj2 (proj2 (proj2
    (hideShort_suppresses (constructor, Examples.feed) 1 0
       (Node "" [] (Some 0) [] "" None) (Node "" [] None [1; 2] "" None)
       [] [2] _ _ _ _ _ _ _ _))))))).
  - vm_compute. discriminate.
  - vm_compute. discriminate.
  - vm_compute. reflexivity.
  - reflexivity.
  - discriminate.
  - vm_compute. reflexivity.
  - reflexivity.
  - cbn. repeat constructor; rewrite ?elem_of_cons, ?elem_of_nil; naive_solver.
Defined.

End Suppress.

(** ** A pass of processShorts *)

Section ShortsPass.
Import ShortsBlocker.
Implicit Types (s : ShortsBlocker.t * browser) (e x : nat) (l : list nat).

(** Everything one call of [hideShort] can do. *)
Lemma hideShort_effect x s :
  ∃ s', hideShort x s = (Normal tt, s')
    ∧ href s'.2 = href s.2 ∧ query s'.2 = query s.2 ∧ console s'.2 = console s.2
    ∧ sessionVisible s'.1 = sessionVisible s.1
    ∧ hiddenShorts s.1 ⊆ hiddenShorts s'.1
    ∧ (∀ e, e ∈ hiddenShorts s'.1 ->
            e ∈ hiddenShorts s.1 ∨ (e = x ∧ x ∉ sessionVisible s.1))
    ∧ (is_Some (parentNode_of s.2 x) -> x ∈ hiddenShorts s'.1 ∪ sessionVisible s'.1)
    ∧ (∀ n nd, nodes s.2 !! n = Some nd ->
         ∃ nd', nodes s'.2 !! n = Some nd' ∧ parentNode nd' = parentNode nd
                ∧ (display nd' = display nd ∨ n = x))
    ∧ (x ∉ hiddenShorts s.1 -> x ∉ sessionVisible s.1 ->
       is_Some (parentNode_of s.2 x) ->
       display <$> nodes s'.2 !! x = Some "none").
Proof.
  destruct s as [o b]. cbn [fst snd].
  destruct (decide (x ∈ hiddenShorts o)) as [Hh|Hh].
  { exists (o, b). rewrite hideShort_guard by (by left). cbn [fst snd].
    split_and!; try done; [set_solver | set_solver | eauto]. }
  destruct (decide (x ∈ sessionVisible o)) as [Hv|Hv].
  { exists (o, b). rewrite hideShort_guard by (by right). cbn [fst snd].
    split_and!; try done; [set_solver | set_solver | eauto]. }
  rewrite (hideShort_unseen x (o, b) Hh Hv). cbn [fst snd].
  pose proof (fresh_node_unused (nodes b)) as Hfresh.
  set (ov := fresh (dom (nodes b))) in *.
  destruct (parentNode_of b x) as [p|] eqn:Hp; cbv zeta.
  - eexists. split; [reflexivity |].
    cbn [fst snd set_nodes set_hiddenShorts hiddenShorts sessionVisible href
         query console nodes].
    split_and!; try done; try set_solver.
    + intros n nd Hn.
      assert (ov ≠ n) by (intros <-; congruence).
      destruct (decide (x = n)) as [->|Hx].
      * rewrite lookup_alter_eq, lookup_alter_ne by done.
        destruct (lookup_alter_inv (set_childNodes
          (insert_before ov (nextSibling_of (set_nodes (insert ov (fresh_overlay n)) b) n)))
          (<[ov:=fresh_overlay n]> (nodes b)) p n
          (default nd (alter (set_childNodes
             (insert_before ov (nextSibling_of (set_nodes (insert ov (fresh_overlay n)) b) n)))
             p (<[ov:=fresh_overlay n]> (nodes b)) !! n))) as (nd0 & Hn0 & Hc).
        { destruct (alter _ p _ !! n) eqn:E; [done |].
          apply lookup_alter_None in E. rewrite lookup_insert_ne in E by done.
          congruence. }
        rewrite lookup_insert_ne in Hn0 by done. rewrite Hn in Hn0.
        injection Hn0 as <-.
        destruct (alter _ p _ !! n) as [y|] eqn:E; cbn in Hc |- *.
        -- exists (set_display "none" y). split; [done |]. split; [|by right].
           destruct Hc as [->|[_ ->]]; by destruct nd.
        -- apply lookup_alter_None in E. rewrite lookup_insert_ne in E by done.
           congruence.
      * rewrite lookup_alter_ne, lookup_alter_ne by done.
        destruct (alter _ p _ !! n) as [y|] eqn:E.
        -- destruct (lookup_alter_inv _ _ _ _ _ E) as (nd0 & Hn0 & Hc).
           rewrite lookup_insert_ne in Hn0 by done. rewrite Hn in Hn0.
           injection Hn0 as <-. exists y. split; [done |].
           destruct Hc as [->|[_ ->]]; destruct nd; cbn; auto.
        -- apply lookup_alter_None in E. rewrite lookup_insert_ne in E by done.
           congruence.
    + intros _ _ _.
      assert (is_Some (nodes b !! x)) as [nd Hx].
      { unfold parentNode_of in Hp. destruct (nodes b !! x); [eauto | done]. }
      assert (ov ≠ x) by (intros <-; congruence).
      rewrite display_after_alter, decide_True by done.
      apply const_lookup. rewrite !lookup_alter_is_Some.
      rewrite lookup_insert_ne by done. eauto.
  - eexists. split; [reflexivity |].
    cbn [fst snd set_nodes hiddenShorts sessionVisible href query console nodes].
    split_and!; try done; try set_solver.
    all: try (by intros [? ?]); try (by intros _ _ [? ?]).
    intros n nd Hn. exists nd.
    rewrite lookup_insert_ne by (intros <-; congruence). auto.
Qed.

(** A loop over elements that are all tracked does nothing. *)
Lemma hideShort_loop_tracked l s :
  (∀ e, e ∈ l -> e ∈ hiddenShorts s.1 ∪ sessionVisible s.1) ->
  for_of l hideShort s = (Normal tt, s).
Proof.
  induction l as [|x l IH]; intros H; [done |].
  cbn [for_of]. unfold bind.
  rewrite hideShort_guard by (apply elem_of_union, H; left).
  apply IH. intros e He. apply H. by right.
Qed.

(** The loop of [processShorts] over distinct attached elements. *)
Lemma hideShort_loop l s :
  NoDup l ->
  (∀ e, e ∈ l -> is_Some (parentNode_of s.2 e)) ->
  ∃ s', for_of l hideShort s = (Normal tt, s')
    ∧ href s'.2 = href s.2 ∧ query s'.2 = query s.2 ∧ console s'.2 = console s.2
    ∧ sessionVisible s'.1 = sessionVisible s.1
    ∧ hiddenShorts s.1 ⊆ hiddenShorts s'.1
    ∧ (∀ e, e ∈ hiddenShorts s'.1 ->
            e ∈ hiddenShorts s.1 ∨ (e ∈ l ∧ e ∉ sessionVisible s.1))
    ∧ (∀ e, e ∈ l -> e ∈ hiddenShorts s'.1 ∪ sessionVisible s'.1)
    ∧ (∀ n nd, nodes s.2 !! n = Some nd ->
         ∃ nd', nodes s'.2 !! n = Some nd' ∧ parentNode nd' = parentNode nd
                ∧ (display nd' = display nd ∨ n ∈ l))
    ∧ (∀ e, e ∈ l -> e ∉ hiddenShorts s.1 -> e ∉ sessionVisible s.1 ->
         display <$> nodes s'.2 !! e = Some "none").
Proof.
  intros Hnd. revert s. induction Hnd as [|x l Hx Hnd IH]; intros s Hatt.
  { exists s. split_and!; try done; try set_solver.
    all: try (intros n nd Hn; exists nd; by auto). }
  destruct (hideShort_effect x s)
    as (s1 & E1 & Hh1 & Hq1 & Hc1 & Hv1 & Hs1 & Hs1' & Ht1 & Hf1 & Hd1).
  assert (Hatt1 : ∀ e, e ∈ l -> is_Some (parentNode_of s1.2 e)).
  { intros e He. destruct (Hatt e) as [p Hp]; [by right |].
    unfold parentNode_of in *. destruct (nodes s.2 !! e) as [nd|] eqn:En; [|done].
    destruct (Hf1 e nd En) as (nd' & -> & Hpar & _). cbn in *. rewrite Hpar. eauto. }
  destruct (IH s1 Hatt1)
    as (s' & E & Hh & Hq & Hc & Hv & Hs & Hs' & Ht & Hf & Hd).
  exists s'. split_and!.
  - cbn [for_of]. unfold bind. by rewrite E1.
  - congruence.
  - congruence.
  - congruence.
  - congruence.
  - set_solver.
  - intros e He. destruct (Hs' e He) as [H1|[Hl Hnv]].
    + destruct (Hs1' e H1) as [?|[-> ?]]; [by left |]. right. split; [left | done].
    + right. split; [by right | congruence].
  - intros e [->|He]%elem_of_cons; [|by apply Ht].
    rewrite Hv. specialize (Ht1 (Hatt x ltac:(left))).
    apply elem_of_union in Ht1 as [?|?]; set_solver.
  - intros n nd Hn. destruct (Hf1 n nd Hn) as (nd1 & Hn1 & Hp1 & Hdisp1).
    destruct (Hf n nd1 Hn1) as (nd' & Hn' & Hp' & Hdisp').
    exists nd'. split; [done |]. split; [congruence |].
    destruct Hdisp' as [Hsame|?]; [|right; by right].
    destruct Hdisp1 as [? | ->]; [left; congruence | right; left].
  - intros e [->|He]%elem_of_cons Hnh Hnv.
    + specialize (Hd1 Hnh Hnv (Hatt x ltac:(left))).
      destruct (nodes s1.2 !! x) as [nd1|] eqn:En1; [|done].
      cbn in Hd1. injection Hd1 as Hd1.
      destruct (Hf x nd1 En1) as (nd' & -> & _ & [Hdisp|Hin]); [|done].
      cbn. congruence.
    + apply Hd; [done | |congruence].
      intros H1. destruct (Hs1' e H1) as [?|[-> _]]; done.
Qed.

(** Off the shorts pages, with selectors that parse, a pass is the loop over
    the deduplicated matches. *)
Lemma processShorts_loop s :
  SHORTS_PAGE_test (href s.2) = false ->
  Forall (fun sel => is_Some (query s.2 sel)) YOUTUBE_SELECTORS.SHORTS_CONTAINERS ->
  processShorts s =
  for_of (new_Set (flat_map (matches_of s.2) YOUTUBE_SELECTORS.SHORTS_CONTAINERS))
         hideShort s.
Proof.
  intros Hn Hp. destruct s as [o b]. cbn [fst snd] in *.
  unfold processShorts.
  erewrite bind_normal by (unfold page, zoom, isShortsPage, gets; cbn; reflexivity).
  rewrite Hn.
  erewrite bind_normal;
    [reflexivity |unfold page, zoom; cbn [fst snd];
                  rewrite (findShortsElements_parsed b Hp); reflexivity].
Qed.

End ShortsPass.

Section ShortsPassTheorems.
Import ShortsBlocker.
Implicit Types (s : ShortsBlocker.t * browser) (e : nat).

Lemma matches_of_query (b b' : browser) (sel : string) :
  query b' = query b -> matches_of b' sel = matches_of b sel.
Proof. unfold matches_of. by intros ->. Qed.

Lemma matched_same (b b' : browser) (sels : list string) :
  query b' = query b -> flat_map (matches_of b') sels = flat_map (matches_of b) sels.
Proof.
  intros E. induction sels as [|sel sels IH]; [done |].
  cbn. by rewrite IH, (matches_of_query b b' sel E).
Qed.

(** X5. Off the shorts pages, when every selector parses and every matched
    element has a parent, a pass returns normally and a second pass right
    after it changes nothing at all: no node, no set, no log entry.  Elements
    are suppressed once, however often the page is scanned. *)
Theorem processShorts_second_pass_noop s :
  SHORTS_PAGE_test (href s.2) = false ->
  Forall (fun sel => is_Some (query s.2 sel)) YOUTUBE_SELECTORS.SHORTS_CONTAINERS ->
  (∀ e, e ∈ flat_map (matches_of s.2) YOUTUBE_SELECTORS.SHORTS_CONTAINERS ->
        is_Some (parentNode_of s.2 e)) ->
  (processShorts s).1 = Normal tt
  ∧ processShorts (exec processShorts s) = (Normal tt, exec processShorts s).
Proof.
  intros Hn Hp Hatt. unfold exec.
  rewrite (processShorts_loop s Hn Hp).
  set (l := new_Set (flat_map (matches_of s.2) YOUTUBE_SELECTORS.SHORTS_CONTAINERS)).
  destruct (hideShort_loop l s (new_Set_NoDup _))
    as (s' & E & Hh & Hq & Hc & Hv & Hs & Hs' & Ht & Hf & Hd).
  { intros e He. apply Hatt. by apply elem_of_new_Set. }
  unfold exec. rewrite E. cbn [fst snd]. split; [done |].
  assert (Hn' : SHORTS_PAGE_test (href s'.2) = false) by (by rewrite Hh).
  assert (Hp' : Forall (fun sel => is_Some (query s'.2 sel))
                       YOUTUBE_SELECTORS.SHORTS_CONTAINERS) by (by rewrite Hq).
  rewrite (processShorts_loop s' Hn' Hp').
  rewrite (matched_same s.2 s'.2 _ Hq). fold l.
  by apply hideShort_loop_tracked.
Qed.

(** X6. Under the same conditions, after the pass every matched element is in
    one of the two sets; each matched element that was in neither before is
    now in [hiddenShorts] with display none; [sessionVisible] is unchanged and
    nothing but matched elements was added to [hiddenShorts]. *)
Theorem processShorts_covers_matches s :
  SHORTS_PAGE_test (href s.2) = false ->
  Forall (fun sel => is_Some (query s.2 sel)) YOUTUBE_SELECTORS.SHORTS_CONTAINERS ->
  (∀ e, e ∈ flat_map (matches_of s.2) YOUTUBE_SELECTORS.SHORTS_CONTAINERS ->
        is_Some (parentNode_of s.2 e)) ->
  let matched := flat_map (matches_of s.2) YOUTUBE_SELECTORS.SHORTS_CONTAINERS in
  let s' := exec processShorts s in
  sessionVisible s'.1 = sessionVisible s.1
  ∧ (∀ e, e ∈ hiddenShorts s'.1 ↔ e ∈ hiddenShorts s.1 ∨
                                   (e ∈ matched ∧ e ∉ sessionVisible s.1))
  ∧ (∀ e, e ∈ matched -> e ∉ hiddenShorts s.1 -> e ∉ sessionVisible s.1 ->
          display <$> nodes s'.2 !! e = Some "none").
Proof.
  intros Hn Hp Hatt. cbv zeta. unfold exec.
  rewrite (processShorts_loop s Hn Hp).
  set (l := new_Set (flat_map (matches_of s.2) YOUTUBE_SELECTORS.SHORTS_CONTAINERS)).
  destruct (hideShort_loop l s (new_Set_NoDup _))
    as (s' & E & Hh & Hq & Hc & Hv & Hs & Hs' & Ht & Hf & Hd).
  { intros e He. apply Hatt. by apply elem_of_new_Set. }
  unfold exec. rewrite E. cbn [fst snd]. split_and!.
  - exact Hv.
  - intros e. split.
    + intros He. destruct (Hs' e He) as [?|[Hl ?]]; [by left |].
      right. split; [|done]. by apply elem_of_new_Set.
    + intros [?|[Hl Hnv]]; [by apply Hs |].
      assert (Ht' : e ∈ hiddenShorts s'.1 ∪ sessionVisible s'.1)
        by (by apply Ht, elem_of_new_Set).
      rewrite Hv in Ht'. apply elem_of_union in Ht' as [?|?]; done.
  - intros e He. apply Hd. by apply elem_of_new_Set.
Qed.

Lemma feed_selectors_parse :
  Forall (fun sel => is_Some (query Examples.feed sel))
         YOUTUBE_SELECTORS.SHORTS_CONTAINERS.
Proof.
  apply Forall_forall. intros sel _. cbn. unfold Examples.feed_query.
  repeat case_decide; eauto.
Qed.

Lemma feed_matches_attached e :
  e ∈ flat_map (matches_of Examples.feed) YOUTUBE_SELECTORS.SHORTS_CONTAINERS ->
  is_Some (parentNode_of Examples.feed e).
Proof.
  intros He.
  assert (H : Forall (fun e => is_Some (parentNode_of Examples.feed e))
                (flat_map (matches_of Examples.feed)
                   YOUTUBE_SELECTORS.SHORTS_CONTAINERS))
    by (vm_compute; repeat constructor; eauto).
  rewrite Forall_forall in H. by apply H.
Qed.

Lemma processShorts_second_pass_noop_witness :
  processShorts (exec processShorts (constructor, Examples.feed))
  = (Normal tt, exec processShorts (constructor, Examples.feed)).
Proof.
  refine (proj2 (processShorts_second_pass_noop (constructor, Examples.feed) _ _ _)).
  - reflexivity.
  - exact feed_selectors_parse.
  - exact feed_matches_attached.
Defined.

Lemma processShorts_covers_matches_witness :
  sessionVisible (exec processShorts (constructor, Examples.feed)).1 = ∅.
Proof.
  refine (proj1 (processShorts_covers_matches (constructor, Examples.feed) _ _ _)).
  - reflexivity.
  - exact feed_selectors_parse.
  - exact feed_matches_attached.
Defined.

End ShortsPassTheorems.

(** ** The scan, when every selector parses *)

Lemma elem_of_flat_map {A B} (f : A -> list B) (l : list A) (y : B) :
  y ∈ flat_map f l ↔ ∃ x, x ∈ l ∧ y ∈ f x.
Proof.
  rewrite list_elem_of_In, in_flat_map. split.
  - intros (x & Hx & Hy). exists x. by rewrite !list_elem_of_In.
  - intros (x & Hx & Hy). exists x. by rewrite <- !list_elem_of_In.
Qed.

(** X7. When every selector of the list parses, [findShortsElements] returns
    normally without touching the browser; the list it returns has no
    duplicates, holds exactly the elements matched by some selector, and
    keeps them in the order of their first match (selector order, then
    document order). *)
Theorem findShortsElements_deduplicates (b : browser) :
  Forall (fun sel => is_Some (query b sel)) YOUTUBE_SELECTORS.SHORTS_CONTAINERS ->
  ∃ l, ShortsBlocker.findShortsElements b = (Normal l, b)
    ∧ NoDup l
    ∧ (∀ e, e ∈ l ↔ ∃ sel l', sel ∈ YOUTUBE_SELECTORS.SHORTS_CONTAINERS
                              ∧ query b sel = Some l' ∧ e ∈ l')
    ∧ l = first_seen [] (flat_map (matches_of b) YOUTUBE_SELECTORS.SHORTS_CONTAINERS).
Proof.
  intros Hp. eexists. split; [by apply findShortsElements_parsed |].
  split; [apply new_Set_NoDup |]. split; [|apply new_Set_first_seen].
  intros e. rewrite elem_of_new_Set, elem_of_flat_map. split.
  - intros (sel & Hs & He). unfold matches_of in He.
    destruct (query b sel) as [l'|] eqn:E; [eauto | by apply elem_of_nil in He].
  - intros (sel & l' & Hs & Hq & He). exists sel. split; [done |].
    unfold matches_of. by rewrite Hq.
Qed.

Lemma findShortsElements_deduplicates_witness :
  ∃ l, ShortsBlocker.findShortsElements Examples.feed = (Normal l, Examples.feed)
       ∧ NoDup l.
Proof.
  destruct (findShortsElements_deduplicates Examples.feed feed_selectors_parse)
    as (l & E & Hnd & _).
  exists l. by split.
Defined.

(** ** NavigationButtonRemover *)

Section Buttons.
Import NavigationButtonRemover.
Implicit Types (s : NavigationButtonRemover.t * browser) (x : nat) (l : list nat).

Lemma for_of_app {S A} (l1 l2 : list A) (f : A -> js S unit) (s : S) :
  for_of (l1 ++ l2) f s =
  match for_of l1 f s with
  | (Normal _, s') => for_of l2 f s'
  | (Throw e, s') => (Throw e, s')
  end.
Proof.
  revert s. induction l1 as [|x l1 IH]; intros s; [done |].
  cbn [app for_of]. unfold bind. destruct (f x s) as [[[]|e] s1]; [apply IH | done].
Qed.

Lemma hide_button_spec x s :
  hide_button x s =
  (Normal tt,
   if bool_decide (x ∈ removedButtons s.1) then s
   else (Make ({[x]} ∪ removedButtons s.1),
         set_nodes (alter (set_display "none") x) s.2)).
Proof.
  destruct s as [o b].
  cbv beta iota zeta delta [hide_button mbind js_bind bind gets mret js_ret ret
    page self zoom modify update_node fst snd].
  by destruct (bool_decide (x ∈ removedButtons o)).
Qed.

(** Buttons that are all recorded already: the loop does nothing. *)
Lemma hide_button_loop_seen l s :
  (∀ x, x ∈ l -> x ∈ removedButtons s.1) ->
  for_of l hide_button s = (Normal tt, s).
Proof.
  induction l as [|x l IH]; intros H; [done |].
  cbn [for_of]. unfold bind. rewrite hide_button_spec.
  rewrite bool_decide_eq_true_2 by (apply H; left).
  apply IH. intros y Hy. apply H. by right.
Qed.

(** The loop over the matches of one or more selectors. *)
Lemma hide_button_loop l s :
  ∃ m', for_of l hide_button s =
          (Normal tt,
           (Make (list_to_set l ∪ removedButtons s.1), set_nodes (fun _ => m') s.2))
    ∧ (∀ n, m' !! n = if decide (n ∈ l ∧ n ∉ removedButtons s.1)
                      then set_display "none" <$> nodes s.2 !! n
                      else nodes s.2 !! n).
Proof.
  revert s. induction l as [|x l IH]; intros [o b]; cbn [fst snd].
  - exists (nodes b). split.
    + cbn. rewrite set_nodes_same. destruct o. do 3 f_equal. cbn. set_solver.
    + intros n. rewrite decide_False; [done |]. intros [H _]. by apply elem_of_nil in H.
  - cbn [for_of]. unfold bind. rewrite hide_button_spec. cbn [fst snd].
    destruct (decide (x ∈ removedButtons o)) as [Hx|Hx].
    + rewrite (bool_decide_eq_true_2 _ Hx).
      destruct (IH (o, b)) as (m' & E & Hm). exists m'. split.
      * rewrite E. cbn [fst snd]. do 3 f_equal. set_solver.
      * intros n. rewrite Hm. cbn [fst snd].
        destruct (decide (n ∈ l ∧ n ∉ removedButtons o)) as [[? ?]|Hn].
        -- rewrite decide_True; [done |]. split; [by right | done].
        -- rewrite decide_False; [done |]. intros [[->|?]%elem_of_cons ?]; tauto.
    + rewrite (bool_decide_eq_false_2 _ Hx).
      destruct (IH (Make ({[x]} ∪ removedButtons o),
                    set_nodes (alter (set_display "none") x) b)) as (m' & E & Hm).
      exists m'. split.
      * rewrite E. cbn [fst snd removedButtons]. destruct b. cbn.
        do 3 f_equal. set_solver.
      * intros n. rewrite Hm. cbn [fst snd removedButtons set_nodes nodes].
        destruct (decide (n = x)) as [->|Hne].
        -- rewrite lookup_alter_eq.
           rewrite (decide_True (P:=x ∈ x :: l ∧ x ∉ removedButtons o))
             by (split; [left | done]).
           rewrite decide_False; [done |]. intros [_ H]. apply H. set_solver.
        -- rewrite lookup_alter_ne by done.
           destruct (decide (n ∈ l ∧ n ∉ removedButtons o)) as [[? ?]|Hn].
           ++ rewrite decide_True by (split; [done | set_solver]).
              rewrite decide_True; [done |]. split; [by right | done].
           ++ rewrite decide_False by (intros [? ?]; apply Hn; split; [done | set_solver]).
              rewrite decide_False; [done |].
              intros [[->|?]%elem_of_cons ?]; tauto.
Qed.

Lemma navigationSelectors_nonempty (sel : string) :
  sel ∈ navigationSelectors -> sel ≠ "".
Proof.
  unfold navigationSelectors. rewrite !elem_of_cons, elem_of_nil. naive_solver.
Qed.

(** With selectors that parse, the nested loops are one loop over all the
    matches. *)
Lemma selectors_loop (sels : list string) s :
  Forall (fun sel => sel ≠ "" ∧ is_Some (query s.2 sel)) sels ->
  for_of sels (fun selector =>
      buttons ← page (safeQuerySelectorAll selector);
      for_of buttons hide_button) s
  = for_of (flat_map (matches_of s.2) sels) hide_button s.
Proof.
  intros H. revert s H. induction sels as [|sel sels IH]; intros s H; [done |].
  apply Forall_cons in H as [[Hne [l Hl]] H].
  cbn [for_of flat_map]. unfold bind at 1.
  erewrite bind_normal
    by (destruct s as [o b]; unfold page, zoom; cbn [fst snd] in *;
        rewrite (safeQuerySelectorAll_parsed b sel l Hne Hl); reflexivity).
  rewrite for_of_app. unfold matches_of at 1. rewrite Hl. cbn [default]. unfold id.
  destruct (hide_button_loop l s) as (m' & E & _). rewrite E.
  rewrite IH; [|exact H]. cbn [snd].
  rewrite (matched_same s.2 (set_nodes (fun _ => m') s.2) sels eq_refl).
  reflexivity.
Qed.

End Buttons.

Section ButtonTheorems.
Import NavigationButtonRemover.
Implicit Types (s : NavigationButtonRemover.t * browser).

Lemma removeNavigationButtons_loop s :
  SHORTS_PAGE_test (href s.2) = true ->
  Forall (fun sel => is_Some (query s.2 sel)) navigationSelectors ->
  removeNavigationButtons s
  = for_of (flat_map (matches_of s.2) navigationSelectors) hide_button s.
Proof.
  destruct s as [o b]. cbn [fst snd]. intros Hs Hp.
  unfold removeNavigationButtons.
  erewrite bind_normal
    by (unfold page, zoom, isShortsPage, gets; cbn; reflexivity).
  rewrite Hs. cbn [negb]. rewrite selectors_loop; [done |]. cbn [snd].
  rewrite Forall_forall in Hp. apply Forall_forall. intros sel Hin.
  split; [by apply navigationSelectors_nonempty | by apply Hp].
Qed.

(** X9. On a shorts page, when every navigation selector parses, the call
    returns normally; every matched button is recorded in [removedButtons];
    a matched button that was not recorded before gets display none; every
    other node, and everything else in the browser, is left as it was.  A
    second call right after changes nothing: each button is hidden once. *)
Theorem removeNavigationButtons_hides_once s :
  SHORTS_PAGE_test (href s.2) = true ->
  Forall (fun sel => is_Some (query s.2 sel)) navigationSelectors ->
  let matched := flat_map (matches_of s.2) navigationSelectors in
  let s' := exec removeNavigationButtons s in
  (removeNavigationButtons s).1 = Normal tt
  ∧ removedButtons s'.1 = list_to_set matched ∪ removedButtons s.1
  ∧ (∀ n, nodes s'.2 !! n =
          if decide (n ∈ matched ∧ n ∉ removedButtons s.1)
          then set_display "none" <$> nodes s.2 !! n
          else nodes s.2 !! n)
  ∧ s'.2 = set_nodes (fun _ => nodes s'.2) s.2
  ∧ removeNavigationButtons s' = (Normal tt, s').
Proof.
  intros Hs Hp. cbv zeta. unfold exec.
  rewrite (removeNavigationButtons_loop s Hs Hp).
  destruct (hide_button_loop (flat_map (matches_of s.2) navigationSelectors) s)
    as (m' & E & Hm).
  rewrite E. cbn [fst snd removedButtons set_nodes nodes].
  split_and!; [done | done | exact Hm | by destruct s as [o []] |].
  set (s' := (Make _, set_nodes _ _)).
  assert (Hs' : SHORTS_PAGE_test (href s'.2) = true) by exact Hs.
  assert (Hp' : Forall (fun sel => is_Some (query s'.2 sel)) navigationSelectors)
    by exact Hp.
  rewrite (removeNavigationButtons_loop s' Hs' Hp').
  apply hide_button_loop_seen. intros x Hx.
  apply elem_of_union_l, elem_of_list_to_set. exact Hx.
Qed.

Lemma player_selectors_parse :
  Forall (fun sel => is_Some (query Examples.bodyless_player sel)) navigationSelectors.
Proof.
  apply Forall_forall. intros sel _. cbn. unfold Examples.player_query.
  case_decide; eauto.
Qed.

Lemma removeNavigationButtons_hides_once_witness :
  removedButtons (exec removeNavigationButtons (constructor, Examples.bodyless_player)).1
  = list_to_set (flat_map (matches_of Examples.bodyless_player) navigationSelectors)
    ∪ removedButtons constructor.
Proof.
  refine (proj1 (proj2 (removeNavigationButtons_hides_once
            (constructor, Examples.bodyless_player) _ _))).
  - reflexivity.
  - exact player_selectors_parse.
Defined.

End ButtonTheorems.

(** ** ScrollPreventer and its listeners *)

Section ScrollListeners.
Import ScrollPreventer.
Implicit Types (s : ScrollPreventer.t * browser) (ls : list listener).

Lemma filter_ne_notin ls (l : listener) :
  l ∉ ls -> filter (fun x => x ≠ l) ls = ls.
Proof.
  induction ls as [|x ls IH]; intros H; [done |].
  rewrite filter_cons, decide_True by (intros ->; apply H; left).
  f_equal. apply IH. intros ?. apply H. by right.
Qed.

Lemma enable_listeners s (v : string) :
  isActive s.1 = false -> body s.2 = Some v ->
  (∀ l, l ∈ scroll_listeners -> l ∉ listeners s.2) ->
  enable s =
  (Normal tt,
   (Make true v,
    Browser (href s.2) (nodes s.2) (Some "hidden") (query s.2)
            (listeners s.2 ++ scroll_listeners)
            (console s.2) (sent s.2) (clock s.2))).
Proof.
  destruct s as [[a o] [h n bd q ls c m k]].
  cbn [fst snd isActive body listeners]. intros -> -> Hfresh.
  cbv beta iota zeta delta [enable mbind js_bind bind gets mret js_ret ret page
    self zoom get_body_overflow set_body_overflow addEventListener modify
    set_body set_listeners fst snd isActive originalOverflow
    body href nodes query listeners console sent clock].
  do 3 f_equal.
  assert (H1 := Hfresh _ ltac:(left)).
  assert (H2 := Hfresh _ ltac:(right; left)).
  assert (H3 := Hfresh _ ltac:(right; right; left)).
  assert (H4 := Hfresh _ ltac:(right; right; right; left)).
  set (l1 := Listener Document "wheel" boundPreventWheel true) in *.
  set (l2 := Listener Document "keydown" boundPreventKeys true) in *.
  set (l3 := Listener Window "wheel" boundPreventWheel false) in *.
  set (l4 := Listener Window "keydown" boundPreventKeys false) in *.
  rewrite (decide_False (P:=l1 ∈ ls)) by done.
  rewrite (decide_False (P:=l2 ∈ ls ++ [l1]))
    by (intros [?|[=]%list_elem_of_singleton]%elem_of_app; done).
  rewrite (decide_False (P:=l3 ∈ (ls ++ [l1]) ++ [l2]))
    by (intros [[?|[=]%list_elem_of_singleton]%elem_of_app
               |[=]%list_elem_of_singleton]%elem_of_app; done).
  rewrite (decide_False (P:=l4 ∈ ((ls ++ [l1]) ++ [l2]) ++ [l3]))
    by (intros [[[?|[=]%list_elem_of_singleton]%elem_of_app
                |[=]%list_elem_of_singleton]%elem_of_app
               |[=]%list_elem_of_singleton]%elem_of_app; done).
  unfold scroll_listeners. fold l1 l2 l3 l4.
  by rewrite <- !app_assoc.
Qed.

Lemma disable_listeners s (v : string) :
  isActive s.1 = true -> body s.2 = Some v ->
  disable s =
  (Normal tt,
   (Make false (originalOverflow s.1),
    Browser (href s.2) (nodes s.2) (Some (originalOverflow s.1)) (query s.2)
            (filter (fun l => l ∉ scroll_listeners) (listeners s.2))
            (console s.2) (sent s.2) (clock s.2))).
Proof.
  destruct s as [[a o] [h n bd q ls c m k]].
  cbn [fst snd isActive body listeners]. intros -> ->.
  cbv beta iota zeta delta [disable mbind js_bind bind gets mret js_ret ret page
    self zoom set_body_overflow removeEventListener modify negb
    set_body set_listeners fst snd isActive originalOverflow
    body href nodes query listeners console sent clock].
  do 3 f_equal.
  rewrite !list_filter_filter. apply list_filter_iff. intros x.
  unfold scroll_listeners. split.
  - intros H Hin. rewrite !elem_of_cons, elem_of_nil in Hin. naive_solver.
  - intros Hn. split_and!; intros ->; apply Hn; rewrite !elem_of_cons; tauto.
Qed.

End ScrollListeners.

Section ScrollTheorems.
Import ScrollPreventer.
Implicit Types (s : ScrollPreventer.t * browser) (ls : list listener).

Lemma filter_all {A} (P : A -> Prop) `{∀ x, Decision (P x)} (l : list A) :
  (∀ x, x ∈ l -> P x) -> filter P l = l.
Proof.
  induction l as [|x l IH]; intros Hl; [done |].
  rewrite filter_cons_True by (apply Hl; left).
  f_equal. apply IH. intros y Hy. apply Hl. by right.
Qed.

Lemma filter_scroll_listeners ls :
  (∀ l, l ∈ scroll_listeners -> l ∉ ls) ->
  filter (fun l => l ∉ scroll_listeners) (ls ++ scroll_listeners) = ls.
Proof.
  intros H. rewrite filter_app.
  rewrite (filter_all _ ls) by (intros x Hx Hin; by apply (H x)).
  replace (filter (fun l => l ∉ scroll_listeners) scroll_listeners) with (@nil listener)
    by (vm_compute; reflexivity).
  apply app_nil_r.
Qed.

(** X10. Turning the prevention on and off again leaves the browser exactly
    as it was: the overflow style of the body and the list of registered
    listeners included.  The preventer starts inactive, the document has a
    body, and none of the four registrations of the preventer is present
    beforehand. *)
Theorem enable_disable_restores_browser s (v : string) :
  isActive s.1 = false -> body s.2 = Some v ->
  (∀ l, l ∈ scroll_listeners -> l ∉ listeners s.2) ->
  listeners (exec enable s).2 = listeners s.2 ++ scroll_listeners
  ∧ (exec disable (exec enable s)).2 = s.2
  ∧ isActive (exec disable (exec enable s)).1 = false.
Proof.
  intros Ha Hb Hl. unfold exec.
  rewrite (enable_listeners s v Ha Hb Hl). cbn [snd listeners].
  split; [done |].
  erewrite disable_listeners by reflexivity.
  cbn [fst snd isActive originalOverflow href nodes query listeners console sent clock].
  rewrite (filter_scroll_listeners _ Hl).
  split; [|done]. destruct s as [o b]. cbn [snd] in *. destruct b. cbn in *.
  by subst.
Qed.

Lemma enable_disable_restores_browser_witness :
  (exec disable (exec enable (constructor, Examples.feed))).2 = Examples.feed.
Proof.
  refine (proj1 (proj2 (enable_disable_restores_browser
            (constructor, Examples.feed) "scroll" _ _ _))).
  - reflexivity.
  - reflexivity.
  - intros l _. apply not_elem_of_nil.
Defined.

Lemma update_shorts s : SHORTS_PAGE_test (href s.2) = true -> update s = enable s.
Proof.
  destruct s as [o b]. cbn [snd]. intros H. unfold update.
  erewrite bind_normal
    by (unfold page, zoom, isShortsPage, gets; cbn; reflexivity).
  by rewrite H.
Qed.

Lemma update_other s : SHORTS_PAGE_test (href s.2) = false -> update s = disable s.
Proof.
  destruct s as [o b]. cbn [snd]. intros H. unfold update.
  erewrite bind_normal
    by (unfold page, zoom, isShortsPage, gets; cbn; reflexivity).
  by rewrite H.
Qed.

(** X11. Two [update] calls in a row on a shorts page register each of the
    four listeners exactly once: after the second call the listeners are the
    earlier ones followed by the four, the body has overflow hidden, and the
    style captured is still the one the body had at first. *)
Theorem update_twice_registers_once s (v : string) :
  SHORTS_PAGE_test (href s.2) = true ->
  isActive s.1 = false -> body s.2 = Some v ->
  (∀ l, l ∈ scroll_listeners -> l ∉ listeners s.2) ->
  let s'' := exec update (exec update s) in
  listeners s''.2 = listeners s.2 ++ scroll_listeners
  ∧ body s''.2 = Some "hidden"
  ∧ originalOverflow s''.1 = v
  ∧ isActive s''.1 = true.
Proof.
  intros Hs Ha Hb Hl. cbv zeta. unfold exec.
  rewrite (update_shorts s Hs), (enable_listeners s v Ha Hb Hl). cbn [snd].
  rewrite update_shorts by exact Hs.
  rewrite enable_active by reflexivity. done.
Qed.

Lemma update_twice_registers_once_witness :
  listeners (exec update (exec update (constructor,
     Browser "https://www.youtube.com/shorts/abcdefghijk" Examples.player_nodes
             (Some "auto") Examples.player_query [] [] [] Timers.empty))).2
  = scroll_listeners.
Proof.
  refine (proj1 (update_twice_registers_once (constructor,
     Browser "https://www.youtube.com/shorts/abcdefghijk" Examples.player_nodes
             (Some "auto") Examples.player_query [] [] [] Timers.empty)
     "auto" _ _ _ _)).
  - reflexivity.
  - reflexivity.
  - reflexivity.
  - intros l _. apply not_elem_of_nil.
Defined.

(** X12. In a document with a body [update] returns normally and leaves the
    preventer active exactly on shorts pages.  Entering a shorts page sets
    the overflow of the body to hidden; leaving one puts back the style
    captured on entry; otherwise the style is not touched. *)
Theorem update_follows_page s (v : string) :
  body s.2 = Some v ->
  (update s).1 = Normal tt
  ∧ isActive (exec update s).1 = SHORTS_PAGE_test (href s.2)
  ∧ body (exec update s).2 =
      Some (match SHORTS_PAGE_test (href s.2), isActive s.1 with
            | true, false => "hidden"
            | false, true => originalOverflow s.1
            | _, _ => v
            end).
Proof.
  intros Hb. unfold exec.
  destruct (SHORTS_PAGE_test (href s.2)) eqn:Hs, (isActive s.1) eqn:Ha.
  - rewrite (update_shorts s Hs), (enable_active s Ha). auto.
  - rewrite (update_shorts s Hs).
    destruct (enable_inactive s v Ha Hb) as [ls ->]. auto.
  - rewrite (update_other s Hs).
    destruct (disable_active s v Ha Hb) as [ls ->]. auto.
  - rewrite (update_other s Hs), (disable_inactive s Ha). auto.
Qed.

Lemma update_follows_page_witness :
  let entering := (constructor, MoreExamples.shorts_feed) in
  let leaving :=
    (Make true "scroll",
     Browser "https://www.youtube.com/" Examples.feed_nodes (Some "hidden")
             Examples.feed_query scroll_listeners [] [] Timers.empty) in
  (isActive (exec update entering).1 = true
   ∧ body (exec update entering).2 = Some "hidden")
  ∧ (isActive (exec update leaving).1 = false
     ∧ body (exec update leaving).2 = Some "scroll").
Proof.
  cbv zeta. split.
  - exact (proj2 (update_follows_page (constructor, MoreExamples.shorts_feed)
                    "scroll" eq_refl)).
  - exact (proj2 (update_follows_page
                    (Make true "scroll",
                     Browser "https://www.youtube.com/" Examples.feed_nodes
                             (Some "hidden") Examples.feed_query scroll_listeners
                             [] [] Timers.empty)
                    "hidden" eq_refl)).
Defined.

End ScrollTheorems.

(** ** Navigation signals *)

Section NavigationOnce.
Import YouTubeDetoxController.
Implicit Types (s : state).

(** X13. A navigation signal is acted on once per URL change.  With the URL
    unchanged [handleNavigation] does nothing; with a changed URL it arms one
    timer for [processPage], 100 ms from now, after the timers already
    pending; a second signal right after the first changes nothing more. *)
Theorem handleNavigation_once_per_change s :
  (href s.2 = currentUrl s.1 -> handleNavigation s = (Normal tt, s))
  ∧ (href s.2 ≠ currentUrl s.1 ->
     Timers.pending (clock (exec handleNavigation s).2)
     = Timers.pending (clock s.2)
       ++ [Timers.Timer (Timers.next_timer (clock s.2))
                        (Timers.now (clock s.2) + 100) ProcessPage])
  ∧ handleNavigation (exec handleNavigation s) = (Normal tt, exec handleNavigation s).
Proof.
  split; [apply handleNavigation_same_url |].
  destruct (decide (href s.2 = currentUrl s.1)) as [E|Hne].
  - split; [done |]. unfold exec.
    rewrite (handleNavigation_same_url s E). cbn [snd].
    by apply handleNavigation_same_url.
  - destruct (handleNavigation_changed s Hne) as (m' & E & _).
    unfold exec. rewrite E. cbn [snd]. split; [done |].
    by apply handleNavigation_same_url.
Qed.

Lemma handleNavigation_once_per_change_witness :
  Timers.pending (clock (exec handleNavigation Examples.moved).2)
  = Timers.pending (clock Examples.moved.2)
    ++ [Timers.Timer (Timers.next_timer (clock Examples.moved.2))
                     (Timers.now (clock Examples.moved.2) + 100) ProcessPage].
Proof.
  refine (proj1 (proj2 (handleNavigation_once_per_change Examples.moved)) _).
  vm_compute. discriminate.
Defined.

End NavigationOnce.

(** ** More on debounce *)

Section DebounceMore.
Import Debounce Invariant.
Context {D : Type} (func : D -> D) (delay : nat).
Implicit Types (st : Debounce.state D) (a : D).

Lemma length_filter_split {A} (P : A -> Prop) `{∀ x, Decision (P x)} (l : list A) :
  List.length (filter P l) + List.length (filter (fun x => ¬ P x) l) = List.length l.
Proof.
  induction l as [|x l IH]; [done |].
  rewrite !filter_cons. destruct (decide (P x)).
  - rewrite decide_False by tauto. cbn. lia.
  - rewrite decide_True by done. cbn. lia.
Qed.

Lemma foldl_iter {A} (l : list A) a :
  foldl (fun x _ => func x) a l = Nat.iter (List.length l) func a.
Proof.
  revert a. induction l as [|y l IH]; intros a; [done |].
  cbn [foldl List.length]. rewrite IH. apply Nat.iter_swap.
Qed.

Lemma iter_add (n k : nat) a :
  Nat.iter n func (Nat.iter k func a) = Nat.iter (k + n) func a.
Proof. rewrite Nat.add_comm. symmetry. apply Nat.iter_add. Qed.

(** X14. Whatever the order of calls and ticks, [func] never runs more often
    than the debounced function was called: after any run it has been
    applied k times, where k plus the number of timers still armed is at
    most the number of calls plus the number of timers armed at the
    start. *)
Theorem debounce_runs_at_most_calls (es : list event) st :
  ∃ k, app (Debounce.run func delay es st) = Nat.iter k func (app st)
     ∧ k + List.length (Timers.pending (timers (Debounce.run func delay es st)))
       ≤ count_calls es + List.length (Timers.pending (timers st)).
Proof.
  revert st. induction es as [|e es IH]; intros st.
  - exists 0. split; [done | cbn; lia].
  - change (Debounce.run func delay (e :: es) st)
      with (Debounce.run func delay es (Debounce.step func delay st e)).
    destruct (IH (Debounce.step func delay st e)) as (k & Hk & Hle).
    destruct e; cbn [Debounce.step count_calls] in *.
    + exists k. split; [exact Hk |].
      assert (List.length (Timers.pending (timers (Debounce.debounced delay st)))
              ≤ S (List.length (Timers.pending (timers st)))); [|lia].
      unfold Debounce.debounced.
      destruct (timeoutId st) as [i|];
        cbn [Timers.clearTimeout Timers.setTimeout timers Timers.pending
             Timers.now Timers.next_timer];
        rewrite length_app; cbn [List.length].
      * pose proof (length_filter (fun t => Timers.timer_id t ≠ i)
                      (Timers.pending (timers st))). lia.
      * lia.
    + set (t := S (Timers.now (timers st))) in *.
      exists (List.length (filter (Timers.due t) (Timers.pending (timers st))) + k).
      split.
      * rewrite Hk. unfold Debounce.tick. cbn [app]. fold t.
        rewrite foldl_iter. apply iter_add.
      * assert (List.length (Timers.pending (timers (Debounce.tick func st)))
                + List.length (filter (Timers.due t) (Timers.pending (timers st)))
                = List.length (Timers.pending (timers st))); [|lia].
        pose proof (length_filter_split (Timers.due t) (Timers.pending (timers st))).
        unfold Debounce.tick. cbn [timers Timers.pending]. fold t. lia.
Qed.

(** A burst followed by a quiet period, from any state with at most one
    timer armed. *)
Lemma burst_fires (gaps : list nat) (d : nat) st :
  single_timer st ->
  Forall (fun g => g < delay) gaps -> delay ≤ d -> 0 < d ->
  Debounce.fired func (app st)
    (Debounce.run func delay (burst gaps ++ replicate d Tick) st).
Proof.
  intros Hs Hg Hd Hpos.
  pose proof (debounced_waiting delay st Hs) as Hw.
  destruct (later_calls_waiting func delay (app st) gaps (Debounce.debounced delay st) Hg Hw)
    as [H1 _]. cbn zeta in H1.
  rewrite run_app. unfold burst. cbn [Debounce.run foldl Debounce.step].
  by apply (ticks_fire func delay (app st) d delay).
Qed.

(** X15. Two bursts of calls, each followed by at least [delay] milliseconds
    of quiet, run [func] exactly twice: once for each burst, and no timer is
    left armed. *)
Theorem debounce_two_bursts (gaps1 gaps2 : list nat) (d1 d2 : nat) st :
  Timers.pending (timers st) = [] ->
  Forall (fun g => g < delay) gaps1 -> Forall (fun g => g < delay) gaps2 ->
  delay ≤ d1 -> 0 < d1 -> delay ≤ d2 -> 0 < d2 ->
  let es := (burst gaps1 ++ replicate d1 Tick) ++ (burst gaps2 ++ replicate d2 Tick) in
  app (Debounce.run func delay es st) = func (func (app st))
  ∧ Timers.pending (timers (Debounce.run func delay es st)) = [].
Proof.
  intros Hp Hg1 Hg2 Hd1 Hpos1 Hd2 Hpos2. cbv zeta.
  rewrite run_app.
  assert (H1 : Debounce.fired func (app st)
                 (Debounce.run func delay (burst gaps1 ++ replicate d1 Tick) st))
    by (apply burst_fires; [by left | done..]).
  set (st1 := Debounce.run func delay (burst gaps1 ++ replicate d1 Tick) st) in *.
  assert (H2 : Debounce.fired func (app st1)
                 (Debounce.run func delay (burst gaps2 ++ replicate d2 Tick) st1))
    by (apply burst_fires; [eapply fired_single_timer, H1 | done..]).
  destruct H1 as [E1 _], H2 as [E2 P2]. by rewrite E2, E1.
Qed.

End DebounceMore.

Lemma debounce_runs_at_most_calls_witness :
  ∃ k, Debounce.app (Debounce.run S 5 [Debounce.Call; Debounce.Tick; Debounce.Call]
                       (Debounce.create Timers.empty 0)) = Nat.iter k S 0
     ∧ k ≤ 2.
Proof.
  destruct (debounce_runs_at_most_calls S 5
              [Debounce.Call; Debounce.Tick; Debounce.Call]
              (Debounce.create Timers.empty 0)) as (k & Hk & Hle).
  exists k. split; [exact Hk |]. cbn in Hle. lia.
Defined.

Lemma debounce_two_bursts_witness :
  Debounce.app
    (Debounce.run S CONFIG.DEBOUNCE_DELAY
       ((Debounce.burst [10] ++ replicate 1000 Debounce.Tick)
        ++ (Debounce.burst [] ++ replicate 1000 Debounce.Tick))
       (Debounce.create Timers.empty 0))
  = 2.
Proof.
  refine (proj1 (debounce_two_bursts S CONFIG.DEBOUNCE_DELAY [10] [] 1000 1000
                   (Debounce.create Timers.empty 0) _ _ _ _ _ _ _)).
  - reflexivity.
  - constructor; [unfold CONFIG.DEBOUNCE_DELAY; lia | constructor].
  - constructor.
  - unfold CONFIG.DEBOUNCE_DELAY. lia.
  - lia.
  - unfold CONFIG.DEBOUNCE_DELAY. lia.
  - lia.
Defined.

(** ** The observer callback on page mutations *)

Section ObserverMore.
Import MutationObserver Invariant.

Lemma debounced_now {D} (delay : nat) (d : Debounce.state D) :
  Timers.now (Debounce.timers (Debounce.debounced delay d))
  = Timers.now (Debounce.timers d).
Proof. unfold Debounce.debounced. by destruct (Debounce.timeoutId d). Qed.

(** X16. A batch that holds at least one mutation made by the page itself (a
    target outside the pipeline's containers and without the marking
    attribute, no marked element among the added nodes) makes the enabled
    callback call the debounced function: exactly one timer is then armed,
    1000 ms from now.  A disabled extension ignores the batch. *)
Theorem page_mutation_schedules_run {D : Type} (mutations : list MutationRecord)
    (d : Debounce.state D) :
  (∃ mu, mu ∈ mutations ∧ ¬ own_target (target mu)
         ∧ ∀ e, ElementNode e ∈ addedNodes mu -> ¬ marked e) ->
  callback true mutations d = debouncedProcess d
  ∧ callback false mutations d = d
  ∧ (single_timer d ->
     ∃ id, Timers.pending (Debounce.timers (callback true mutations d))
           = [Timers.Timer id (Timers.now (Debounce.timers d) + 1000) tt]).
Proof.
  intros (mu & Hin & Ht & Ha).
  assert (Hrel : relevant mu = true).
  { apply relevant_spec. split; [done |]. intros (e & He & Hm). by apply (Ha e). }
  assert (E : callback true mutations d = debouncedProcess d).
  { unfold callback. cbn [negb]. rewrite bool_decide_eq_true_2; [done |].
    unfold relevantMutations.
    assert (Hf : In mu (List.filter relevant mutations))
      by (apply filter_In; split; [by apply list_elem_of_In | done]).
    destruct (List.filter relevant mutations); [done | cbn; lia]. }
  split; [exact E |]. split; [done |].
  intros Hs. rewrite E. unfold debouncedProcess.
  destruct (debounced_waiting CONFIG.DEBOUNCE_DELAY d Hs) as [_ (id & Hp & _)].
  exists id. by rewrite Hp, debounced_now.
Qed.

Lemma page_mutation_schedules_run_witness :
  callback true [Examples.overlay_inserted; Examples.page_render]
    (Debounce.create Timers.empty 0)
  = debouncedProcess (Debounce.create Timers.empty 0).
Proof.
  refine (proj1 (page_mutation_schedules_run
            [Examples.overlay_inserted; Examples.page_render]
            (Debounce.create Timers.empty 0) _)).
  exists Examples.page_render. split_and!.
  - right. left.
  - intros [(a & Ha & Hm)|Hattr].
    + cbn in Ha. rewrite !elem_of_cons, elem_of_nil in Ha.
      destruct Ha as [->|[]]. cbn in Hm.
      destruct Hm as [[=]|Hm]. by apply list_elem_of_singleton in Hm.
    + by apply elem_of_nil in Hattr.
  - intros e He Hm. cbn in He. apply list_elem_of_singleton in He.
    injection He as ->. destruct Hm as [[=]|[Hm|Hm]].
    + by apply list_elem_of_singleton in Hm.
    + by apply elem_of_nil in Hm.
Defined.

End ObserverMore.

(** ** Removing the saved-tabs container *)

Section RemoveContainer.
Import SavedTabsUI.

(** X17. [remove] detaches the container from the page: afterwards the
    controller holds no container, the node has no parent, the child list
    of its former parent has lost it and nothing else, and every other node
    is unchanged.  A second [remove] does nothing. *)
Theorem SavedTabsUI_remove_detaches (o : SavedTabsUI.t) (b : browser)
    (n p : nat) (nd pn : node) :
  container o = Some n ->
  nodes b !! n = Some nd -> parentNode nd = Some p -> p ≠ n ->
  nodes b !! p = Some pn ->
  let s' := exec remove (o, b) in
  (remove (o, b)).1 = Normal tt
  ∧ container s'.1 = None
  ∧ nodes s'.2 !! n = Some (set_parentNode None nd)
  ∧ nodes s'.2 !! p
    = Some (set_childNodes (filter (fun c => c ≠ n)) pn)
  ∧ (∀ k, k ≠ n -> k ≠ p -> nodes s'.2 !! k = nodes b !! k)
  ∧ remove s' = (Normal tt, s').
Proof.
  destruct o as [c]. cbn [container]. intros -> Hn Hp Hne Hpn. cbv zeta.
  assert (E : remove (Make (Some n), b) =
              (Normal tt,
               (Make None,
                set_nodes (fun m => alter (set_parentNode None) n
                   (alter (set_childNodes (filter (fun c => c ≠ n))) p m)) b))).
  { cbv beta iota zeta delta [remove mbind js_bind bind gets mret js_ret ret
      page self zoom modify fst snd container remove_node].
    unfold parentNode_of. rewrite Hn. cbn. rewrite Hp.
    reflexivity. }
  unfold exec. rewrite E. cbn [fst snd container set_nodes nodes].
  split_and!; try done.
  - by rewrite lookup_alter_eq, lookup_alter_ne, Hn by done.
  - by rewrite lookup_alter_ne, lookup_alter_eq, Hpn by done.
  - intros k H1 H2. by rewrite !lookup_alter_ne by done.
Qed.

Lemma SavedTabsUI_remove_detaches_witness :
  let s' := exec remove (Make (Some 11), MoreExamples.home) in
  container s'.1 = None
  ∧ nodes s'.2 !! 10 = Some (Node "" [] None [12] "" None)
  ∧ remove s' = (Normal tt, s').
Proof.
  pose proof (SavedTabsUI_remove_detaches (Make (Some 11)) MoreExamples.home
                11 10 _ _ eq_refl eq_refl eq_refl ltac:(lia) eq_refl) as H.
  cbv zeta in H. destruct H as (_ & H1 & _ & H2 & _ & H3).
  cbv zeta. split_and!; [exact H1 | rewrite H2; reflexivity | exact H3].
Defined.

End RemoveContainer.

(** * The background script: saved tabs and the enabled flag *)

Section Storage.
Import Background Background.StorageManager.

Lemma insert_by_date_perm x l : insert_by_date x l ≡ₚ x :: l.
Proof.
  induction l as [|y l IH]; cbn; [done|].
  destruct (decide _); [|done]. rewrite IH. apply Permutation_swap.
Qed.

Lemma sort_recent_first_perm l : sort_recent_first l ≡ₚ l.
Proof.
  induction l as [|x l IH]; cbn; [done|].
  fold (sort_recent_first l). by rewrite insert_by_date_perm, IH.
Qed.

Lemma insert_by_date_sorted x l :
  ordered l -> ordered (insert_by_date x l).
Proof.
  induction l as [|y l IH]; cbn.
  - by repeat constructor.
  - intros [Hy Hs]. destruct (decide _) as [Hlt|Hge]; cbn.
    + split; [|by apply IH].
      apply Forall_forall. intros z Hz.
      rewrite insert_by_date_perm in Hz.
      apply elem_of_cons in Hz as [->|Hz].
      * unfold newer_or_same. lia.
      * by eapply Forall_forall in Hy.
    + split; [|done].
      constructor; [unfold newer_or_same; lia|].
      eapply Forall_impl; [exact Hy|].
      unfold newer_or_same. intros; cbn in *; lia.
Qed.

Lemma sort_recent_first_sorted l : ordered (sort_recent_first l).
Proof.
  induction l as [|x l IH]; cbn; [done|].
  by apply insert_by_date_sorted.
Qed.

Lemma sorted_recent_first l : ordered l -> recent_first l.
Proof.
  induction l as [|y l IH]; intros Hs i j a b Hi Hj Hij; [|destruct Hs as [Hy Hs]].
  - by rewrite lookup_nil in Hi.
  - destruct i as [|i], j as [|j]; cbn in Hi, Hj; simplify_eq.
    + lia.
    + eapply Forall_forall in Hy; [exact Hy|]. by eapply list_elem_of_lookup_2.
    + lia.
    + eapply IH; eauto. lia.
Qed.

Lemma recent_first_take n l : recent_first l -> recent_first (take n l).
Proof.
  intros H i j a b Hi Hj Hij.
  apply lookup_take_Some in Hi as [Hi _], Hj as [Hj _]. eauto.
Qed.

Lemma push_new_spec us all new :
  push_new us all new = all ++ filter (fun t => url t ∉ us) new.
Proof.
  revert all. induction new as [|t new IH]; intros all; cbn [push_new].
  - by rewrite filter_nil, app_nil_r.
  - destruct (decide (url t ∈ us)) as [Hin|Hout].
    + rewrite filter_cons_False by naive_solver. apply IH.
    + rewrite filter_cons_True by done. rewrite IH. by rewrite <- app_assoc.
Qed.

Lemma getSavedTabs_ok w :
  storage_error w = None ->
  getSavedTabs w = (Resolved (default [] (savedTabs w)), w).
Proof.
  intros H. unfold getSavedTabs, try_catch, await, storage_get_savedTabs, resolve.
  by rewrite H.
Qed.

Lemma saveTabs_ok w newTabs :
  storage_error w = None ->
  let stored := take CONFIG.MAX_SAVED_TABS (sort_recent_first (merged w newTabs)) in
  saveTabs newTabs w = (Resolved (Saved (List.length stored)), set_savedTabs stored w).
Proof.
  intros H. cbv zeta. unfold saveTabs, try_catch, await.
  rewrite (getSavedTabs_ok _ H). unfold storage_set_savedTabs, resolve.
  rewrite H. cbv zeta. by rewrite push_new_spec.
Qed.

(** X18. While the storage area answers, [saveTabs] succeeds and leaves at
    most [MAX_SAVED_TABS] tabs in it, most recent first; the count it reports
    is the number of tabs stored, and nothing but the list of saved tabs is
    written. *)
Theorem saveTabs_bounded_recent_first (w : world) (newTabs : list SavedTab) :
  storage_error w = None ->
  ∃ stored,
    saveTabs newTabs w = (Resolved (Saved (List.length stored)), set_savedTabs stored w)
    ∧ List.length stored ≤ CONFIG.MAX_SAVED_TABS
    ∧ recent_first stored
    ∧ (getSavedTabs (saveTabs newTabs w).2).1 = Resolved stored.
Proof.
  intros H. eexists. split; [exact (saveTabs_ok w newTabs H)|].
  split_and!.
  - rewrite length_take. lia.
  - apply recent_first_take, sorted_recent_first, sort_recent_first_sorted.
  - rewrite (saveTabs_ok w newTabs H). cbn [snd].
    by rewrite getSavedTabs_ok.
Qed.

Lemma saveTabs_bounded_recent_first_witness :
  ∃ stored,
    saveTabs sample_tabs empty_world
    = (Resolved (Saved (List.length stored)), set_savedTabs stored empty_world)
    ∧ List.length stored ≤ CONFIG.MAX_SAVED_TABS
    ∧ recent_first stored
    ∧ (getSavedTabs (saveTabs sample_tabs empty_world).2).1 = Resolved stored.
Proof. exact (saveTabs_bounded_recent_first empty_world sample_tabs eq_refl). Defined.

(** X19. [saveTabs] compares a new tab's URL with the URLs that were stored
    before the call only: a new tab is dropped when its URL is already
    stored, and every other new tab is kept, also when two new tabs share a
    URL.  As long as the limit is not exceeded, the stored tabs are exactly
    the earlier ones and the admitted new ones, reordered. *)
Theorem saveTabs_deduplicates_against_stored (w : world) (newTabs : list SavedTab) :
  storage_error w = None ->
  let existing := default [] (savedTabs w) in
  let admitted := filter (fun t => url t ∉ map url existing) newTabs in
  let stored := default [] (savedTabs (saveTabs newTabs w).2) in
  (∀ t, t ∈ stored -> t ∈ existing ∨ (t ∈ newTabs ∧ url t ∉ map url existing))
  ∧ (List.length existing + List.length admitted ≤ CONFIG.MAX_SAVED_TABS ->
     stored ≡ₚ existing ++ admitted).
Proof.
  intros H. cbv zeta. rewrite (saveTabs_ok w newTabs H). cbn [snd set_savedTabs savedTabs default].
  split.
  - intros t Ht. apply subseteq_take in Ht.
    rewrite sort_recent_first_perm in Ht.
    unfold merged in Ht. apply elem_of_app in Ht as [Ht|Ht]; [by left|].
    right. by apply list_elem_of_filter in Ht as [? ?].
  - intros Hlen. rewrite take_ge.
    + apply sort_recent_first_perm.
    + rewrite (Permutation_length (sort_recent_first_perm _)).
      unfold merged. rewrite length_app. exact Hlen.
Qed.

Lemma saveTabs_deduplicates_against_stored_witness :
  default [] (savedTabs (saveTabs sample_tabs (set_savedTabs (take 1 sample_tabs) empty_world)).2)
  ≡ₚ take 1 sample_tabs ++ [ Tab "2_b" "https://www.youtube.com/watch?v=bbbbbbbbbbb" "B" "Unknown Channel" 3000 ].
Proof.
  refine (proj2 (saveTabs_deduplicates_against_stored
                   (set_savedTabs (take 1 sample_tabs) empty_world) sample_tabs eq_refl) _).
  vm_compute. lia.
Defined.

Lemma saveTabs_drops_oldest (w : world) (newTabs : list SavedTab)
    (kept dropped : SavedTab) :
  storage_error w = None ->
  kept ∈ default [] (savedTabs (saveTabs newTabs w).2) ->
  dropped ∈ merged w newTabs ->
  dropped ∉ default [] (savedTabs (saveTabs newTabs w).2) ->
  (savedAt dropped ≤ savedAt kept)%Z.
Proof.
  intros H. rewrite (saveTabs_ok w newTabs H).
  cbn [snd set_savedTabs savedTabs default].
  intros Hk Hd Hnd.
  rewrite <- (sort_recent_first_perm (merged w newTabs)) in Hd.
  rewrite <- (take_drop CONFIG.MAX_SAVED_TABS (sort_recent_first (merged w newTabs))) in Hd.
  apply elem_of_app in Hd as [Hd|Hd]; [done|].
  apply list_elem_of_lookup in Hk as [i Hi], Hd as [j Hj].
  apply lookup_take_Some in Hi as [Hi Hlt].
  rewrite lookup_drop in Hj.
  eapply (sorted_recent_first _ (sort_recent_first_sorted (merged w newTabs)));
    [exact Hi | exact Hj | lia].
Qed.

(** X20. Why [saveTabs] leaves a tab out.  A tab that was stored before the
    call, or is one of the new tabs, and is not stored afterwards is either
    a new tab refused because its URL was already stored, whenever it was
    saved, or a tab evicted by the limit: then more than [MAX_SAVED_TABS]
    tabs were to be stored and it was saved no later than any tab that is
    kept. *)
Theorem saveTabs_evicts_oldest (w : world) (newTabs : list SavedTab)
    (left_out : SavedTab) :
  storage_error w = None ->
  let existing := default [] (savedTabs w) in
  let stored := default [] (savedTabs (saveTabs newTabs w).2) in
  left_out ∈ existing ++ newTabs -> left_out ∉ stored ->
  (left_out ∈ newTabs ∧ url left_out ∈ map url existing)
  ∨ (CONFIG.MAX_SAVED_TABS < List.length (merged w newTabs)
     ∧ ∀ kept, kept ∈ stored -> (savedAt left_out ≤ savedAt kept)%Z).
Proof.
  intros H. cbv zeta. intros Hin Hout.
  assert (Hcase : (left_out ∈ newTabs ∧ url left_out ∈ map url (default [] (savedTabs w)))
                  ∨ left_out ∈ merged w newTabs).
  { unfold merged. apply elem_of_app in Hin as [Hin|Hin].
    - right. apply elem_of_app. by left.
    - destruct (decide (url left_out ∈ map url (default [] (savedTabs w)))) as [Hu|Hu].
      + by left.
      + right. apply elem_of_app. right. by apply list_elem_of_filter. }
  destruct Hcase as [Hdup|Hm]; [by left |]. right. split.
  - destruct (decide (CONFIG.MAX_SAVED_TABS < List.length (merged w newTabs)))
      as [Hlt|Hge]; [done |]. exfalso. apply Hout.
    rewrite (saveTabs_ok w newTabs H). cbn [snd set_savedTabs savedTabs default].
    rewrite take_ge.
    + by rewrite sort_recent_first_perm.
    + rewrite (Permutation_length (sort_recent_first_perm _)). lia.
  - intros kept Hk. by eapply saveTabs_drops_oldest.
Qed.

Lemma saveTabs_evicts_oldest_witness :
  let duplicate := Tab "late" (url (stamped 5)) "YouTube Video" "Unknown Channel" 500 in
  let stored := default [] (savedTabs (saveTabs [stamped 200; duplicate] full_world).2) in
  (stamped 200 ∈ stored ∧ (stamped 1 ∉ stored) ∧ (duplicate ∉ stored))
  ∧ (∀ kept, kept ∈ stored -> (savedAt (stamped 1) ≤ savedAt kept)%Z)
  ∧ url duplicate ∈ map url (default [] (savedTabs full_world)).
Proof.
  cbv zeta.
  set (duplicate := Tab "late" (url (stamped 5)) "YouTube Video" "Unknown Channel" 500).
  set (stored := default [] (savedTabs (saveTabs [stamped 200; duplicate] full_world).2)).
  assert (Hk : stamped 200 ∈ stored).
  { apply (bool_decide_unpack _). vm_compute. exact I. }
  assert (Hd : stamped 1 ∉ stored).
  { apply (bool_decide_unpack _). vm_compute. exact I. }
  assert (Hl : duplicate ∉ stored).
  { apply (bool_decide_unpack _). vm_compute. exact I. }
  assert (H1 : stamped 1 ∈ default [] (savedTabs full_world) ++ [stamped 200; duplicate]).
  { apply (bool_decide_unpack _). vm_compute. exact I. }
  assert (H2 : duplicate ∈ default [] (savedTabs full_world) ++ [stamped 200; duplicate]).
  { apply (bool_decide_unpack _). vm_compute. exact I. }
  split; [by split_and! |]. split.
  - destruct (saveTabs_evicts_oldest full_world [stamped 200; duplicate] (stamped 1)
                eq_refl H1 Hd) as [[Hn _]|[_ Ho]]; [|exact Ho].
    exfalso. revert Hn. apply (bool_decide_unpack _). vm_compute. exact I.
  - destruct (saveTabs_evicts_oldest full_world [stamped 200; duplicate] duplicate
                eq_refl H2 Hl) as [[_ Hu]|[_ Ho]]; [exact Hu |].
    exfalso. specialize (Ho _ Hk). vm_compute in Ho. by apply Ho.
Defined.

Lemma lost_iff (tabId : string) (l : list SavedTab) :
  0 < List.length l - List.length (filter (fun tab => tab_id tab ≠ tabId) l)
  ↔ tabId ∈ map tab_id l.
Proof.
  pose proof (length_filter (fun tab => tab_id tab ≠ tabId) l) as Hle.
  induction l as [|t l IH]; cbn [map].
  - cbn. rewrite elem_of_nil. lia.
  - pose proof (length_filter (fun tab => tab_id tab ≠ tabId) l) as Hle'.
    rewrite elem_of_cons.
    destruct (decide (tab_id t = tabId)) as [E|N].
    + rewrite filter_cons_False by naive_solver. cbn [List.length].
      split; [by left; symmetry|lia].
    + rewrite filter_cons_True by done. cbn [List.length].
      rewrite <- (IH Hle'). split; [intros; right; lia|intros [?|?]; [congruence|lia]].
Qed.

Lemma deleteTab_ok w tabId :
  storage_error w = None ->
  deleteTab tabId w
  = (Resolved (Deleted (bool_decide (tabId ∈ map tab_id (default [] (savedTabs w))))),
     set_savedTabs (filter (fun tab => tab_id tab ≠ tabId) (default [] (savedTabs w))) w).
Proof.
  intros H. unfold deleteTab, try_catch, await.
  rewrite (getSavedTabs_ok _ H). unfold storage_set_savedTabs, resolve.
  rewrite H. cbv zeta. do 3 f_equal. apply bool_decide_ext, lost_iff.
Qed.

(** X21. While the storage area answers, [deleteTab] removes every saved
    tab with the given id and keeps the others in their order; it reports
    [deleted: true] exactly when such a tab was stored.  Deleting an id that
    is not stored changes no saved tab, so a second [deleteTab] with the
    same id reports [deleted: false]; the enabled flag is never touched. *)
Theorem deleteTab_removes_id (w : world) (tabId : string) :
  storage_error w = None ->
  let existing := default [] (savedTabs w) in
  let w' := (deleteTab tabId w).2 in
  (deleteTab tabId w).1 = Resolved (Deleted (bool_decide (tabId ∈ map tab_id existing)))
  ∧ (getSavedTabs w').1 = Resolved (filter (fun tab => tab_id tab ≠ tabId) existing)
  ∧ (∀ tab, tab ∈ default [] (savedTabs w') -> tab_id tab ≠ tabId)
  ∧ (tabId ∉ map tab_id existing -> (getSavedTabs w').1 = Resolved existing)
  ∧ (deleteTab tabId w').1 = Resolved (Deleted false)
  ∧ extensionEnabled w' = extensionEnabled w.
Proof.
  intros H. cbv zeta. rewrite (deleteTab_ok w tabId H). cbn [fst snd].
  set (l := default [] (savedTabs w)).
  assert (H' : storage_error (set_savedTabs (filter (fun tab => tab_id tab ≠ tabId) l) w) = None)
    by exact H.
  split_and!.
  - done.
  - by rewrite (getSavedTabs_ok _ H').
  - cbn. intros tab Ht. by apply list_elem_of_filter in Ht as [? _].
  - intros Hn. rewrite (getSavedTabs_ok _ H'). cbn. f_equal.
    induction l as [|t l IH]; [done|].
    cbn [map] in Hn. apply not_elem_of_cons in Hn as [Hn1 Hn2].
    rewrite filter_cons_True by congruence. f_equal. by apply IH.
  - rewrite (deleteTab_ok _ tabId H'). cbn [fst set_savedTabs savedTabs default].
    do 2 f_equal. apply bool_decide_eq_false.
    rewrite list_elem_of_fmap. intros (t & Ht1 & Ht2).
    apply list_elem_of_filter in Ht2 as [Ht2 _]. congruence.
  - done.
Qed.

Lemma deleteTab_removes_id_witness :
  (deleteTab "2_b" (set_savedTabs sample_tabs empty_world)).1 = Resolved (Deleted true)
  ∧ (deleteTab "2_b" (deleteTab "2_b" (set_savedTabs sample_tabs empty_world)).2).1
    = Resolved (Deleted false).
Proof.
  pose proof (deleteTab_removes_id (set_savedTabs sample_tabs empty_world) "2_b" eq_refl) as H.
  cbv zeta in H. destruct H as (H1 & _ & _ & _ & H2 & _).
  split; [exact H1 | exact H2].
Defined.

Lemma getExtensionState_ok w :
  storage_error w = None ->
  getExtensionState w
  = (Resolved (negb (bool_decide (extensionEnabled w = Some false))), w).
Proof.
  intros H. unfold getExtensionState, try_catch, await, storage_get_extensionEnabled, resolve.
  by rewrite H.
Qed.

Lemma toggleExtension_ok w :
  storage_error w = None ->
  toggleExtension w
  = (Resolved (Toggled (bool_decide (extensionEnabled w = Some false))),
     set_extensionEnabled (bool_decide (extensionEnabled w = Some false)) w).
Proof.
  intros H. unfold toggleExtension, try_catch, await.
  rewrite (getExtensionState_ok _ H). unfold storage_set_extensionEnabled, resolve.
  rewrite H. cbv zeta. by rewrite negb_involutive.
Qed.

(** X22. While the storage area answers, the extension counts as enabled
    unless false was stored, so it is enabled before anything is written.
    [toggleExtension] stores and reports the negation of that state, two
    toggles in a row end in the state they started from, and the saved tabs
    are never touched. *)
Theorem toggleExtension_involution (w : world) :
  storage_error w = None ->
  ∃ current,
    (getExtensionState w).1 = Resolved current
    ∧ (current = false ↔ extensionEnabled w = Some false)
    ∧ (toggleExtension w).1 = Resolved (Toggled (negb current))
    ∧ (getExtensionState (toggleExtension w).2).1 = Resolved (negb current)
    ∧ (toggleExtension (toggleExtension w).2).1 = Resolved (Toggled current)
    ∧ (getExtensionState (toggleExtension (toggleExtension w).2).2).1 = Resolved current
    ∧ savedTabs (toggleExtension (toggleExtension w).2).2 = savedTabs w.
Proof.
  intros H. exists (negb (bool_decide (extensionEnabled w = Some false))).
  rewrite (getExtensionState_ok _ H), (toggleExtension_ok _ H). cbn [fst snd].
  set (c := bool_decide (extensionEnabled w = Some false)).
  assert (H' : storage_error (set_extensionEnabled c w) = None) by exact H.
  rewrite (getExtensionState_ok _ H'), (toggleExtension_ok _ H'). cbn [fst snd].
  assert (H'' : storage_error (set_extensionEnabled
             (bool_decide (extensionEnabled (set_extensionEnabled c w) = Some false))
             (set_extensionEnabled c w)) = None) by exact H.
  rewrite (getExtensionState_ok _ H''). cbn [fst snd set_extensionEnabled extensionEnabled savedTabs].
  rewrite negb_involutive.
  split_and!; try done.
  - subst c. rewrite negb_false_iff, bool_decide_eq_true. done.
  - by destruct c.
  - by destruct c.
  - by destruct c.
Qed.

Lemma toggleExtension_involution_witness :
  ∃ current,
    (getExtensionState empty_world).1 = Resolved current
    ∧ (current = false ↔ extensionEnabled empty_world = Some false)
    ∧ (toggleExtension empty_world).1 = Resolved (Toggled (negb current))
    ∧ (getExtensionState (toggleExtension empty_world).2).1 = Resolved (negb current)
    ∧ (toggleExtension (toggleExtension empty_world).2).1 = Resolved (Toggled current)
    ∧ (getExtensionState (toggleExtension (toggleExtension empty_world).2).2).1
      = Resolved current
    ∧ savedTabs (toggleExtension (toggleExtension empty_world).2).2 = savedTabs empty_world.
Proof. exact (toggleExtension_involution empty_world eq_refl). Defined.

(** X23. No method of [StorageManager] rejects, whatever the storage area
    does: each one settles with a result. *)
Theorem StorageManager_never_rejects (w : world) (newTabs : list SavedTab) (tabId : string) :
  (∃ r, (getSavedTabs w).1 = Resolved r)
  ∧ (∃ r, (saveTabs newTabs w).1 = Resolved r)
  ∧ (∃ r, (deleteTab tabId w).1 = Resolved r)
  ∧ (∃ r, (clearAllTabs w).1 = Resolved r)
  ∧ (∃ r, (getExtensionState w).1 = Resolved r)
  ∧ (∃ r, (toggleExtension w).1 = Resolved r).
Proof.
  unfold saveTabs, deleteTab, clearAllTabs, toggleExtension, getSavedTabs,
    getExtensionState, try_catch, await, storage_get_savedTabs,
    storage_get_extensionEnabled, storage_set_savedTabs,
    storage_set_extensionEnabled, resolve, log_error.
  destruct w as [st en [e|] lg]; cbn; split_and!; eauto.
Qed.

(** X24. When the storage area rejects every call, reading falls back to
    the defaults, no saved tab and an enabled extension, and every writing
    method reports the failure with the error's message; the stored tabs
    and the stored flag stay as they were. *)
Theorem StorageManager_failure_defaults (w : world) (e : string)
    (newTabs : list SavedTab) (tabId : string) :
  storage_error w = Some e ->
  (getSavedTabs w).1 = Resolved []
  ∧ (getExtensionState w).1 = Resolved true
  ∧ (saveTabs newTabs w).1 = Resolved (SaveFailed e)
  ∧ (deleteTab tabId w).1 = Resolved (DeleteFailed e)
  ∧ (clearAllTabs w).1 = Resolved (ClearFailed e)
  ∧ (toggleExtension w).1 = Resolved (ToggleFailed e)
  ∧ (∀ w', w' ∈ [ (saveTabs newTabs w).2; (deleteTab tabId w).2;
                  (clearAllTabs w).2; (toggleExtension w).2 ] ->
       savedTabs w' = savedTabs w ∧ extensionEnabled w' = extensionEnabled w).
Proof.
  destruct w as [st en se lg]. cbn [storage_error]. intros ->.
  unfold saveTabs, deleteTab, clearAllTabs, toggleExtension, getSavedTabs,
    getExtensionState, try_catch, await, storage_get_savedTabs,
    storage_get_extensionEnabled, storage_set_savedTabs,
    storage_set_extensionEnabled, resolve, log_error.
  cbn. split_and!; try done.
  intros w' Hw'. rewrite !elem_of_cons, elem_of_nil in Hw'.
  destruct Hw' as [->|[->|[->|[->|[]]]]]; done.
Qed.

Lemma StorageManager_failure_defaults_witness :
  (getSavedTabs broken_world).1 = Resolved []
  ∧ (saveTabs sample_tabs broken_world).1
    = Resolved (SaveFailed "QUOTA_BYTES quota exceeded")
  ∧ savedTabs (saveTabs sample_tabs broken_world).2 = Some sample_tabs.
Proof.
  pose proof (StorageManager_failure_defaults broken_world _ sample_tabs "" eq_refl) as H.
  destruct H as (H1 & _ & H2 & _ & _ & _ & H3).
  split_and!; [exact H1 | exact H2 |].
  refine (proj1 (H3 _ _)). left.
Defined.

(** X25. [clearAllTabs] also forgets the URLs: a [saveTabs] that follows it
    admits every new tab, whatever was stored before, and stores the most
    recent [MAX_SAVED_TABS] of them. *)
Theorem clearAllTabs_then_saveTabs (w : world) (newTabs : list SavedTab) :
  storage_error w = None ->
  (clearAllTabs w).1 = Resolved Cleared
  ∧ (getSavedTabs (clearAllTabs w).2).1 = Resolved []
  ∧ (getSavedTabs (saveTabs newTabs (clearAllTabs w).2).2).1
    = Resolved (take CONFIG.MAX_SAVED_TABS (sort_recent_first newTabs)).
Proof.
  intros H.
  assert (E : clearAllTabs w = (Resolved Cleared, set_savedTabs [] w)).
  { unfold clearAllTabs, try_catch, await, storage_set_savedTabs, resolve. by rewrite H. }
  rewrite E. cbn [fst snd].
  assert (H' : storage_error (set_savedTabs [] w) = None) by exact H.
  split_and!; [done | by rewrite (getSavedTabs_ok _ H') |].
  rewrite (saveTabs_ok _ newTabs H'). cbn [snd].
  rewrite getSavedTabs_ok by exact H. cbn [set_savedTabs savedTabs default].
  assert (F : merged (set_savedTabs [] w) newTabs = newTabs).
  { unfold merged. cbn [set_savedTabs savedTabs default]. unfold id.
    cbn [map app].
    induction newTabs as [|t l IH]; [done|].
    rewrite filter_cons_True by apply not_elem_of_nil. by rewrite IH. }
  by rewrite F.
Qed.

Lemma clearAllTabs_then_saveTabs_witness :
  (getSavedTabs (saveTabs sample_tabs
                   (clearAllTabs (set_savedTabs sample_tabs empty_world)).2).2).1
  = Resolved (take CONFIG.MAX_SAVED_TABS (sort_recent_first sample_tabs)).
Proof.
  exact (proj2 (proj2 (clearAllTabs_then_saveTabs
                         (set_savedTabs sample_tabs empty_world) sample_tabs eq_refl))).
Defined.

End Storage.
